(** * yash: a job-control shell, embedded and verified

    Shallow embedding of the final shape of [yash.c] (the shell with the
    [FG_JOB_NUM] sentinel, [remove_done_jobs] and the three-way
    [print_job_table]).  The embedding follows the C text function by
    function:

    - C [int] and [pid_t] are [Z]; the one place where the program does
      arithmetic on them ([find_most_recent_job_num() + 1]) wraps to 32 bits;
    - C strings are [string]s (the bytes before the terminating NUL);
    - [job_t] nodes live in a heap [gmap ptr job_t]; the job list is the
      chain of [next] pointers starting at [job_list_head], exactly as in the
      program, so that stale or cyclic [next] pointers are visible;
    - every function that dereferences pointers or loops over the chain runs
      in the [exec] monad: [Ret v] is a normal return, [Fault] is a read or
      write outside an object (undefined behaviour in C), [Diverge] is a loop
      that never leaves;
    - the operating system is an explicit environment: the results of
      [waitpid], [fork], [kill], [open] and [readline] are inputs. *)

From Stdlib Require Import ZArith String Ascii List DecimalString Lia.
From stdpp Require Import gmap strings list fin_maps.

Local Open Scope string_scope.
Local Open Scope list_scope.
Local Open Scope Z_scope.

(** ** Outcomes of running a piece of C *)

Inductive exec (A : Type) : Type :=
| Ret (a : A)
| Fault
| Diverge.
Arguments Ret {A} a.
Arguments Fault {A}.
Arguments Diverge {A}.

#[global] Instance exec_ret : MRet exec := fun A a => Ret a.
#[global] Instance exec_bind : MBind exec := fun A B k m =>
  match m with
  | Ret a => k a
  | Fault => Fault
  | Diverge => Diverge
  end.

(** A pointer that must not be NULL or dangling. *)
Definition deref {A} (o : option A) : exec A :=
  match o with
  | Some a => Ret a
  | None => Fault
  end.

(** ** Constants of the program *)

Definition MAX_ARGS : Z := 128.

Definition INPUT_REDIRECT : string := "<".
Definition OUTPUT_REDIRECT : string := ">".
Definition ERROR_REDIRECT : string := "2>".
Definition PIPE : string := "|".
Definition SEND_TO_BACKGROUND : string := "&".

Definition FOREGROUND : string := "fg".
Definition BACKGROUND : string := "bg".
Definition JOBS : string := "jobs".
Definition FG_JOB_NUM : Z := -1.

Definition SUCCESS : Z := 1.
Definition INPUT_PARSING_ERROR : Z := -1.
Definition COMMAND_PROCESSING_ERROR : Z := -1.
Definition FILE_REDIRECTION_ERROR : Z := -1.

Definition TERMINAL_PROMPT : string := "# ".
Definition COMMAND_DELIMETER : string :=
  String " " (String (ascii_of_nat 9) EmptyString).

Definition EXIT_SUCCESS : Z := 0.
Definition EXIT_FAILURE : Z := 1.

(** 32-bit two's complement wrap-around of an [int] result. *)
Definition int_wrap (z : Z) : Z := (z + 2 ^ 31) mod 2 ^ 32 - 2 ^ 31.
Definition INT_MAX : Z := 2 ^ 31 - 1.

(** ** Data model *)

Inductive job_status : Type := RUNNING | STOPPED | DONE.

#[global] Instance job_status_eq_dec : EqDecision job_status.
Proof. solve_decision. Defined.

(** [char *argv[MAX_ARGS + 1]]: a slot is [None] for a NULL pointer. *)
Record process_t : Type := mk_process {
  argv : list (option string);
  redirect_input_filename : option string;
  redirect_output_filename : option string;
  redirect_error_filename : option string
}.

(** Address of a [malloc]ed [job_t]. *)
Definition ptr : Type := positive.

Record job_t : Type := mk_job {
  pgid : Z;
  command : string;
  job_number : Z;
  background : bool;
  status : job_status;
  first_process : option process_t;
  second_process : option process_t;
  next : option ptr
}.

(** [memset(process, 0, sizeof(process_t))] *)
Definition zero_process : process_t :=
  {| argv := replicate (Z.to_nat (MAX_ARGS + 1)) None;
     redirect_input_filename := None;
     redirect_output_filename := None;
     redirect_error_filename := None |}.

(** [memset(job, 0, sizeof(job_t)); job->command = command;] *)
Definition zero_job (cmd : string) : job_t :=
  {| pgid := 0; command := cmd; job_number := 0; background := false;
     status := RUNNING; first_process := None; second_process := None;
     next := None |}.

Definition set_argv (i : Z) (tok : string) (p : process_t) : process_t :=
  {| argv := <[Z.to_nat i := Some tok]> (argv p);
     redirect_input_filename := redirect_input_filename p;
     redirect_output_filename := redirect_output_filename p;
     redirect_error_filename := redirect_error_filename p |}.
Definition set_redirect_input (f : string) (p : process_t) : process_t :=
  {| argv := argv p;
     redirect_input_filename := Some f;
     redirect_output_filename := redirect_output_filename p;
     redirect_error_filename := redirect_error_filename p |}.
Definition set_redirect_output (f : string) (p : process_t) : process_t :=
  {| argv := argv p;
     redirect_input_filename := redirect_input_filename p;
     redirect_output_filename := Some f;
     redirect_error_filename := redirect_error_filename p |}.
Definition set_redirect_error (f : string) (p : process_t) : process_t :=
  {| argv := argv p;
     redirect_input_filename := redirect_input_filename p;
     redirect_output_filename := redirect_output_filename p;
     redirect_error_filename := Some f |}.

Definition set_pgid (v : Z) (j : job_t) : job_t :=
  {| pgid := v; command := command j; job_number := job_number j;
     background := background j; status := status j;
     first_process := first_process j; second_process := second_process j;
     next := next j |}.
Definition set_command (v : string) (j : job_t) : job_t :=
  {| pgid := pgid j; command := v; job_number := job_number j;
     background := background j; status := status j;
     first_process := first_process j; second_process := second_process j;
     next := next j |}.
Definition set_job_number (v : Z) (j : job_t) : job_t :=
  {| pgid := pgid j; command := command j; job_number := v;
     background := background j; status := status j;
     first_process := first_process j; second_process := second_process j;
     next := next j |}.
Definition set_background (v : bool) (j : job_t) : job_t :=
  {| pgid := pgid j; command := command j; job_number := job_number j;
     background := v; status := status j;
     first_process := first_process j; second_process := second_process j;
     next := next j |}.
Definition set_status (v : job_status) (j : job_t) : job_t :=
  {| pgid := pgid j; command := command j; job_number := job_number j;
     background := background j; status := v;
     first_process := first_process j; second_process := second_process j;
     next := next j |}.
Definition set_first_process (v : option process_t) (j : job_t) : job_t :=
  {| pgid := pgid j; command := command j; job_number := job_number j;
     background := background j; status := status j;
     first_process := v; second_process := second_process j;
     next := next j |}.
Definition set_second_process (v : option process_t) (j : job_t) : job_t :=
  {| pgid := pgid j; command := command j; job_number := job_number j;
     background := background j; status := status j;
     first_process := first_process j; second_process := v;
     next := next j |}.
Definition set_next (v : option ptr) (j : job_t) : job_t :=
  {| pgid := pgid j; command := command j; job_number := job_number j;
     background := background j; status := status j;
     first_process := first_process j; second_process := second_process j;
     next := v |}.

(** ** Command line parsing *)

Module Parser.

(** [strtok(command, " \t")] called until it returns NULL: the maximal runs
    of characters that are neither a space nor a tab. *)
Definition is_delimiter (c : ascii) : bool :=
  bool_decide (c = " "%char) || bool_decide (c = ascii_of_nat 9).

Fixpoint strtok_all (s : string) (token : string) : list string :=
  match s with
  | EmptyString =>
      if bool_decide (token = "") then [] else [token]
  | String c s' =>
      if is_delimiter c
      then (if bool_decide (token = "") then [] else [token]) ++ strtok_all s' ""
      else strtok_all s' (token +:+ String c EmptyString)
  end.

(** [parse_command]: fills [buffer] (the caller's
    [char *tokenized_command[MAX_ARGS]]) and NULL-terminates it; the write at
    [buffer[ind]] must stay inside the array. *)
Definition parse_command (cmd : string) : exec (list string * Z) :=
  let tokens := strtok_all cmd "" in
  let ind := Z.of_nat (length tokens) in
  if ind <? MAX_ARGS then Ret (tokens, ind) else Fault.

(** Local variables of [process_input] together with the job it fills. *)
Record parse_state : Type := mk_parse_state {
  ind : Z;
  argv_ind : Z;
  creating_second_process : bool;
  process : process_t;
  job : job_t
}.

(** What [process_input] hands back: its return value, what it printed on
    stdout, and the job as it left it. *)
Record parse_outcome : Type := mk_parse_outcome {
  ret : Z;
  printed : string;
  parsed_job : job_t
}.

Inductive step_result : Type :=
| Continue (st : parse_state)
| Return (o : parse_outcome)
| Crash.

Definition lf : string := String (ascii_of_nat 10) EmptyString.

Definition input_redirect_msg : string :=
  "Error [process_input]: < needs to be placed between two tokens" +:+ lf.
Definition output_redirect_msg : string :=
  "Error [process_input]: > needs to be placed between two command tokens" +:+ lf.
Definition error_redirect_msg : string :=
  "Error [process_input]: 2> needs to be placed between two command tokens" +:+ lf.
Definition pipe_msg : string :=
  "Error [process_input]: | needs to be placed between two command tokens" +:+ lf.
Definition background_msg : string :=
  "Error [process_input]: & cannot be the only command, and can only be placed at the end of a command" +:+ lf.

(** [tokenized_command[i]]; the array is NULL-terminated, and a NULL handed
    to [strcmp] or [strdup] is a fault. *)
Definition token_at (tokenized_command : list string) (i : Z) : option string :=
  if i <? 0 then None else tokenized_command !! Z.to_nat i.

(** [ind++; argv_ind++;] at the end of the loop body. *)
Definition advance (st : parse_state) : parse_state :=
  {| ind := ind st + 1; argv_ind := argv_ind st + 1;
     creating_second_process := creating_second_process st;
     process := process st; job := job st |}.

Definition with_ind (v : Z) (st : parse_state) : parse_state :=
  {| ind := v; argv_ind := argv_ind st;
     creating_second_process := creating_second_process st;
     process := process st; job := job st |}.
Definition with_process (p : process_t) (st : parse_state) : parse_state :=
  {| ind := ind st; argv_ind := argv_ind st;
     creating_second_process := creating_second_process st;
     process := p; job := job st |}.
Definition with_job (j : job_t) (st : parse_state) : parse_state :=
  {| ind := ind st; argv_ind := argv_ind st;
     creating_second_process := creating_second_process st;
     process := process st; job := j |}.

(** The three redirection branches: the same test, then
    [process-><field> = strdup(tokenized_command[++ind])]. *)
Definition redirect_branch (msg : string)
    (store : string -> process_t -> process_t)
    (tokenized_command_length : Z) (tokenized_command : list string)
    (st : parse_state) : step_result :=
  if (argv_ind st =? 0) || (ind st + 1 =? tokenized_command_length)
  then Return {| ret := COMMAND_PROCESSING_ERROR; printed := msg;
                 parsed_job := job st |}
  else
    match token_at tokenized_command (ind st + 1) with
    | None => Crash
    | Some filename =>
        Continue (advance (with_process (store filename (process st))
                                        (with_ind (ind st + 1) st)))
    end.

(** One turn of [while (ind < tokenized_command_length)]. *)
Definition process_input_body (tokenized_command_length : Z)
    (tokenized_command : list string) (st : parse_state) : step_result :=
  match token_at tokenized_command (ind st) with
  | None => Crash
  | Some tok =>
      if String.eqb tok INPUT_REDIRECT then
        redirect_branch input_redirect_msg set_redirect_input
          tokenized_command_length tokenized_command st
      else if String.eqb tok OUTPUT_REDIRECT then
        redirect_branch output_redirect_msg set_redirect_output
          tokenized_command_length tokenized_command st
      else if String.eqb tok ERROR_REDIRECT then
        redirect_branch error_redirect_msg set_redirect_error
          tokenized_command_length tokenized_command st
      else if String.eqb tok PIPE then
        if (argv_ind st =? 0) || (ind st + 1 =? tokenized_command_length)
        then Return {| ret := COMMAND_PROCESSING_ERROR; printed := pipe_msg;
                       parsed_job := job st |}
        else
          Continue (advance
            {| ind := ind st; argv_ind := -1;
               creating_second_process := true;
               process := zero_process;
               job := set_first_process (Some (process st)) (job st) |})
      else if String.eqb tok SEND_TO_BACKGROUND then
        if (ind st =? 0) || (ind st + 1 <? tokenized_command_length)
        then Return {| ret := COMMAND_PROCESSING_ERROR;
                       printed := background_msg; parsed_job := job st |}
        else Continue (advance (with_job (set_background true (job st)) st))
      else
        if (0 <=? argv_ind st) && (argv_ind st <? MAX_ARGS + 1)
        then Continue (advance
               (with_process (set_argv (argv_ind st) tok (process st)) st))
        else Crash
  end.

(** After the loop: attach the process under construction. *)
Definition process_input_finish (st : parse_state) : parse_outcome :=
  {| ret := SUCCESS; printed := "";
     parsed_job :=
       if creating_second_process st
       then set_second_process (Some (process st)) (job st)
       else set_first_process (Some (process st)) (job st) |}.

Fixpoint process_input_loop (fuel : nat) (tokenized_command_length : Z)
    (tokenized_command : list string) (st : parse_state) : exec parse_outcome :=
  match fuel with
  | O => Diverge
  | S fuel' =>
      if ind st <? tokenized_command_length then
        match process_input_body tokenized_command_length tokenized_command st with
        | Continue st' =>
            process_input_loop fuel' tokenized_command_length tokenized_command st'
        | Return o => Ret o
        | Crash => Fault
        end
      else Ret (process_input_finish st)
  end.

Definition process_input_start (j : job_t) : parse_state :=
  {| ind := 0; argv_ind := 0; creating_second_process := false;
     process := zero_process; job := j |}.

(** [ind] grows by at least one per turn, so
    [tokenized_command_length + 1] turns are enough. *)
Definition process_input (tokenized_command_length : Z)
    (tokenized_command : list string) (j : job_t) : exec parse_outcome :=
  process_input_loop (S (Z.to_nat tokenized_command_length))
    tokenized_command_length tokenized_command (process_input_start j).

(** The loop arrives at its head with these locals after [n] full turns. *)
Fixpoint reaches (n : nat) (tokenized_command_length : Z)
    (tokenized_command : list string) (st : parse_state) : option parse_state :=
  match n with
  | O => Some st
  | S n' =>
      if ind st <? tokenized_command_length then
        match process_input_body tokenized_command_length tokenized_command st with
        | Continue st' => reaches n' tokenized_command_length tokenized_command st'
        | _ => None
        end
      else None
  end.

(** The parser examines the token at index [i] as a token of its own (it is
    not swallowed as the filename of a redirection, and no earlier token made
    the parser return). *)
Definition examines (tokenized_command : list string) (j : job_t) (i : Z) : Prop :=
  exists n st,
    reaches n (Z.of_nat (length tokenized_command)) tokenized_command
      (process_input_start j) = Some st /\ ind st = i.

(** How many process specs a job carries. *)
Definition process_count (j : job_t) : nat :=
  (match first_process j with Some _ => 1 | None => 0 end) +
  (match second_process j with Some _ => 1 | None => 0 end).

(** What the loop maintains about the two process slots of the job, for a
    job that entered with both slots empty. *)
Definition slots_inv (tokenized_command : list string) (st : parse_state) : Prop :=
  second_process (job st) = None /\
  (creating_second_process st = true ->
   is_Some (first_process (job st)) /\ In PIPE tokenized_command).

End Parser.


(** ** The job table *)

Module Jobs.

(** <sys/wait.h> and <signal.h> as on Linux: a stop is reported with 0x7f in
    the low byte and the stopping signal in the next byte. *)
Definition WIFSTOPPED (status : Z) : bool := Z.land status 255 =? 127.
Definition WSTOPSIG (status : Z) : Z := Z.shiftr (Z.land status 65280) 8.
Definition SIGCONT : Z := 18.
Definition SIGSTOP : Z := 19.
Definition SIGTSTP : Z := 20.
Definition STDIN_FILENO : Z := 0.

(** The globals of the shell process and what it has done to the outside:
    - [heap]: the allocated [job_t] objects;
    - [job_list_head], [shell_pid]: the two global variables;
    - [tty_pgrp]: the process group last named in [tcsetpgrp(STDIN_FILENO, _)];
    - [stdout]: everything printed so far;
    - [signals]: the [kill(pid, sig)] calls made so far, oldest first. *)
Record shell : Type := mk_shell {
  heap : gmap ptr job_t;
  job_list_head : option ptr;
  shell_pid : Z;
  tty_pgrp : Z;
  stdout : string;
  signals : list (Z * Z)
}.

Definition with_heap (h : gmap ptr job_t) (s : shell) : shell :=
  {| heap := h; job_list_head := job_list_head s; shell_pid := shell_pid s;
     tty_pgrp := tty_pgrp s; stdout := stdout s; signals := signals s |}.
Definition with_head (p : option ptr) (s : shell) : shell :=
  {| heap := heap s; job_list_head := p; shell_pid := shell_pid s;
     tty_pgrp := tty_pgrp s; stdout := stdout s; signals := signals s |}.
Definition tcsetpgrp (pg : Z) (s : shell) : shell :=
  {| heap := heap s; job_list_head := job_list_head s; shell_pid := shell_pid s;
     tty_pgrp := pg; stdout := stdout s; signals := signals s |}.
Definition printf (text : string) (s : shell) : shell :=
  {| heap := heap s; job_list_head := job_list_head s; shell_pid := shell_pid s;
     tty_pgrp := tty_pgrp s; stdout := stdout s +:+ text; signals := signals s |}.
Definition record_kill (pid sig : Z) (s : shell) : shell :=
  {| heap := heap s; job_list_head := job_list_head s; shell_pid := shell_pid s;
     tty_pgrp := tty_pgrp s; stdout := stdout s;
     signals := signals s ++ [(pid, sig)] |}.

(** [job->field = v] through a pointer that must point to a live job. *)
Definition load (a : ptr) (s : shell) : exec job_t := deref (heap s !! a).
Definition store (a : ptr) (f : job_t -> job_t) (s : shell) : exec shell :=
  j ← load a s; Ret (with_heap (<[a := f j]> (heap s)) s).

(** No chain of live nodes without a repetition is longer than the heap, so
    a loop over the chain that is still running after this many turns runs
    forever. *)
Definition chain_fuel (s : shell) : nat := S (size (heap s)).

(** [free_job]: reads the job's fields, then releases everything it owns. *)
Definition free_job (a : ptr) (s : shell) : exec shell :=
  _ ← load a s; Ret (with_heap (delete a (heap s)) s).

Fixpoint add_job_loop (fuel : nat) (s : shell) (curr : option ptr)
    (job : ptr) : exec shell :=
  match fuel with
  | O => Diverge
  | S fuel' =>
      match curr with
      | None => Ret s
      | Some c =>
          cj ← load c s;
          match next cj with
          | None => store c (set_next (Some job)) s
          | Some _ => add_job_loop fuel' s (next cj) job
          end
      end
  end.

Definition add_job (job : ptr) (s : shell) : exec shell :=
  match job_list_head s with
  | None => Ret (with_head (Some job) s)
  | Some _ => add_job_loop (chain_fuel s) s (job_list_head s) job
  end.

Fixpoint remove_done_jobs_loop (fuel : nat) (s : shell)
    (prev curr : option ptr) : exec shell :=
  match fuel with
  | O => Diverge
  | S fuel' =>
      match curr with
      | None => Ret s
      | Some c =>
          cj ← load c s;
          let temp := next cj in
          if bool_decide (status cj = DONE) then
            match prev with
            | None =>
                s1 ← free_job c (with_head temp s);
                remove_done_jobs_loop fuel' s1 prev temp
            | Some p =>
                s1 ← store p (set_next temp) s;
                s2 ← free_job c s1;
                remove_done_jobs_loop fuel' s2 prev temp
            end
          else remove_done_jobs_loop fuel' s (Some c) temp
      end
  end.

Definition remove_done_jobs (s : shell) : exec shell :=
  remove_done_jobs_loop (chain_fuel s) s None (job_list_head s).

Fixpoint remove_job_loop (fuel : nat) (s : shell) (prev curr : option ptr)
    (pg : Z) (fg_free : bool) : exec (shell * Z) :=
  match fuel with
  | O => Diverge
  | S fuel' =>
      match curr with
      | None => Ret (s, 0)
      | Some c =>
          cj ← load c s;
          if bool_decide (pgid cj = pg) then
            s1 ← match prev with
                 | None => Ret (with_head (next cj) s)
                 | Some p => store p (set_next (next cj)) s
                 end;
            s2 ← (if fg_free then free_job c s1 else Ret s1);
            Ret (s2, 1)
          else remove_job_loop fuel' s (Some c) (next cj) pg fg_free
      end
  end.

Definition remove_job (pg : Z) (fg_free : bool) (s : shell) : exec (shell * Z) :=
  remove_job_loop (chain_fuel s) s None (job_list_head s) pg fg_free.

Fixpoint find_job_loop (fuel : nat) (s : shell) (curr : option ptr)
    (pg : Z) : exec (option ptr) :=
  match fuel with
  | O => Diverge
  | S fuel' =>
      match curr with
      | None => Ret None
      | Some c =>
          cj ← load c s;
          if bool_decide (pgid cj = pg) then Ret (Some c)
          else find_job_loop fuel' s (next cj) pg
      end
  end.

Definition find_job (pg : Z) (s : shell) : exec (option ptr) :=
  find_job_loop (chain_fuel s) s (job_list_head s) pg.

Fixpoint find_most_recent_job_num_loop (fuel : nat) (s : shell)
    (curr : option ptr) (recent_job_num : Z) : exec Z :=
  match fuel with
  | O => Diverge
  | S fuel' =>
      match curr with
      | None => Ret recent_job_num
      | Some c =>
          cj ← load c s;
          find_most_recent_job_num_loop fuel' s (next cj)
            (if (recent_job_num <? job_number cj) && background cj
             then job_number cj else recent_job_num)
      end
  end.

Definition find_most_recent_job_num (s : shell) : exec Z :=
  find_most_recent_job_num_loop (chain_fuel s) s (job_list_head s) 0.

Fixpoint find_next_job_to_bg_loop (fuel : nat) (s : shell)
    (curr job_to_continue : option ptr) : exec (option ptr) :=
  match fuel with
  | O => Diverge
  | S fuel' =>
      match curr with
      | None => Ret job_to_continue
      | Some c =>
          cj ← load c s;
          find_next_job_to_bg_loop fuel' s (next cj)
            (if background cj && bool_decide (status cj = STOPPED)
             then Some c else job_to_continue)
      end
  end.

Definition find_next_job_to_bg (s : shell) : exec (option ptr) :=
  find_next_job_to_bg_loop (chain_fuel s) s (job_list_head s) None.

Fixpoint find_next_job_to_fg_loop (fuel : nat) (s : shell)
    (curr job_to_continue : option ptr) : exec (option ptr) :=
  match fuel with
  | O => Diverge
  | S fuel' =>
      match curr with
      | None => Ret job_to_continue
      | Some c =>
          cj ← load c s;
          find_next_job_to_fg_loop fuel' s (next cj)
            (if bool_decide (status cj ≠ DONE)
             then Some c else job_to_continue)
      end
  end.

Definition find_next_job_to_fg (s : shell) : exec (option ptr) :=
  find_next_job_to_fg_loop (chain_fuel s) s (job_list_head s) None.

Fixpoint free_job_table_loop (fuel : nat) (s : shell)
    (curr : option ptr) : exec shell :=
  match fuel with
  | O => Diverge
  | S fuel' =>
      match curr with
      | None => Ret s
      | Some c =>
          cj ← load c s;
          s1 ← free_job c s;
          free_job_table_loop fuel' s1 (next cj)
      end
  end.

Definition free_job_table (s : shell) : exec shell :=
  free_job_table_loop (chain_fuel s) s (job_list_head s).

(** *** The job list as a sequence

    [chain h p l]: following [next] from [p] through the live nodes of [h]
    visits exactly the addresses [l], in order, and then meets NULL. *)
Fixpoint chain (h : gmap ptr job_t) (p : option ptr) (l : list ptr) : Prop :=
  match l with
  | [] => p = None
  | a :: l' => p = Some a /\ exists j, h !! a = Some j /\ chain h (next j) l'
  end.

(** [segment h p path q]: following [next] from [p] visits the addresses
    [path] and arrives at [q] (which need not be NULL). *)
Fixpoint segment (h : gmap ptr job_t) (p : option ptr) (path : list ptr)
    (q : option ptr) : Prop :=
  match path with
  | [] => p = q
  | a :: path' =>
      p = Some a /\ exists j, h !! a = Some j /\ segment h (next j) path' q
  end.

(** The job table of [s] holds the jobs at [l], oldest first. *)
Definition table (s : shell) (l : list ptr) : Prop :=
  chain (heap s) (job_list_head s) l.

(** A job that still carries the foreground job number is the newest job of
    the table: it was appended by [execute_job], and no job has been started
    since. *)
Definition foreground_job_is_newest (s : shell) (l : list ptr) : Prop :=
  forall l1 a l2 j,
    l = l1 ++ a :: l2 ->
    heap s !! a = Some j ->
    job_number j = FG_JOB_NUM ->
    l2 = [].

Definition well_formed (s : shell) (l : list ptr) : Prop :=
  table s l /\ foreground_job_is_newest s l.

Definition not_done (s : shell) (a : ptr) : bool :=
  match heap s !! a with
  | Some j => bool_decide (status j ≠ DONE)
  | None => false
  end.

(** The last (most recently inserted) job of the table that is not Done. *)
Definition last_not_done (s : shell) (l : list ptr) : option ptr :=
  last (List.filter (not_done s) l).

Definition has_pgid (s : shell) (pg : Z) (a : ptr) : bool :=
  match heap s !! a with
  | Some j => bool_decide (pgid j = pg)
  | None => false
  end.

(** The largest job number among the background jobs at [l], or 0. *)
Definition max_background_number (s : shell) (l : list ptr) : Z :=
  fold_left (fun acc a =>
               match heap s !! a with
               | Some j => if (acc <? job_number j) && background j
                           then job_number j else acc
               | None => acc
               end) l 0.

End Jobs.

(** ** Status reconciliation, built-ins and the prompt loop *)

Module Shell.
Import Jobs.

Definition tab : string := String (ascii_of_nat 9) EmptyString.
Definition lf : string := String (ascii_of_nat 10) EmptyString.

(** [printf("%d", n)] *)
Definition string_of_int (n : Z) : string :=
  NilZero.string_of_int (Z.to_int n).

(** [command[i]] for a buffer holding [command] and its terminating NUL;
    an index before the start or past the NUL is outside the object. *)
Definition char_at (command : string) (i : Z) : exec ascii :=
  if i <? 0 then Fault
  else match String.get (Z.to_nat i) command with
       | Some c => Ret c
       | None =>
           if i =? Z.of_nat (String.length command) then Ret zero else Fault
       end.

(** [job->command[len - 1] == '&' && job->command[len - 2] == ' '], the
    second read only when the first comparison holds. *)
Definition has_bg_suffix (command : string) (len : Z) : exec bool :=
  c1 ← char_at command (len - 1);
  if bool_decide (c1 = "&"%char)
  then c2 ← char_at command (len - 2); Ret (bool_decide (c2 = " "%char))
  else Ret false.

(** The string a [char] array holds for a function that expects a C
    string: the bytes before the first NUL.  An array that holds no NUL is
    read past its end. *)
Fixpoint c_string (bytes : list ascii) : exec string :=
  match bytes with
  | [] => Fault
  | c :: rest =>
      if bool_decide (c = zero) then Ret ""
      else tail ← c_string rest; Ret (String c tail)
  end.

(** [char bg_suffix[2] = " &"]: two bytes, and no room for a terminator. *)
Definition bg_suffix : list ascii := [" "%char; "&"%char].

Section Environment.

(** [kill(pid, sig)]: what the system call returns. *)
Variable sys_kill : Z -> Z -> Z.

Definition update_job_command_str (job : ptr) (apply_bg : bool) (s : shell)
    : exec shell :=
  j ← load job s;
  let len := Z.of_nat (String.length (command j)) in
  if apply_bg then
    suffixed ← has_bg_suffix (command j) len;
    if (suffixed : bool) then Ret s
    else
      (* [strcat(updated_command, bg_suffix)] *)
      suffix ← c_string bg_suffix;
      let updated_command := command j +:+ suffix in
      (* the buffer is [len + 3] bytes and must hold the terminator too *)
      if Z.of_nat (String.length updated_command) + 1 <=? len + 3
      then store job (set_command updated_command) s
      else Fault
  else
    suffixed ← has_bg_suffix (command j) len;
    if negb (suffixed : bool) then Ret s
    else store job (set_command (substring 0 (Z.to_nat (len - 2)) (command j))) s.

Definition status_name (st : job_status) : string :=
  match st with
  | RUNNING => "Running"
  | STOPPED => "Stopped"
  | DONE => "Done"
  end.

Definition print_job (job : ptr) (is_most_recent_job custom_command
    command_is_fg : bool) (s : shell) : exec shell :=
  j ← load job s;
  if custom_command && command_is_fg then
    Ret (printf (command j +:+ lf) s)
  else if is_most_recent_job && custom_command && negb command_is_fg then
    Ret (printf ("[" +:+ string_of_int (job_number j) +:+ "]+" +:+ tab
                 +:+ command j +:+ lf) s)
  else if negb is_most_recent_job && custom_command && negb command_is_fg then
    Ret (printf ("[" +:+ string_of_int (job_number j) +:+ "]-" +:+ tab
                 +:+ command j +:+ lf) s)
  else if is_most_recent_job && negb custom_command then
    Ret (printf ("[" +:+ string_of_int (job_number j) +:+ "]+" +:+ tab
                 +:+ status_name (status j) +:+ tab +:+ tab +:+ tab
                 +:+ command j +:+ lf) s)
  else if negb is_most_recent_job && negb custom_command then
    Ret (printf ("[" +:+ string_of_int (job_number j) +:+ "]-" +:+ tab
                 +:+ status_name (status j) +:+ tab +:+ tab +:+ tab
                 +:+ command j +:+ lf) s)
  else Ret s.

Fixpoint print_job_table_loop (fuel : nat) (s : shell) (curr : option ptr)
    (most_recent_job_num : Z)
    (print_running_jobs print_stopped_jobs print_done_jobs : bool)
    : exec shell :=
  match fuel with
  | O => Diverge
  | S fuel' =>
      match curr with
      | None => Ret s
      | Some c =>
          cj ← load c s;
          let is_most_recent_job :=
            bool_decide (most_recent_job_num = job_number cj) in
          s1 ← (if bool_decide (status cj = RUNNING) && print_running_jobs
                   && background cj
                then print_job c is_most_recent_job false false s
                else if bool_decide (status cj = STOPPED) && print_stopped_jobs
                        && background cj
                then print_job c is_most_recent_job false false s
                else if bool_decide (status cj = DONE) && print_done_jobs
                        && background cj
                then print_job c is_most_recent_job false false s
                else Ret s);
          print_job_table_loop fuel' s1 (next cj) most_recent_job_num
            print_running_jobs print_stopped_jobs print_done_jobs
      end
  end.

Definition print_job_table
    (print_running_jobs print_stopped_jobs print_done_jobs : bool)
    (s : shell) : exec shell :=
  most_recent_job_num ← find_most_recent_job_num s;
  if most_recent_job_num =? 0 then Ret s
  else print_job_table_loop (chain_fuel s) s (job_list_head s)
         most_recent_job_num
         print_running_jobs print_stopped_jobs print_done_jobs.

(** [update_job_status]: the second component is the C return value. *)
Definition update_job_status (status_word pid : Z) (s : shell)
    : exec (shell * Z) :=
  if pid <=? 0 then Ret (s, 0)
  else
    found ← find_job pid s;
    match found with
    | None => Ret (s, 1)
    | Some job =>
        if WIFSTOPPED status_word then
          s1 ← store job (set_status STOPPED) s;
          if (WSTOPSIG status_word =? SIGTSTP) || (WSTOPSIG status_word =? SIGSTOP)
          then
            s2 ← store job (set_background true) s1;
            j ← load job s2;
            if job_number j =? FG_JOB_NUM then
              '(s3, _) ← remove_job pid false s2;
              n ← find_most_recent_job_num s3;
              s4 ← store job (set_job_number (int_wrap (n + 1))) s3;
              s5 ← add_job job s4;
              Ret (s5, 1)
            else Ret (s2, 1)
          else Ret (s1, 1)
        else
          s1 ← store job (set_status DONE) s;
          Ret (s1, 1)
    end.

(** What reconciling does to the matched job, in the words of the
    specification: a stop marks it Stopped; a stop by SIGTSTP or SIGSTOP also
    marks it background and, when it still carries the foreground job number,
    gives it the number after the largest background number among the other
    jobs; anything else marks it Done. *)
Definition reconciled (status_word : Z) (others_max : Z) (j : job_t) : job_t :=
  if WIFSTOPPED status_word then
    if (WSTOPSIG status_word =? SIGTSTP) || (WSTOPSIG status_word =? SIGSTOP)
    then
      if job_number j =? FG_JOB_NUM
      then set_job_number (int_wrap (others_max + 1))
             (set_background true (set_status STOPPED j))
      else set_background true (set_status STOPPED j)
    else set_status STOPPED j
  else set_status DONE j.

(** [waitpid(-1, &status, ...)]: [children] lists, in order, the
    [(pid, status)] pairs the coming calls report; a call past the end of the
    list reports nothing ([pid <= 0]), which [update_job_status] answers with
    0, ending the loop. *)
Fixpoint update_job_table_statuses (children : list (Z * Z)) (s : shell)
    : exec (shell * list (Z * Z)) :=
  match children with
  | [] => Ret (s, [])
  | (pid, status_word) :: rest =>
      '(s1, progress) ← update_job_status status_word pid s;
      if progress =? 0 then Ret (s1, rest)
      else update_job_table_statuses rest s1
  end.

Fixpoint execute_in_foreground_loop (children : list (Z * Z)) (job : ptr)
    (s : shell) : exec (shell * list (Z * Z)) :=
  match children with
  | [] => Ret (s, [])
  | (pid, status_word) :: rest =>
      '(s1, progress) ← update_job_status status_word pid s;
      if progress =? 0 then Ret (s1, rest)
      else
        j ← load job s1;
        if bool_decide (status j = RUNNING)
        then execute_in_foreground_loop rest job s1
        else Ret (s1, rest)
  end.

Definition execute_in_foreground (children : list (Z * Z)) (job : ptr)
    (s : shell) : exec (shell * list (Z * Z)) :=
  j ← load job s;
  '(s1, rest) ← execute_in_foreground_loop children job
                   (tcsetpgrp (pgid j) s);
  Ret (tcsetpgrp (shell_pid s1) s1, rest).

Definition continue_background_job (children : list (Z * Z)) (job : ptr)
    (fg : bool) (s : shell) : exec (shell * list (Z * Z)) :=
  j ← load job s;
  let kill_signal_sent_status := sys_kill (- pgid j) SIGCONT in
  let s1 := record_kill (- pgid j) SIGCONT s in
  if kill_signal_sent_status <? 0 then
    s2 ← store job (set_status STOPPED) s1; Ret (s2, children)
  else if fg then execute_in_foreground children job s1
  else Ret (s1, children).

Definition execute_bg (children : list (Z * Z)) (s : shell)
    : exec (shell * list (Z * Z)) :=
  '(s1, rest) ← update_job_table_statuses children s;
  found ← find_next_job_to_bg s1;
  match found with
  | None => Ret (s1, rest)
  | Some bg_job =>
      s2 ← update_job_command_str bg_job true s1;
      most_recent_job_num ← find_most_recent_job_num s2;
      j ← load bg_job s2;
      let is_most_recent_job :=
        bool_decide (most_recent_job_num = job_number j) in
      s3 ← store bg_job (set_status RUNNING) s2;
      s4 ← print_job bg_job is_most_recent_job true false s3;
      s5 ← store bg_job (set_background true) s4;
      continue_background_job rest bg_job false s5
  end.

Definition execute_fg (children : list (Z * Z)) (s : shell)
    : exec (shell * list (Z * Z)) :=
  '(s1, rest) ← update_job_table_statuses children s;
  found ← find_next_job_to_fg s1;
  match found with
  | None => Ret (s1, rest)
  | Some fg_job =>
      s2 ← update_job_command_str fg_job false s1;
      most_recent_job_num ← find_most_recent_job_num s2;
      j ← load fg_job s2;
      let is_most_recent_job :=
        bool_decide (most_recent_job_num = job_number j) in
      s3 ← store fg_job (set_status RUNNING) s2;
      s4 ← print_job fg_job is_most_recent_job true true s3;
      s5 ← store fg_job (set_background false) s4;
      continue_background_job rest fg_job true s5
  end.

Definition execute_jobs (children : list (Z * Z)) (s : shell)
    : exec (shell * list (Z * Z)) :=
  '(s1, rest) ← update_job_table_statuses children s;
  s2 ← print_job_table false false true s1;
  s3 ← remove_done_jobs s2;
  s4 ← print_job_table true true false s3;
  Ret (s4, rest).

(** [execute_custom_commands]: [None] stands for the return value 0. *)
Definition execute_custom_commands (command : string)
    (children : list (Z * Z)) (s : shell)
    : exec (option (shell * list (Z * Z))) :=
  if String.eqb command FOREGROUND then
    r ← execute_fg children s; Ret (Some r)
  else if String.eqb command BACKGROUND then
    r ← execute_bg children s; Ret (Some r)
  else if String.eqb command JOBS then
    r ← execute_jobs children s; Ret (Some r)
  else Ret None.

(** Where a prompt iteration ends: back at the top of [while (1)], or in
    [exit(code)]. *)
Inductive control : Type :=
| Loop (s : shell) (children : list (Z * Z))
| Exit (code : Z) (s : shell).

(** [execute_job] as the shell process sees it: [fork_result] is what
    [fork()] returns in the parent ([execute_process] and
    [execute_pipe_process] both leave with [exit(EXIT_FAILURE)] when it is
    negative, and return it otherwise). *)
Definition execute_job (fork_result : Z) (children : list (Z * Z))
    (job : ptr) (s : shell) : exec control :=
  if fork_result <? 0 then Ret (Exit EXIT_FAILURE s)
  else
    s1 ← store job (set_pgid fork_result) s;
    s2 ← store job (set_status RUNNING) s1;
    j ← load job s2;
    s3 ← (if background j
          then n ← find_most_recent_job_num s2;
               store job (set_job_number (int_wrap (n + 1))) s2
          else store job (set_job_number FG_JOB_NUM) s2);
    s4 ← add_job job s3;
    if negb (background j)
    then '(s5, rest) ← execute_in_foreground children job s4;
         Ret (Loop s5 rest)
    else Ret (Loop s4 children).

(** One turn of [while (1)] in [main].  [line] is what [readline] returns
    ([None] for NULL, that is end of input). *)
Definition main_iteration (line : option string) (fork_result : Z)
    (children : list (Z * Z)) (s : shell) : exec control :=
  '(s1, children1) ← update_job_table_statuses children s;
  match line with
  | None =>
      s2 ← free_job_table s1;
      Ret (Exit EXIT_SUCCESS s2)
  | Some command =>
      '(tokenized_command, tokenized_command_length) ←
        Parser.parse_command command;
      if tokenized_command_length =? 0 then
        s2 ← print_job_table false false true s1;
        s3 ← remove_done_jobs s2;
        Ret (Loop s3 children1)
      else
        custom ← execute_custom_commands command children1 s1;
        match custom with
        | Some (s2, children2) =>
            s3 ← print_job_table false false true s2;
            s4 ← remove_done_jobs s3;
            Ret (Loop s4 children2)
        | None =>
            let job := fresh (dom (heap s1)) in
            let s2 := with_heap (<[job := zero_job command]> (heap s1)) s1 in
            o ← Parser.process_input tokenized_command_length
                  tokenized_command (zero_job command);
            let s3 := printf (Parser.printed o)
                        (with_heap (<[job := Parser.parsed_job o]> (heap s2)) s2) in
            if Parser.ret o =? COMMAND_PROCESSING_ERROR then
              s4 ← free_job job s3;
              s5 ← print_job_table false false true s4;
              s6 ← remove_done_jobs s5;
              Ret (Loop s6 children1)
            else
              launched ← execute_job fork_result children1 job s3;
              match launched with
              | Exit code s4 => Ret (Exit code s4)
              | Loop s4 children2 =>
                  '(s5, children3) ← update_job_table_statuses children2 s4;
                  s6 ← print_job_table false false true s5;
                  s7 ← remove_done_jobs s6;
                  Ret (Loop s7 children3)
              end
        end
  end.

(** [main] up to the loop, given the shell's process id, the process group
    that holds the terminal when the shell starts and the result of
    [setpgid(0, 0)]: a failed [setpgid] ends in [exit(1)]; otherwise the job
    list is empty and the terminal is given to the shell. *)
Definition main_start (pid tty setpgid_result : Z) : control :=
  let s := {| heap := ∅; job_list_head := None; shell_pid := pid;
              tty_pgrp := tty; stdout := ""; signals := [] |} in
  if setpgid_result <? 0 then Exit 1 s else Loop (tcsetpgrp pid s) [].

(** The prompt loop over a script: every turn comes with what [readline]
    returns, what [fork] returns if the turn forks, and what the [waitpid]
    calls of the turn report. *)
Fixpoint main_loop (turns : list (option string * Z * list (Z * Z)))
    (s : shell) : exec control :=
  match turns with
  | [] => Ret (Loop s [])
  | (line, fork_result, children) :: turns' =>
      c ← main_iteration line fork_result children s;
      match c with
      | Loop s' _ => main_loop turns' s'
      | Exit code s' => Ret (Exit code s')
      end
  end.

Definition main (pid tty setpgid_result : Z)
    (turns : list (option string * Z * list (Z * Z))) : exec control :=
  match main_start pid tty setpgid_result with
  | Loop s _ => main_loop turns s
  | Exit code s => Ret (Exit code s)
  end.

(** What a run has printed, when it is still at the prompt. *)
Definition printed_at_prompt (c : exec control) : option string :=
  match c with
  | Ret (Loop s _) => Some (stdout s)
  | _ => None
  end.

End Environment.

End Shell.

(** ** File redirections in a child process *)

Module Redirect.

(** <fcntl.h>, <sys/stat.h>, <unistd.h> and <errno.h> as on Linux. *)
Definition O_RDONLY : Z := 0.
Definition O_WRONLY : Z := 1.
Definition O_CREAT : Z := 64.
Definition O_TRUNC : Z := 512.
Definition S_IRUSR : Z := 256.
Definition S_IWUSR : Z := 128.
Definition S_IRGRP : Z := 32.
Definition S_IWGRP : Z := 16.
Definition S_IROTH : Z := 4.
Definition STDIN_FILENO : Z := 0.
Definition STDOUT_FILENO : Z := 1.
Definition STDERR_FILENO : Z := 2.
Definition ENOENT : Z := 2.
Definition EBADF : Z := 9.

(** What a descriptor refers to: something the child inherited, or a file
    this process opened itself. *)
Inductive file : Type :=
| Inherited (fd : Z)
| Opened (path : string) (flags : Z) (mode : option Z).

(** The calls a process makes, in program order, with their results. *)
Inductive call : Type :=
| call_open (path : string) (flags : Z) (mode : option Z) (result : Z)
| call_dup2 (oldfd newfd : Z) (result : Z)
| call_close (fd : Z) (result : Z)
| call_perror (s : string).

(** The part of a process that redirections touch:
    - [fds]: the descriptor table;
    - [errno];
    - [written]: what has been written, and to which file, oldest first;
    - [calls]: the calls made so far, oldest first. *)
Record proc : Type := mk_proc {
  fds : gmap Z file;
  errno : Z;
  written : list (file * string);
  calls : list call
}.

(** A child right after [fork]: the three standard descriptors are the
    inherited ones. *)
Definition fresh_child : proc :=
  {| fds := <[0 := Inherited 0]> (<[1 := Inherited 1]> (<[2 := Inherited 2]> ∅));
     errno := 0; written := []; calls := [] |}.

Definition lf : string := String (ascii_of_nat 10) EmptyString.

Section System.

(** [open(path, flags, ...)] fails with the given [errno], or succeeds. *)
Variable open_errno : string -> Z -> option Z.

(** [strerror]: the text the C library has for an [errno] value. *)
Variable strerror : Z -> string.

(** The lowest descriptor that is not open. *)
Definition lowest_free_fd (t : gmap Z file) : Z :=
  default (Z.of_nat (size t))
    (List.find (fun n => bool_decide (t !! n = None))
       (seqZ 0 (Z.of_nat (size t)))).

Definition sys_open (path : string) (flags : Z) (mode : option Z) (p : proc)
    : Z * proc :=
  match open_errno path flags with
  | Some e =>
      (-1, {| fds := fds p; errno := e; written := written p;
              calls := calls p ++ [call_open path flags mode (-1)] |})
  | None =>
      let fd := lowest_free_fd (fds p) in
      (fd, {| fds := <[fd := Opened path flags mode]> (fds p);
              errno := errno p; written := written p;
              calls := calls p ++ [call_open path flags mode fd] |})
  end.

Definition sys_dup2 (oldfd newfd : Z) (p : proc) : proc :=
  match fds p !! oldfd with
  | None =>
      {| fds := fds p; errno := EBADF; written := written p;
         calls := calls p ++ [call_dup2 oldfd newfd (-1)] |}
  | Some f =>
      {| fds := <[newfd := f]> (fds p); errno := errno p;
         written := written p;
         calls := calls p ++ [call_dup2 oldfd newfd newfd] |}
  end.

Definition sys_close (fd : Z) (p : proc) : proc :=
  match fds p !! fd with
  | None =>
      {| fds := fds p; errno := EBADF; written := written p;
         calls := calls p ++ [call_close fd (-1)] |}
  | Some _ =>
      {| fds := delete fd (fds p); errno := errno p; written := written p;
         calls := calls p ++ [call_close fd 0] |}
  end.

(** [perror(s)]: [s], a colon, a blank, the text for [errno] and a newline,
    on the standard error stream. *)
Definition perror (s : string) (p : proc) : proc :=
  let line := s +:+ ": " +:+ strerror (errno p) +:+ lf in
  {| fds := fds p; errno := errno p;
     written := match fds p !! STDERR_FILENO with
                | Some f => written p ++ [(f, line)]
                | None => written p
                end;
     calls := calls p ++ [call_perror s] |}.

Definition print_file_redirection_error_str (filename : string) (p : proc)
    : proc :=
  let error_str := "-yash: " +:+ filename +:+ ": No such file or directory" in
  perror error_str p.

Definition nuke_all_file_descriptors (p : proc) : proc :=
  sys_dup2 STDERR_FILENO STDIN_FILENO
    (sys_dup2 STDOUT_FILENO STDIN_FILENO
       (sys_dup2 STDIN_FILENO STDIN_FILENO p)).

Definition creat_flags : Z := Z.lor (Z.lor O_CREAT O_WRONLY) O_TRUNC.
Definition creat_mode : Z :=
  Z.lor (Z.lor (Z.lor (Z.lor S_IRUSR S_IWUSR) S_IRGRP) S_IWGRP) S_IROTH.

(** One [if (process->redirect_..._filename != NULL) { ... }] block; the
    first component is the local [status] afterwards. *)
Definition redirect_block (filename : option string) (flags : Z)
    (mode : option Z) (target : Z) (st : Z * proc) : Z * proc :=
  match filename with
  | None => st
  | Some name =>
      let '(fd, p1) := sys_open name flags mode (snd st) in
      let st1 :=
        if fd <? 0
        then (-1, print_file_redirection_error_str name p1)
        else (fst st, p1) in
      (fst st1, sys_close fd (sys_dup2 fd target (snd st1)))
  end.

Definition apply_file_redirects (process : process_t) (p : proc) : Z * proc :=
  let st0 := (0, p) in
  let st1 := redirect_block (redirect_error_filename process)
               creat_flags (Some creat_mode) STDERR_FILENO st0 in
  let st2 := redirect_block (redirect_input_filename process)
               O_RDONLY None STDIN_FILENO st1 in
  let st3 := redirect_block (redirect_output_filename process)
               creat_flags (Some creat_mode) STDOUT_FILENO st2 in
  if fst st3 =? -1
  then (FILE_REDIRECTION_ERROR, nuke_all_file_descriptors (snd st3))
  else (SUCCESS, snd st3).

(** The [open] calls among a list of calls, as (path, flags, mode). *)
Definition opens (cs : list call) : list (string * Z * option Z) :=
  omap (fun c => match c with
                 | call_open path flags mode _ => Some (path, flags, mode)
                 | _ => None
                 end) cs.

(** The [open] and [dup2] calls among a list of calls, in order: an opened
    (path, flags, mode) on the left, a rewired descriptor on the right. *)
Definition plumbing (cs : list call) : list (string * Z * option Z + Z) :=
  omap (fun c => match c with
                 | call_open path flags mode _ => Some (inl (path, flags, mode))
                 | call_dup2 _ newfd _ => Some (inr newfd)
                 | _ => None
                 end) cs.

(** The strings handed to [perror]. *)
Definition diagnostics (cs : list call) : list string :=
  omap (fun c => match c with
                 | call_perror s => Some s
                 | _ => None
                 end) cs.

(** The redirections a process spec asks for, in the order error, input,
    output: filename, [open] flags, [open] mode and the standard descriptor
    to rewire. *)
Definition requested (process : process_t)
    : list (string * Z * option Z * Z) :=
  match redirect_error_filename process with
  | Some f => [(f, creat_flags, Some creat_mode, STDERR_FILENO)]
  | None => []
  end ++
  match redirect_input_filename process with
  | Some f => [(f, O_RDONLY, None, STDIN_FILENO)]
  | None => []
  end ++
  match redirect_output_filename process with
  | Some f => [(f, creat_flags, Some creat_mode, STDOUT_FILENO)]
  | None => []
  end.

Definition open_fails (r : string * Z * option Z * Z) : bool :=
  match r with
  | (f, flags, _, _) =>
      match open_errno f flags with Some _ => true | None => false end
  end.

Definition diagnostic_for (r : string * Z * option Z * Z) : string :=
  match r with
  | (f, _, _, _) => "-yash: " +:+ f +:+ ": No such file or directory"
  end.

End System.

End Redirect.


(** ** Concrete environments and inputs used in the examples below *)

Module Examples.

(** A file system in which only the path [missing] cannot be opened: it
    does not exist. *)
Definition missing_fs (path : string) (flags : Z) : option Z :=
  if String.eqb path "missing" then Some Redirect.ENOENT else None.

(** [strerror] of the GNU C library, for the values used here. *)
Definition linux_strerror (e : Z) : string :=
  if e =? 2 then "No such file or directory"
  else if e =? 9 then "Bad file descriptor"
  else if e =? 13 then "Permission denied"
  else "Unknown error " +:+ Shell.string_of_int e.

(** [cat < missing] *)
Definition cat_from_missing : process_t :=
  set_redirect_input "missing" (set_argv 0 "cat" zero_process).

(** [cat < missing > out 2> err] *)
Definition cat_all_redirected : process_t :=
  set_redirect_error "err"
    (set_redirect_output "out"
       (set_redirect_input "missing" (set_argv 0 "cat" zero_process))).

(** A shell with one background job, [sleep 30 &], in process group 100. *)
Definition sleep_job : job_t :=
  {| pgid := 100; command := "sleep 30 &"; job_number := 1;
     background := true; status := RUNNING;
     first_process := Some (set_argv 1 "30" (set_argv 0 "sleep" zero_process));
     second_process := None; next := None |}.

Definition one_job_shell : Jobs.shell :=
  {| Jobs.heap := {[ 1%positive := sleep_job ]};
     Jobs.job_list_head := Some 1%positive;
     Jobs.shell_pid := 50; Jobs.tty_pgrp := 50;
     Jobs.stdout := ""; Jobs.signals := [] |}.

(** The same shell when the job has finished and been reconciled. *)
Definition one_done_job_shell : Jobs.shell :=
  {| Jobs.heap := {[ 1%positive := set_status DONE sleep_job ]};
     Jobs.job_list_head := Some 1%positive;
     Jobs.shell_pid := 50; Jobs.tty_pgrp := 50;
     Jobs.stdout := ""; Jobs.signals := [] |}.

(** A shell with one foreground job, [sleep 30], whose command has no
    background suffix. *)
Definition foreground_sleep_shell : Jobs.shell :=
  {| Jobs.heap :=
       {[ 1%positive :=
            set_background false
              (set_job_number FG_JOB_NUM (set_command "sleep 30" sleep_job)) ]};
     Jobs.job_list_head := Some 1%positive;
     Jobs.shell_pid := 50; Jobs.tty_pgrp := 100;
     Jobs.stdout := ""; Jobs.signals := [] |}.

(** A job table in which the job with the foreground number is not the
    newest one.  [cat | cat] (process group 10) was started in the
    foreground and stopped by a signal other than SIGTSTP and SIGSTOP, so it
    kept the foreground number; [sleep 2 &] (process group 20) was started
    after it and has finished; [fg] has then resumed [cat | cat], which is
    running in the foreground again. *)
Definition resumed_pipeline : job_t :=
  {| pgid := 10; command := "cat | cat"; job_number := FG_JOB_NUM;
     background := false; status := RUNNING;
     first_process := Some (set_argv 0 "cat" zero_process);
     second_process := Some (set_argv 0 "cat" zero_process);
     next := Some 2%positive |}.

Definition finished_sleep : job_t :=
  {| pgid := 20; command := "sleep 2 &"; job_number := 1;
     background := true; status := DONE;
     first_process := Some (set_argv 1 "2" (set_argv 0 "sleep" zero_process));
     second_process := None; next := None |}.

Definition pipeline_then_sleep_shell : Jobs.shell :=
  {| Jobs.heap := <[ 1%positive := resumed_pipeline ]>
                    {[ 2%positive := finished_sleep ]};
     Jobs.job_list_head := Some 1%positive;
     Jobs.shell_pid := 50; Jobs.tty_pgrp := 10;
     Jobs.stdout := ""; Jobs.signals := [] |}.

(** What reconciling a stop by SIGTSTP of [cat | cat] leaves behind: the
    head is [sleep 2 &], whose [next] is [cat | cat], whose [next] is still
    [sleep 2 &]. *)
Definition cyclic_shell : Jobs.shell :=
  {| Jobs.heap :=
       <[ 1%positive :=
            set_job_number 2
              (set_background true (set_status STOPPED resumed_pipeline)) ]>
         {[ 2%positive := set_next (Some 1%positive) finished_sleep ]};
     Jobs.job_list_head := Some 2%positive;
     Jobs.shell_pid := 50; Jobs.tty_pgrp := 10;
     Jobs.stdout := ""; Jobs.signals := [] |}.

(** The status word [waitpid] gives for a child stopped by SIGTSTP. *)
Definition stopped_by_SIGTSTP : Z := Z.lor (Z.shiftl Jobs.SIGTSTP 8) 127.

(** The status word for a child that exited with status 0. *)
Definition exited_normally : Z := 0.

(** [kill] always succeeds. *)
Definition kill_succeeds (pid sig : Z) : Z := 0.

(** No child has anything to report (the [waitpid] of the drain returns 0). *)
Definition quiet : Z * Z := (0, 0).

(** Scripts for the prompt loop: the line typed, the pid [fork] returns, and
    the [waitpid] results of the turn. *)
Definition one_background_job_then_jobs
    : list (option string * Z * list (Z * Z)) :=
  [(Some "sleep 30 &", 100, []); (Some "jobs", 0, [])].

Definition two_background_jobs_then_jobs
    : list (option string * Z * list (Z * Z)) :=
  [(Some "sleep 30 &", 100, []); (Some "sleep 60 &", 101, []);
   (Some "jobs", 0, [])].

(** [sleep 30] in the foreground, Ctrl-Z, [bg], and then the job ends. *)
Definition stop_then_bg
    : list (option string * Z * list (Z * Z)) :=
  [(Some "sleep 30", 100, [quiet; (100, stopped_by_SIGTSTP)]);
   (Some "bg", 0, []);
   (Some "", 0, [(100, exited_normally)])].

(** The status word for a child stopped by SIGTTOU (22 on Linux). *)
Definition stopped_by_SIGTTOU : Z := Z.lor (Z.shiftl 22 8) 127.

(** [cat | cat] in the foreground is stopped by SIGTTOU; [sleep 2 &] is
    started and ends; [fg] resumes [cat | cat]; Ctrl-Z. *)
Definition ctrl_z_after_fg
    : list (option string * Z * list (Z * Z)) :=
  [(Some "cat | cat", 10, [quiet; (10, stopped_by_SIGTTOU)]);
   (Some "sleep 2 &", 20, []);
   (Some "fg", 0, [quiet; (20, exited_normally); quiet;
                   (10, stopped_by_SIGTSTP)])].

(** [ls] in the foreground, which ends, then [jobs], then end of input. *)
Definition ls_then_jobs_then_eof
    : list (option string * Z * list (Z * Z)) :=
  [(Some "ls", 100, [quiet; (100, exited_normally)]);
   (Some "jobs", 0, []);
   (None, 0, [])].

(** The status word for a child stopped by SIGTTIN (21 on Linux). *)
Definition stopped_by_SIGTTIN : Z := Z.lor (Z.shiftl 21 8) 127.

(** [sleep 30] was started in the foreground and stopped by Ctrl-Z: it is a
    Stopped background job with number 1, and its command has no background
    suffix. *)
Definition stopped_sleep_shell : Jobs.shell :=
  {| Jobs.heap :=
       {[ 1%positive :=
            set_status STOPPED (set_command "sleep 30" sleep_job) ]};
     Jobs.job_list_head := Some 1%positive;
     Jobs.shell_pid := 50; Jobs.tty_pgrp := 50;
     Jobs.stdout := ""; Jobs.signals := [] |}.

(** [sleep 30] in the foreground, Ctrl-Z, [fg], and then the job ends. *)
Definition stop_then_fg
    : list (option string * Z * list (Z * Z)) :=
  [(Some "sleep 30", 100, [quiet; (100, stopped_by_SIGTSTP)]);
   (Some "fg", 0, [quiet; quiet; (100, exited_normally)])].

(** [cat &] is stopped by SIGTTIN when it reads the terminal; [bg]. *)
Definition background_cat_then_bg
    : list (option string * Z * list (Z * Z)) :=
  [(Some "cat &", 100, []);
   (Some "bg", 0, [(100, stopped_by_SIGTTIN); quiet])].

(** [cat | cat] in the foreground is stopped by SIGTTOU, and [sleep 2 &] is
    started. *)
Definition pipeline_stopped_then_sleep
    : list (option string * Z * list (Z * Z)) :=
  [(Some "cat | cat", 10, [quiet; (10, stopped_by_SIGTTOU)]);
   (Some "sleep 2 &", 20, [])].

(** The table after these two turns: [cat | cat] is Stopped and still has
    the foreground number, and it is not the newest job. *)
Definition stopped_pipeline_then_sleep_shell : Jobs.shell :=
  {| Jobs.heap := <[ 1%positive := set_status STOPPED resumed_pipeline ]>
                    {[ 2%positive := set_status RUNNING finished_sleep ]};
     Jobs.job_list_head := Some 1%positive;
     Jobs.shell_pid := 50; Jobs.tty_pgrp := 50;
     Jobs.stdout := ""; Jobs.signals := [] |}.

(** The same two turns, and then [fg] while a stop of [cat | cat] by SIGTSTP
    is waiting to be reported. *)
Definition fg_with_stop_to_report
    : list (option string * Z * list (Z * Z)) :=
  pipeline_stopped_then_sleep
  ++ [(Some "fg", 0, [quiet; (10, stopped_by_SIGTSTP)])].

(** The same two turns, and then end of input while that stop is waiting to
    be reported. *)
Definition eof_with_stop_to_report
    : list (option string * Z * list (Z * Z)) :=
  pipeline_stopped_then_sleep
  ++ [(None, 0, [(10, stopped_by_SIGTSTP)])].

End Examples.

(** ** The children: from [fork] to [execvp] *)

Module Launcher.
Import Redirect.

(** <signal.h> as on Linux. *)
Definition SIGINT : Z := 2.
Definition SIGTSTP : Z := 20.
Definition SIGTTIN : Z := 21.
Definition SIGTTOU : Z := 22.

Inductive handler : Type := SIG_DFL | SIG_IGN.

(** The calls of a child about signals, process groups, the terminal and
    its own children, with their arguments. *)
Inductive control_call : Type :=
| call_signal (sig : Z) (h : handler)
| call_setpgid (pid pgid : Z)
| call_tcsetpgrp (fd pgrp : Z)
| call_pipe (result : Z) (read_fd write_fd : Z)
| call_fork (result : Z)
| call_waitpid (pid : Z).

(** A child of the shell: its descriptors and what it has written ([io]),
    and the control calls it has made so far, oldest first. *)
Record child : Type := mk_child {
  io : proc;
  control : list control_call
}.

Definition does (call : control_call) (c : child) : child :=
  {| io := io c; control := control c ++ [call] |}.
Definition with_io (p : proc) (c : child) : child :=
  {| io := p; control := control c |}.

(** How the code of a child ends: [execvp] replaces the process image by
    the program (and does not return), or the child calls [exit]. *)
Inductive child_end : Type :=
| Runs (file : string) (args : list string) (c : child)
| Exits (code : Z) (c : child).

(** The strings of a NULL-terminated [argv]; an array without a NULL is
    read past its end. *)
Fixpoint argv_strings (argv : list (option string)) : exec (list string) :=
  match argv with
  | [] => Fault
  | None :: _ => Ret []
  | Some a :: rest => args ← argv_strings rest; Ret (a :: args)
  end.

Section System.

Variable open_errno : string -> Z -> option Z.
Variable strerror : Z -> string.

(** [execvp(file, argv)] fails with the given [errno], or replaces the
    process image. *)
Variable execvp_errno : string -> option Z.

(** [pipe(pipe_fd)] fails with the given [errno], or succeeds. *)
Variable pipe_errno : option Z.

(** The two ends of the pipe that a successful [pipe] creates, as open
    files. *)
Variable pipe_read_end pipe_write_end : file.

(** The end of all three kinds of children: apply the redirections, leave
    with [exit(EXIT_FAILURE)] when one failed, otherwise [execvp]; an
    [execvp] that returns is followed by [exit(EXIT_FAILURE)].  The program
    name handed to [execvp] must not be NULL. *)
Definition redirect_and_exec (process : process_t) (c : child)
    : exec child_end :=
  let '(redirects_status, p1) :=
    apply_file_redirects open_errno strerror process (io c) in
  let c1 := with_io p1 c in
  if redirects_status =? FILE_REDIRECTION_ERROR
  then Ret (Exits EXIT_FAILURE c1)
  else
    file ← deref (mjoin (argv process !! 0%nat));
    args ← argv_strings (argv process);
    match execvp_errno file with
    | None => Ret (Runs file args c1)
    | Some e =>
        Ret (Exits EXIT_FAILURE
               (with_io {| fds := fds p1; errno := e; written := written p1;
                           calls := calls p1 |} c1))
    end.

(** [execute_process] in the child ([pid == 0]).  The local [pid] that the
    child hands to [tcsetpgrp] is the 0 that [fork] returned. *)
Definition execute_process_child (job : job_t) (c : child) : exec child_end :=
  let c1 := does (call_signal SIGINT SIG_DFL) c in
  let c2 := does (call_signal SIGTSTP SIG_DFL) c1 in
  let c3 := does (call_signal SIGTTOU SIG_IGN) c2 in
  let c4 := does (call_setpgid 0 0) c3 in
  let c5 := if negb (background job)
            then does (call_tcsetpgrp STDIN_FILENO 0) c4 else c4 in
  process ← deref (first_process job);
  redirect_and_exec process c5.

(** [pipe]: the two lowest free descriptors, the read end first. *)
Definition sys_pipe (c : child) : Z * (Z * Z) * child :=
  match pipe_errno with
  | Some e =>
      (-1, (0, 0),
       does (call_pipe (-1) 0 0)
         (with_io {| fds := fds (io c); errno := e; written := written (io c);
                     calls := calls (io c) |} c))
  | None =>
      let read_fd := lowest_free_fd (fds (io c)) in
      let t1 := <[read_fd := pipe_read_end]> (fds (io c)) in
      let write_fd := lowest_free_fd t1 in
      let t2 := <[write_fd := pipe_write_end]> t1 in
      (0, (read_fd, write_fd),
       does (call_pipe 0 read_fd write_fd)
         (with_io {| fds := t2; errno := errno (io c);
                     written := written (io c); calls := calls (io c) |} c))
  end.

(** The first grandchild ([pid1 == 0]): the pipe's write end becomes its
    standard output. *)
Definition execute_pipe_process_first_child (job : job_t) (pipe_fd : Z * Z)
    (c : child) : exec child_end :=
  let p1 := sys_close (fst pipe_fd) (io c) in
  let p2 := sys_dup2 (snd pipe_fd) STDOUT_FILENO p1 in
  let p3 := sys_close (snd pipe_fd) p2 in
  process ← deref (first_process job);
  redirect_and_exec process (with_io p3 c).

(** The second grandchild ([pid2 == 0]): the pipe's read end becomes its
    standard input. *)
Definition execute_pipe_process_second_child (job : job_t) (pipe_fd : Z * Z)
    (c : child) : exec child_end :=
  let p1 := sys_close (snd pipe_fd) (io c) in
  let p2 := sys_dup2 (fst pipe_fd) STDIN_FILENO p1 in
  let p3 := sys_close (fst pipe_fd) p2 in
  process ← deref (second_process job);
  redirect_and_exec process (with_io p3 c).

(** What [execute_pipe_process] starts: the child of the shell (the
    supervisor of the pipeline) and, when the [fork]s get that far, its two
    children, each running on a copy of the supervisor as it was at its
    [fork]. *)
Record pipeline : Type := mk_pipeline {
  supervisor : child_end;
  first_child : option (exec child_end);
  second_child : option (exec child_end)
}.

(** [execute_pipe_process] in the child ([pgid == 0]); [pid1] and [pid2]
    are what the two [fork]s return in the supervisor. *)
Definition execute_pipe_process_child (job : job_t) (pid1 pid2 : Z)
    (c : child) : pipeline :=
  let c1 := does (call_signal SIGINT SIG_DFL) c in
  let c2 := does (call_signal SIGTSTP SIG_DFL) c1 in
  let c3 := does (call_signal SIGTTOU SIG_DFL) c2 in
  let c4 := does (call_signal SIGTTIN SIG_IGN) c3 in
  let c5 := does (call_setpgid 0 0) c4 in
  let c6 := if negb (background job)
            then does (call_tcsetpgrp STDIN_FILENO 0) c5 else c5 in
  let '(pipe_creation_status, pipe_fd, c7) := sys_pipe c6 in
  if pipe_creation_status <? 0
  then {| supervisor := Exits EXIT_FAILURE c7;
          first_child := None; second_child := None |}
  else
    let c8 := does (call_fork pid1) c7 in
    if pid1 <? 0
    then {| supervisor := Exits EXIT_FAILURE c8;
            first_child := None; second_child := None |}
    else
      let first := execute_pipe_process_first_child job pipe_fd
                     (does (call_fork 0) c7) in
      let c9 := does (call_fork pid2) c8 in
      if pid2 <? 0
      then {| supervisor := Exits EXIT_FAILURE c9;
              first_child := Some first; second_child := None |}
      else
        let second := execute_pipe_process_second_child job pipe_fd
                        (does (call_fork 0) c8) in
        let p10 := sys_close (snd pipe_fd) (sys_close (fst pipe_fd) (io c9)) in
        let c10 := does (call_waitpid pid2)
                     (does (call_waitpid pid1) (with_io p10 c9)) in
        {| supervisor := Exits EXIT_SUCCESS c10;
           first_child := Some first; second_child := Some second |}.

End System.

(** A child of the shell right after [fork]. *)
Definition forked : child := {| io := fresh_child; control := [] |}.

End Launcher.

(** ** Notions used to state further properties *)

Module Notions.

(** A string without a space or a tab. *)
Fixpoint delimiter_free (t : string) : bool :=
  match t with
  | EmptyString => true
  | String c t' => negb (Parser.is_delimiter c) && delimiter_free t'
  end.

(** A word: a non-empty string without a space or a tab. *)
Definition is_word (t : string) : bool :=
  negb (String.eqb t "") && delimiter_free t.

(** A string of spaces and tabs only. *)
Fixpoint is_blank (s : string) : bool :=
  match s with
  | EmptyString => true
  | String c s' => Parser.is_delimiter c && is_blank s'
  end.

(** The words of a list separated by one space each. *)
Fixpoint unwords (toks : list string) : string :=
  match toks with
  | [] => ""
  | t :: rest =>
      match rest with
      | [] => t
      | _ :: _ => t +:+ " " +:+ unwords rest
      end
  end.

(** One of the five tokens [process_input] gives a meaning of its own. *)
Definition is_operator (tok : string) : bool :=
  String.eqb tok INPUT_REDIRECT || String.eqb tok OUTPUT_REDIRECT
  || String.eqb tok ERROR_REDIRECT || String.eqb tok PIPE
  || String.eqb tok SEND_TO_BACKGROUND.

(** An [argv] array whose first slots are [slots] and whose other slots are
    NULL. *)
Definition null_padded (slots : list (option string)) : list (option string) :=
  slots ++ replicate (Z.to_nat (MAX_ARGS + 1) - length slots) None.

(** The cursors of [process_input] stay ordered: [argv_ind] never overtakes
    [ind]. *)
Definition cursors_ordered (st : Parser.parse_state) : Prop :=
  0 <= Parser.argv_ind st <= Parser.ind st.

(** The messages [process_input] can print. *)
Definition process_input_messages : list string :=
  [Parser.input_redirect_msg; Parser.output_redirect_msg;
   Parser.error_redirect_msg; Parser.pipe_msg; Parser.background_msg].

(** The first slot of a process's [argv] holds a token that is not an
    operator: [execvp] gets a program name. *)
Definition has_program_name (p : process_t) : Prop :=
  exists w, argv p !! 0%nat = Some (Some w) /\ is_operator w = false.

(** What the loop of [process_input] maintains about program names: once
    a token has been consumed for the process under construction, its first
    [argv] slot holds a program name, unless that token was a final [&]
    right after a [|]; and a first process attached to the job at a [|] has
    a program name. *)
Definition names_inv (len : Z) (st : Parser.parse_state) : Prop :=
  0 <= Parser.argv_ind st /\ 0 <= Parser.ind st /\
  (0 < length (argv (Parser.process st)))%nat /\
  (Parser.creating_second_process st = false ->
   (Parser.argv_ind st = 0 <-> Parser.ind st = 0)) /\
  (0 < Parser.argv_ind st ->
   has_program_name (Parser.process st) \/
   (Parser.creating_second_process st = true /\ len <= Parser.ind st)) /\
  (Parser.creating_second_process st = true ->
   exists p, first_process (Parser.job st) = Some p /\ has_program_name p).

(** A process spec with the given [argv] slots and no redirection. *)
Definition process_with_argv (slots : list (option string)) : process_t :=
  {| argv := null_padded slots;
     redirect_input_filename := None;
     redirect_output_filename := None;
     redirect_error_filename := None |}.

(** One of the three redirection operators, and the field it fills. *)
Definition is_redirect (tok : string) : bool :=
  String.eqb tok INPUT_REDIRECT || String.eqb tok OUTPUT_REDIRECT
  || String.eqb tok ERROR_REDIRECT.

Definition set_redirect (op filename : string) (p : process_t) : process_t :=
  if String.eqb op INPUT_REDIRECT then set_redirect_input filename p
  else if String.eqb op OUTPUT_REDIRECT then set_redirect_output filename p
  else set_redirect_error filename p.

(** A job's fields other than its link to the next job. *)
Definition payload (j : job_t) : job_t := set_next None j.

(** A background job that is Stopped. *)
Definition stopped_in_background (s : Jobs.shell) (a : ptr) : bool :=
  match Jobs.heap s !! a with
  | Some j => background j && bool_decide (status j = STOPPED)
  | None => false
  end.

(** The line [print_job] prints for a job in the job-table format. *)
Definition job_line (most_recent_job_num : Z) (j : job_t) : string :=
  if bool_decide (most_recent_job_num = job_number j)
  then "[" +:+ Shell.string_of_int (job_number j) +:+ "]+" +:+ Shell.tab
       +:+ Shell.status_name (status j)
       +:+ Shell.tab +:+ Shell.tab +:+ Shell.tab +:+ command j +:+ Shell.lf
  else "[" +:+ Shell.string_of_int (job_number j) +:+ "]-" +:+ Shell.tab
       +:+ Shell.status_name (status j)
       +:+ Shell.tab +:+ Shell.tab +:+ Shell.tab +:+ command j +:+ Shell.lf.

(** Whether a call of [print_job_table] lists a job: background jobs only,
    and only those whose status was asked for. *)
Definition listed (print_running_jobs print_stopped_jobs print_done_jobs : bool)
    (j : job_t) : bool :=
  background j &&
  match status j with
  | RUNNING => print_running_jobs
  | STOPPED => print_stopped_jobs
  | DONE => print_done_jobs
  end.

(** The lines of the listed jobs among [l], in the order of [l]. *)
Fixpoint listing (h : gmap ptr job_t) (most_recent_job_num : Z)
    (print_running_jobs print_stopped_jobs print_done_jobs : bool)
    (l : list ptr) : string :=
  match l with
  | [] => ""
  | a :: l' =>
      match h !! a with
      | Some j =>
          if listed print_running_jobs print_stopped_jobs print_done_jobs j
          then job_line most_recent_job_num j
          else ""
      | None => ""
      end
      +:+ listing h most_recent_job_num
            print_running_jobs print_stopped_jobs print_done_jobs l'
  end.

(** From [s] to [s'] the shell has kept its process id and has left the
    terminal where it was; it has only added to its output, and the only
    signal it has sent is SIGCONT. *)
Definition kept (s s' : Jobs.shell) : Prop :=
  Jobs.shell_pid s' = Jobs.shell_pid s /\
  Jobs.tty_pgrp s' = Jobs.tty_pgrp s /\
  (exists out, Jobs.stdout s' = Jobs.stdout s +:+ out) /\
  (exists sent, Jobs.signals s' = Jobs.signals s ++ sent /\
                Forall (fun x => x.2 = Jobs.SIGCONT) sent).

(** The same, except that the terminal is either where it was or back with
    the shell. *)
Definition kept_or_returned (s s' : Jobs.shell) : Prop :=
  Jobs.shell_pid s' = Jobs.shell_pid s /\
  (Jobs.tty_pgrp s' = Jobs.tty_pgrp s \/
   Jobs.tty_pgrp s' = Jobs.shell_pid s) /\
  (exists out, Jobs.stdout s' = Jobs.stdout s +:+ out) /\
  (exists sent, Jobs.signals s' = Jobs.signals s ++ sent /\
                Forall (fun x => x.2 = Jobs.SIGCONT) sent).

(** The shell state a prompt iteration ends in. *)
Definition shell_of (c : Shell.control) : Jobs.shell :=
  match c with
  | Shell.Loop s _ => s
  | Shell.Exit _ s => s
  end.

(** What a redirection that can be opened makes of the descriptor table:
    the standard descriptor refers to the opened file. *)
Definition rewire (filename : option string) (flags : Z) (mode : option Z)
    (target : Z) (t : gmap Z Redirect.file) : gmap Z Redirect.file :=
  match filename with
  | Some name => <[target := Redirect.Opened name flags mode]> t
  | None => t
  end.

Definition rewired (process : process_t) (t : gmap Z Redirect.file)
    : gmap Z Redirect.file :=
  rewire (redirect_output_filename process)
    Redirect.creat_flags (Some Redirect.creat_mode) Redirect.STDOUT_FILENO
    (rewire (redirect_input_filename process)
       Redirect.O_RDONLY None Redirect.STDIN_FILENO
       (rewire (redirect_error_filename process)
          Redirect.creat_flags (Some Redirect.creat_mode)
          Redirect.STDERR_FILENO t)).

(** The calls of one redirection, as the specification orders them: open
    the file; when that fails, hand the diagnostic to [perror]; duplicate
    the descriptor that [open] returned onto the standard descriptor; close
    the original.  [open] returns -1 for a file that cannot be opened; for
    one that can, it returns a descriptor that is not negative, and the
    [dup2] and the [close] that follow succeed. *)
Definition redirection_calls (open_errno : string -> Z -> option Z)
    (r : string * Z * option Z * Z) (cs : list Redirect.call) : Prop :=
  match r with
  | (f, flags, mode, target) =>
      exists fd dup2_result close_result,
        cs = [Redirect.call_open f flags mode fd]
             ++ (if Redirect.open_fails open_errno r
                 then [Redirect.call_perror (Redirect.diagnostic_for r)]
                 else [])
             ++ [Redirect.call_dup2 fd target dup2_result;
                 Redirect.call_close fd close_result] /\
        if Redirect.open_fails open_errno r then fd = -1
        else 0 <= fd /\ dup2_result = target /\ close_result = 0
  end.

(** What a redirection whose file can be opened makes of the descriptor
    table: the standard descriptor refers to the opened file, and the
    descriptor [open] returned, the lowest free one, is closed again. *)
Definition redirected (r : string * Z * option Z * Z)
    (t : gmap Z Redirect.file) : gmap Z Redirect.file :=
  match r with
  | (f, flags, mode, target) =>
      delete (Redirect.lowest_free_fd t)
        (<[target := Redirect.Opened f flags mode]> t)
  end.

(** The three standard descriptors are open and no descriptor is
    negative. *)
Definition standard_descriptors_open (t : gmap Z Redirect.file) : Prop :=
  is_Some (t !! 0) /\ is_Some (t !! 1) /\ is_Some (t !! 2) /\
  forall fd, fd < 0 -> t !! fd = None.

(** Where the diagnostics of a process's redirections are written: the
    file its [2>] names when that could be opened, and otherwise what
    descriptor 2 referred to before. *)
Definition diagnostic_target (open_errno : string -> Z -> option Z)
    (process : process_t) (inherited : Redirect.file) : Redirect.file :=
  match redirect_error_filename process with
  | Some e =>
      match open_errno e Redirect.creat_flags with
      | Some _ => inherited
      | None =>
          Redirect.Opened e Redirect.creat_flags (Some Redirect.creat_mode)
      end
  | None => inherited
  end.

(** The line written for a redirection that could not be opened. *)
Definition diagnostic_line (open_errno : string -> Z -> option Z)
    (strerror : Z -> string) (r : string * Z * option Z * Z) : string :=
  Redirect.diagnostic_for r +:+ ": "
  +:+ strerror (default 0 (open_errno r.1.1.1 r.1.1.2)) +:+ Redirect.lf.

End Notions.

(** ** Further concrete tables *)

Module Samples.

(** [sleep 60 &], process group 101, job number 2, not linked anywhere. *)
Definition second_sleep_job : job_t :=
  {| pgid := 101; command := "sleep 60 &"; job_number := 2;
     background := true; status := RUNNING;
     first_process := Some (set_argv 1 "60" (set_argv 0 "sleep" zero_process));
     second_process := None; next := None |}.

(** [cat], process group 102, stopped by Ctrl-Z and given job number 3. *)
Definition stopped_cat_job : job_t :=
  {| pgid := 102; command := "cat"; job_number := 3;
     background := true; status := STOPPED;
     first_process := Some (set_argv 0 "cat" zero_process);
     second_process := None; next := None |}.

(** The table holds [sleep 30 &]; [sleep 60 &] has been allocated and is
    about to be appended. *)
Definition job_about_to_be_added : Jobs.shell :=
  {| Jobs.heap := <[ 2%positive := second_sleep_job ]>
                    {[ 1%positive := Examples.sleep_job ]};
     Jobs.job_list_head := Some 1%positive;
     Jobs.shell_pid := 50; Jobs.tty_pgrp := 50;
     Jobs.stdout := ""; Jobs.signals := [] |}.

(** Three jobs: [sleep 30 &] running, [sleep 60 &] finished, [cat]
    stopped. *)
Definition three_jobs_shell : Jobs.shell :=
  {| Jobs.heap :=
       <[ 1%positive := set_next (Some 2%positive) Examples.sleep_job ]>
         (<[ 2%positive :=
               set_next (Some 3%positive) (set_status DONE second_sleep_job) ]>
            {[ 3%positive := stopped_cat_job ]});
     Jobs.job_list_head := Some 1%positive;
     Jobs.shell_pid := 50; Jobs.tty_pgrp := 50;
     Jobs.stdout := ""; Jobs.signals := [] |}.

(** The same table when the stopped job was started as [cat &] and stopped
    on reading the terminal: its command already has the background
    suffix. *)
Definition three_background_jobs_shell : Jobs.shell :=
  {| Jobs.heap :=
       <[ 3%positive := set_command "cat &" stopped_cat_job ]>
         (Jobs.heap three_jobs_shell);
     Jobs.job_list_head := Some 1%positive;
     Jobs.shell_pid := 50; Jobs.tty_pgrp := 50;
     Jobs.stdout := ""; Jobs.signals := [] |}.

(** The two ends of a pipe as open files, named the way Linux names them
    under [/proc/self/fd]. *)
Definition pipe_read_end : Redirect.file :=
  Redirect.Opened "pipe:[4242]" Redirect.O_RDONLY None.
Definition pipe_write_end : Redirect.file :=
  Redirect.Opened "pipe:[4242]" Redirect.O_WRONLY None.

(** The job parsed from [ls | wc > count]. *)
Definition ls_wc_job : job_t :=
  set_second_process
    (Some (set_redirect_output "count" (set_argv 0 "wc" zero_process)))
    (set_first_process (Some (set_argv 0 "ls" zero_process))
       (zero_job "ls | wc > count")).

End Samples.

(** * Properties *)

(** Reduce the binds of the [exec] monad, and nothing else. *)
Ltac exec_step := cbn [mbind exec_bind mret exec_ret deref].

(** ** The parser *)

Module ParserProofs.
Import Parser.

Section Loop.
Variable len : Z.
Variable toks : list string.

(** Every completed turn moves the cursor forward. *)
Lemma body_advances st st' :
  process_input_body len toks st = Continue st' ->
  ind st < ind st' <= ind st + 2.
Proof.
  unfold process_input_body, redirect_branch.
  destruct (token_at toks (ind st)) as [tok|]; [|discriminate].
  repeat match goal with
         | |- context [if ?b then _ else _] => destruct b
         | |- context [match ?o with Some _ => _ | None => _ end] => destruct o
         end;
    intros H; inversion H; subst; simpl; lia.
Qed.

(** Running the loop from a state it reaches is running it from the start. *)
Lemma loop_reaches n : forall m st st',
  reaches n len toks st = Some st' ->
  process_input_loop (n + m) len toks st = process_input_loop m len toks st'.
Proof.
  induction n as [|n IH]; intros m st st' H; simpl in *.
  - by inversion H.
  - destruct (ind st <? len); [|discriminate].
    destruct (process_input_body len toks st); try discriminate.
    by apply IH.
Qed.

(** [reaches] never needs more turns than the cursor has moved. *)
Lemma reaches_ind n : forall st st',
  reaches n len toks st = Some st' -> ind st + Z.of_nat n <= ind st'.
Proof.
  induction n as [|n IH]; intros st st' H; simpl in *.
  - inversion H; lia.
  - destruct (ind st <? len); [|discriminate].
    destruct (process_input_body len toks st) as [st1| |] eqn:Hb;
      try discriminate.
    apply body_advances in Hb. apply IH in H. lia.
Qed.

(** The loop leaves: it never runs out of turns when given one more than
    the number of tokens still ahead of the cursor. *)
Lemma loop_terminates fuel : forall st,
  (Z.to_nat (len - ind st) < fuel)%nat ->
  process_input_loop fuel len toks st <> Diverge.
Proof.
  induction fuel as [|fuel IH]; intros st Hf; [lia|]. simpl.
  destruct (ind st <? len) eqn:Hlt; [|done].
  apply Z.ltb_lt in Hlt.
  destruct (process_input_body len toks st) as [st1| |] eqn:Hb; try done.
  apply IH. apply body_advances in Hb. lia.
Qed.

End Loop.

(** [process_input] always comes back: with an outcome, or with a fault
    when it is handed fewer tokens than the length says or more than [argv]
    can hold. *)
Lemma process_input_terminates len toks j :
  process_input len toks j <> Diverge.
Proof.
  unfold process_input. apply loop_terminates. simpl.
  destruct len; simpl; lia.
Qed.

Lemma token_at_In toks i tok : token_at toks i = Some tok -> In tok toks.
Proof.
  unfold token_at. destruct (i <? 0); [discriminate|].
  intros H. apply list_elem_of_In. by eapply list_elem_of_lookup_2.
Qed.

Lemma token_at_lt toks i tok :
  token_at toks i = Some tok -> 0 <= i < Z.of_nat (length toks).
Proof.
  unfold token_at. destruct (i <? 0) eqn:E; [discriminate|].
  apply Z.ltb_ge in E. intros H. apply lookup_lt_Some in H. lia.
Qed.

Lemma slots_inv_start toks cmd :
  slots_inv toks (process_input_start (zero_job cmd)).
Proof. split; [done|]. simpl. discriminate. Qed.

Lemma slots_inv_body len toks st st' :
  slots_inv toks st ->
  process_input_body len toks st = Continue st' ->
  slots_inv toks st'.
Proof.
  intros [Hsnd Hfst]. unfold process_input_body, redirect_branch.
  destruct (token_at toks (ind st)) as [tok|] eqn:Htok; [|discriminate].
  destruct (String.eqb tok INPUT_REDIRECT);
    [|destruct (String.eqb tok OUTPUT_REDIRECT);
      [|destruct (String.eqb tok ERROR_REDIRECT);
        [|destruct (String.eqb tok PIPE) eqn:Hpipe;
          [|destruct (String.eqb tok SEND_TO_BACKGROUND)]]]].
  1-3: destruct (_ || _); [discriminate|];
       destruct (token_at toks (ind st + 1)); [|discriminate];
       intros H; inversion H; subst; by split.
  - destruct (_ || _); [discriminate|].
    intros H; inversion H; subst. split; [done|]. intros _. split; [by eexists|].
    apply String.eqb_eq in Hpipe. subst tok. by eapply token_at_In.
  - destruct (_ || _); [discriminate|].
    intros H; inversion H; subst. by split.
  - destruct (_ && _); [|discriminate].
    intros H; inversion H; subst. by split.
Qed.

Lemma slots_inv_loop len toks fuel : forall st o,
  slots_inv toks st ->
  process_input_loop fuel len toks st = Ret o ->
  ret o = SUCCESS ->
  is_Some (first_process (parsed_job o)) /\
  (process_count (parsed_job o) = 1 \/ process_count (parsed_job o) = 2)%nat /\
  (is_Some (second_process (parsed_job o)) -> In PIPE toks).
Proof.
  induction fuel as [|fuel IH]; intros st o Hinv Hrun Hok; [discriminate|].
  simpl in Hrun. destruct (ind st <? len).
  - destruct (process_input_body len toks st) as [st1|o1|] eqn:Hb;
      try discriminate.
    + apply (IH st1); eauto using slots_inv_body.
    + inversion Hrun; subst o1. clear Hrun. revert Hb.
      unfold process_input_body, redirect_branch.
      repeat match goal with
             | |- context [if ?b then _ else _] => destruct b
             | |- context [match ?x with Some _ => _ | None => _ end] => destruct x
             end; intros H; inversion H; subst; discriminate.
  - inversion Hrun; subst o. clear Hrun. destruct Hinv as [Hsnd Hfst].
    unfold process_input_finish, process_count. simpl.
    destruct (creating_second_process st) eqn:Hc; simpl.
    + destruct Hfst as [[p Hp] Hin]; [done|]. rewrite Hp. simpl.
      split; [by eexists|]. split; [by right|done].
    + rewrite Hsnd. split; [by eexists|]. split; [by left|].
      intros [? ?]; discriminate.
Qed.

(** One more turn after the turns that reach a state. *)
Lemma reaches_snoc len toks n : forall st st' st'',
  reaches n len toks st = Some st' ->
  ind st' < len ->
  process_input_body len toks st' = Continue st'' ->
  reaches (S n) len toks st = Some st''.
Proof.
  induction n as [|n IH]; intros st st' st'' H Hlt Hb.
  - simpl in H. inversion H; subst st'. simpl.
    destruct (Z.ltb_spec (ind st) len) as [_|?]; [|lia]. by rewrite Hb.
  - cbn [reaches] in H |- *.
    destruct (ind st <? len); [|discriminate].
    destruct (process_input_body len toks st) as [st1| |]; try discriminate.
    by apply (IH st1 st').
Qed.

(** The last of the turns that reach a state. *)
Lemma reaches_last len toks n : forall st st'',
  reaches (S n) len toks st = Some st'' ->
  exists st',
    reaches n len toks st = Some st' /\
    ind st' < len /\
    process_input_body len toks st' = Continue st''.
Proof.
  induction n as [|n IH]; intros st st'' H.
  - simpl in H. destruct (Z.ltb_spec (ind st) len) as [Hlt|?]; [|discriminate].
    destruct (process_input_body len toks st) as [st1| |] eqn:Hb;
      try discriminate.
    inversion H; subst st1. by exists st.
  - cbn [reaches] in H.
    destruct (ind st <? len) eqn:Hlt; [|discriminate].
    destruct (process_input_body len toks st) as [st1| |] eqn:Hb;
      try discriminate.
    destruct (IH st1 st'' H) as (st' & Hr & Hl & Hb').
    exists st'. split; [|done]. cbn [reaches]. by rewrite Hlt, Hb.
Qed.

(** [argv_ind] counts the turns spent on the process under construction:
    after a turn it is 0 exactly when the turn was over a [|]. *)
Lemma body_argv_ind len toks st st' :
  process_input_body len toks st = Continue st' ->
  0 <= argv_ind st ->
  0 <= argv_ind st' /\
  (argv_ind st' = 0 <-> token_at toks (ind st) = Some PIPE).
Proof.
  unfold process_input_body, redirect_branch.
  destruct (token_at toks (ind st)) as [tok|] eqn:Htok; [|discriminate].
  destruct (String.eqb tok INPUT_REDIRECT) eqn:E1;
    [|destruct (String.eqb tok OUTPUT_REDIRECT) eqn:E2;
      [|destruct (String.eqb tok ERROR_REDIRECT) eqn:E3;
        [|destruct (String.eqb tok PIPE) eqn:E4;
          [|destruct (String.eqb tok SEND_TO_BACKGROUND) eqn:E5]]]].
  1-3: destruct (_ || _); [discriminate|];
       destruct (token_at toks (ind st + 1)); [|discriminate];
       intros H Hnn; inversion H; subst; simpl;
       (split; [lia|]); split; [lia|];
       intros [= ->]; discriminate.
  - destruct (_ || _); [discriminate|].
    intros H Hnn; inversion H; subst; simpl. split; [lia|].
    apply String.eqb_eq in E4. by subst tok.
  - destruct (_ || _); [discriminate|].
    intros H Hnn; inversion H; subst; simpl. split; [lia|].
    split; [lia|]. intros [= ->]. discriminate.
  - destruct (_ && _); [|discriminate].
    intros H Hnn; inversion H; subst; simpl. split; [lia|].
    split; [lia|]. intros [= ->]. discriminate.
Qed.

(** At a state the loop reaches from its start, no token of the process
    under construction has been consumed exactly when the cursor is at the
    first token or the turn before was over a [|]. *)
Lemma reached_argv_ind len toks j n : forall st,
  reaches n len toks (process_input_start j) = Some st ->
  0 <= argv_ind st /\
  (argv_ind st = 0 <->
   ind st = 0 \/
   exists k st0,
     n = S k /\
     reaches k len toks (process_input_start j) = Some st0 /\
     token_at toks (ind st0) = Some PIPE).
Proof.
  induction n as [|n IH]; intros st H.
  - simpl in H. inversion H; subst st. simpl. split; [lia|].
    split; [by left|done].
  - destruct (reaches_last _ _ _ _ _ H) as (st0 & Hr & Hlt & Hb).
    destruct (IH st0 Hr) as [Hnn _].
    destruct (body_argv_ind _ _ _ _ Hb Hnn) as [Hnn' Hiff].
    split; [done|]. rewrite Hiff. split.
    + intros Htok. right. by exists n, st0.
    + intros [H0|(k & st1 & [= <-] & Hr1 & Htok)].
      * pose proof (reaches_ind _ _ _ _ _ H) as Hn. simpl in Hn. lia.
      * rewrite Hr in Hr1. by inversion Hr1; subst st1.
Qed.

(** Meeting [|] as a token of its own: the step that decides, whichever
    process is under construction. *)
Lemma pipe_step len toks st :
  token_at toks (ind st) = Some PIPE ->
  process_input_body len toks st =
    if (argv_ind st =? 0) || (ind st + 1 =? len)
    then Return {| ret := COMMAND_PROCESSING_ERROR; printed := pipe_msg;
                   parsed_job := job st |}
    else Continue (advance
           {| ind := ind st; argv_ind := -1;
              creating_second_process := true;
              process := zero_process;
              job := set_first_process (Some (process st)) (job st) |}).
Proof. intros Htok. unfold process_input_body. by rewrite Htok. Qed.

(** C1 (as amended).  A job that [process_input] accepts has its first
    process slot filled and carries exactly one or two process specs, the
    second only when a [|] token is present.  And whenever the cursor meets
    a [|], in the first process or while the second one is being built and
    whatever follows on the line: no token of the process under construction
    has been consumed exactly when the [|] is the first token or the turn
    before was over a [|]; in that case, and when the [|] is the last token,
    [process_input] returns the error about [|] at this very token; in every
    other case the [|] is not refused: the loop goes on to the next token,
    with the process built so far stored as the job's first process and a
    fresh process under construction. *)
Theorem accepted_job_has_one_or_two_processes
    (toks : list string) (cmd : string) :
  let len := Z.of_nat (length toks) in
  let start := process_input_start (zero_job cmd) in
  (forall o,
      process_input len toks (zero_job cmd) = Ret o ->
      ret o = SUCCESS ->
      is_Some (first_process (parsed_job o)) /\
      (process_count (parsed_job o) = 1 \/
       process_count (parsed_job o) = 2)%nat /\
      (is_Some (second_process (parsed_job o)) -> In PIPE toks)) /\
  (forall n st,
      reaches n len toks start = Some st ->
      token_at toks (ind st) = Some PIPE ->
      (argv_ind st = 0 <->
       ind st = 0 \/
       exists k st0,
         n = S k /\ reaches k len toks start = Some st0 /\
         token_at toks (ind st0) = Some PIPE) /\
      (argv_ind st = 0 \/ ind st + 1 = len ->
       process_input len toks (zero_job cmd) =
         Ret {| ret := COMMAND_PROCESSING_ERROR; printed := pipe_msg;
                parsed_job := job st |}) /\
      (argv_ind st <> 0 -> ind st + 1 <> len ->
       exists st',
         reaches (S n) len toks start = Some st' /\
         creating_second_process st' = true /\
         first_process (job st') = Some (process st) /\
         process st' = zero_process /\
         ind st' = ind st + 1 /\ argv_ind st' = 0)).
Proof.
  intros len start. split.
  { intros o Hrun Hok.
    exact (slots_inv_loop _ _ _ _ _ (slots_inv_start toks cmd) Hrun Hok). }
  intros n st Hreach Htok.
  pose proof (token_at_lt _ _ _ Htok) as Hlt. fold len in Hlt.
  pose proof (reaches_ind _ _ _ _ _ Hreach) as Hn. simpl in Hn.
  split; [exact (proj2 (reached_argv_ind _ _ _ _ _ Hreach))|]. split.
  - intros Hbad.
    assert (Hrun : process_input len toks (zero_job cmd) =
                   process_input_loop (S (Z.to_nat len) - n) len toks st).
    { unfold process_input.
      replace (S (Z.to_nat len))
        with (n + (S (Z.to_nat len) - n))%nat at 1 by lia.
      by apply loop_reaches. }
    destruct (S (Z.to_nat len) - n)%nat as [|m] eqn:Hm; [lia|].
    simpl in Hrun. destruct (Z.ltb_spec (ind st) len) as [_|?]; [|lia].
    rewrite (pipe_step len toks st Htok) in Hrun.
    destruct ((argv_ind st =? 0) || (ind st + 1 =? len)) eqn:Hb; [done|].
    apply orb_false_iff in Hb as [H0%Z.eqb_neq H1%Z.eqb_neq]. lia.
  - intros H0%Z.eqb_neq H1%Z.eqb_neq.
    eexists. split.
    + apply (reaches_snoc len toks n start st); [done|lia|].
      rewrite (pipe_step len toks st Htok), H0, H1. reflexivity.
    + by simpl.
Qed.

Lemma accepted_job_has_one_or_two_processes_witness :
  exists st st',
    reaches 3 5 ["a"; "|"; "b"; "|"; "c"]
      (process_input_start (zero_job "a | b | c")) = Some st /\
    creating_second_process st = true /\
    token_at ["a"; "|"; "b"; "|"; "c"] (ind st) = Some PIPE /\
    reaches 4 5 ["a"; "|"; "b"; "|"; "c"]
      (process_input_start (zero_job "a | b | c")) = Some st' /\
    first_process (job st') = Some (process st).
Proof.
  eexists.
  destruct (proj2 (accepted_job_has_one_or_two_processes
                     ["a"; "|"; "b"; "|"; "c"] "a | b | c")
              3%nat _ eq_refl eq_refl) as (_ & _ & Hgo).
  destruct Hgo as (st' & Hr & _ & Hfirst & _); [simpl; lia|simpl; lia|].
  exists st'. split; [reflexivity|]. split; [reflexivity|].
  split; [reflexivity|]. split; [exact Hr|exact Hfirst].
Defined.

(** C1 as the claim states it fails: in [a | b | c] the cursor meets the
    second [|] while the second process is being built, and the parser
    returns [SUCCESS] all the same. *)
Lemma second_pipe_is_not_rejected :
  ~ (forall (toks : list string) (cmd : string) (n : nat) (st : parse_state),
        reaches n (Z.of_nat (length toks)) toks
          (process_input_start (zero_job cmd)) = Some st ->
        creating_second_process st = true ->
        token_at toks (ind st) = Some PIPE ->
        exists o,
          process_input (Z.of_nat (length toks)) toks (zero_job cmd) = Ret o /\
          ret o = COMMAND_PROCESSING_ERROR).
Proof.
  intros H.
  destruct (H ["a"; "|"; "b"; "|"; "c"] "a | b | c" 3%nat _
              eq_refl eq_refl eq_refl) as (o & Hrun & Herr).
  vm_compute in Hrun. inversion Hrun; subst o. discriminate.
Qed.

(** Meeting [&] as a token of its own: the step that decides. *)
Lemma background_step len toks st :
  ind st < len ->
  token_at toks (ind st) = Some SEND_TO_BACKGROUND ->
  process_input_body len toks st =
    if (ind st =? 0) || (ind st + 1 <? len)
    then Return {| ret := COMMAND_PROCESSING_ERROR; printed := background_msg;
                   parsed_job := job st |}
    else Continue (advance (with_job (set_background true (job st)) st)).
Proof. intros _ Htok. unfold process_input_body. by rewrite Htok. Qed.

Lemma finish_background st :
  background (parsed_job (process_input_finish st)) = background (job st).
Proof.
  unfold process_input_finish. simpl. by destruct (creating_second_process st).
Qed.

(** C6 (as amended).  Let the parser examine an [&] at index [i] as a token
    of its own.  Then it returns the error exactly when [i] is the first
    index or not the last one, and the error is the one about [&]; when
    instead [i] is the last index of a sequence of at least two tokens, the
    parser returns [SUCCESS] and the job's background flag is set. *)
Theorem examined_background_token
    (toks : list string) (cmd : string) (i : Z)
    (Hex : examines toks (zero_job cmd) i)
    (Htok : token_at toks i = Some SEND_TO_BACKGROUND) :
  let len := Z.of_nat (length toks) in
  ((i = 0 \/ i + 1 < len) <->
   exists o, process_input len toks (zero_job cmd) = Ret o /\
             ret o = COMMAND_PROCESSING_ERROR) /\
  (i = 0 \/ i + 1 < len ->
   exists j, process_input len toks (zero_job cmd) =
             Ret {| ret := COMMAND_PROCESSING_ERROR;
                    printed := background_msg; parsed_job := j |}) /\
  (i + 1 = len /\ 2 <= len ->
   exists o, process_input len toks (zero_job cmd) = Ret o /\
             ret o = SUCCESS /\ background (parsed_job o) = true).
Proof.
  intros len. destruct Hex as (n & st & Hreach & Hi). subst i.
  pose proof (token_at_lt _ _ _ Htok) as Hlt. fold len in Hlt.
  pose proof (reaches_ind _ _ _ _ _ Hreach) as Hn. simpl in Hn.
  assert (Hrun : process_input len toks (zero_job cmd) =
                 process_input_loop (S (Z.to_nat len) - n) len toks st).
  { unfold process_input.
    replace (S (Z.to_nat len)) with (n + (S (Z.to_nat len) - n))%nat at 1 by lia.
    by apply loop_reaches. }
  destruct (S (Z.to_nat len) - n)%nat as [|[|m]] eqn:Hm; [lia|lia|].
  simpl in Hrun. destruct (Z.ltb_spec (ind st) len) as [_|?]; [|lia].
  rewrite (background_step len toks st) in Hrun by (done || lia).
  destruct ((ind st =? 0) || (ind st + 1 <? len)) eqn:Hbad.
  - assert (Hor : ind st = 0 \/ ind st + 1 < len).
    { apply orb_true_iff in Hbad as [H|H]; [left; lia|right; lia]. }
    split; [|split].
    + split; [|done]. intros _. eexists. by split.
    + intros _. by eexists.
    + intros [? ?]. lia.
  - apply orb_false_iff in Hbad as [H0 H1].
    apply Z.eqb_neq in H0. apply Z.ltb_ge in H1.
    simpl in Hrun. destruct (Z.ltb_spec (ind st + 1) len) as [?|_]; [lia|].
    split; [|split].
    + split; [lia|]. intros (o & Ho & Herr). rewrite Hrun in Ho.
      inversion Ho; subst o. discriminate.
    + lia.
    + intros _. eexists. split; [exact Hrun|]. split; [done|].
      by rewrite finish_background.
Qed.

Lemma examined_background_token_witness :
  examines ["sleep"; "30"; "&"] (zero_job "sleep 30 &") 2 /\
  token_at ["sleep"; "30"; "&"] 2 = Some SEND_TO_BACKGROUND /\
  exists o, process_input 3 ["sleep"; "30"; "&"] (zero_job "sleep 30 &") = Ret o /\
            ret o = SUCCESS /\ background (parsed_job o) = true.
Proof.
  assert (Hex : examines ["sleep"; "30"; "&"] (zero_job "sleep 30 &") 2).
  { exists 2%nat. eexists. split; reflexivity. }
  split; [exact Hex|]. split; [reflexivity|].
  apply (examined_background_token ["sleep"; "30"; "&"] "sleep 30 &" 2
           Hex eq_refl).
  split; [reflexivity|]. simpl. lia.
Defined.

(** C6 as the claim states it fails: in [cat > &] the [&] is the last of
    three tokens, yet it is taken as the output filename and the background
    flag stays clear. *)
Lemma trailing_background_token_as_filename :
  ~ (forall (toks : list string) (cmd : string),
        last toks = Some SEND_TO_BACKGROUND ->
        (2 <= length toks)%nat ->
        exists o,
          process_input (Z.of_nat (length toks)) toks (zero_job cmd) = Ret o /\
          ret o = SUCCESS /\ background (parsed_job o) = true).
Proof.
  intros H.
  destruct (H ["cat"; ">"; "&"] "cat > &" eq_refl) as (o & Hrun & _ & Hbg).
  { simpl. lia. }
  vm_compute in Hrun. inversion Hrun; subst o. discriminate.
Qed.

End ParserProofs.

(** ** The redirection applier *)

Module RedirectProofs.
Import Redirect.

Section System.
Variable open_errno : string -> Z -> option Z.
Variable strerror : Z -> string.

Local Abbreviation redirect_block := (redirect_block open_errno strerror).
Local Abbreviation apply_file_redirects := (apply_file_redirects open_errno strerror).

Lemma sys_dup2_calls oldfd newfd p :
  exists r, calls (sys_dup2 oldfd newfd p) = calls p ++ [call_dup2 oldfd newfd r].
Proof. unfold sys_dup2. destruct (fds p !! oldfd); by eexists. Qed.

Lemma sys_close_calls fd p :
  exists r, calls (sys_close fd p) = calls p ++ [call_close fd r].
Proof. unfold sys_close. destruct (fds p !! fd); by eexists. Qed.

(** What one redirection block adds to the calls, and what it does to the
    local [status]. *)
Lemma redirect_block_set name flags mode target st :
  exists fd r1 r2,
    calls (snd (redirect_block (Some name) flags mode target st)) =
      calls (snd st)
      ++ [call_open name flags mode fd]
      ++ (if open_fails open_errno (name, flags, mode, target)
          then [call_perror (diagnostic_for (name, flags, mode, target))]
          else [])
      ++ [call_dup2 fd target r1; call_close fd r2] /\
    fst (redirect_block (Some name) flags mode target st) =
      if open_fails open_errno (name, flags, mode, target) then -1 else fst st.
Proof.
  destruct st as [status p]. unfold Redirect.redirect_block, sys_open, open_fails.
  simpl. destruct (open_errno name flags) as [e|]; simpl.
  - destruct (sys_dup2_calls (-1) target
                (print_file_redirection_error_str strerror name
                   {| fds := fds p; errno := e; written := written p;
                      calls := calls p ++ [call_open name flags mode (-1)] |}))
      as [r1 H1].
    destruct (sys_close_calls (-1)
                (sys_dup2 (-1) target
                   (print_file_redirection_error_str strerror name
                      {| fds := fds p; errno := e; written := written p;
                         calls := calls p ++ [call_open name flags mode (-1)] |})))
      as [r2 H2].
    exists (-1), r1, r2. split; [|done].
    rewrite H2, H1. simpl. by rewrite <- !app_assoc.
  - set (fd := lowest_free_fd (fds p)).
    assert (Hfd : (fd <? 0) = false).
    { apply Z.ltb_ge. unfold fd, lowest_free_fd.
      destruct (List.find _ _) as [n|] eqn:Hfind; simpl; [|lia].
      apply find_some in Hfind as [Hin _].
      apply list_elem_of_In in Hin. apply elem_of_seqZ in Hin. lia. }
    rewrite Hfd. simpl.
    set (p1 := {| fds := <[fd:=Opened name flags mode]> (fds p);
                  errno := errno p; written := written p;
                  calls := calls p ++ [call_open name flags mode fd] |}).
    destruct (sys_dup2_calls fd target p1) as [r1 H1].
    destruct (sys_close_calls fd (sys_dup2 fd target p1)) as [r2 H2].
    exists fd, r1, r2. split; [|done].
    rewrite H2, H1. simpl. by rewrite <- !app_assoc.
Qed.

(** The same, through the three projections. *)
Lemma redirect_block_effect filename flags mode target st :
  let st' := redirect_block filename flags mode target st in
  let req := match filename with
             | Some f => [(f, flags, mode, target)]
             | None => []
             end in
  exists ext,
    calls (snd st') = calls (snd st) ++ ext /\
    opens ext = List.map (fun r => fst r) req /\
    plumbing ext =
      flat_map (fun r => [inl (fst r); inr (snd r)]) req /\
    diagnostics ext =
      List.map diagnostic_for (List.filter (open_fails open_errno) req) /\
    fst st' = if existsb (open_fails open_errno) req then -1 else fst st.
Proof.
  intros st' req. subst st' req. destruct filename as [name|].
  - destruct (redirect_block_set name flags mode target st)
      as (fd & r1 & r2 & Hcalls & Hst).
    eexists. split; [exact Hcalls|]. rewrite Hst.
    cbn. destruct (open_errno name flags); cbn; done.
  - exists []. by rewrite app_nil_r.
Qed.

Lemma nuke_calls p :
  exists r0 r1 r2,
    calls (nuke_all_file_descriptors p) =
      calls p ++ [call_dup2 STDIN_FILENO STDIN_FILENO r0;
                  call_dup2 STDOUT_FILENO STDIN_FILENO r1;
                  call_dup2 STDERR_FILENO STDIN_FILENO r2].
Proof.
  unfold nuke_all_file_descriptors.
  destruct (sys_dup2_calls STDIN_FILENO STDIN_FILENO p) as [r0 H0].
  destruct (sys_dup2_calls STDOUT_FILENO STDIN_FILENO
              (sys_dup2 STDIN_FILENO STDIN_FILENO p)) as [r1 H1].
  destruct (sys_dup2_calls STDERR_FILENO STDIN_FILENO
              (sys_dup2 STDOUT_FILENO STDIN_FILENO
                 (sys_dup2 STDIN_FILENO STDIN_FILENO p))) as [r2 H2].
  exists r0, r1, r2. rewrite H2, H1, H0. by rewrite <- !app_assoc.
Qed.

(** The whole applier: [body] is what the three blocks call, in order. *)
Lemma apply_file_redirects_effect process p :
  exists body,
    opens body = List.map (fun r => fst r) (requested process) /\
    plumbing body =
      flat_map (fun r => [inl (fst r); inr (snd r)]) (requested process) /\
    diagnostics body =
      List.map diagnostic_for
        (List.filter (open_fails open_errno) (requested process)) /\
    if existsb (open_fails open_errno) (requested process)
    then fst (apply_file_redirects process p) = FILE_REDIRECTION_ERROR /\
         exists r0 r1 r2,
           calls (snd (apply_file_redirects process p)) =
             calls p ++ body
             ++ [call_dup2 STDIN_FILENO STDIN_FILENO r0;
                 call_dup2 STDOUT_FILENO STDIN_FILENO r1;
                 call_dup2 STDERR_FILENO STDIN_FILENO r2]
    else fst (apply_file_redirects process p) = SUCCESS /\
         calls (snd (apply_file_redirects process p)) = calls p ++ body.
Proof.
  unfold Redirect.apply_file_redirects, requested.
  set (st0 := (0, p)).
  destruct (redirect_block_effect (redirect_error_filename process)
              creat_flags (Some creat_mode) STDERR_FILENO st0)
    as (e1 & Hc1 & Ho1 & Hp1 & Hd1 & Hs1).
  set (st1 := redirect_block _ _ _ STDERR_FILENO st0) in *.
  destruct (redirect_block_effect (redirect_input_filename process)
              O_RDONLY None STDIN_FILENO st1)
    as (e2 & Hc2 & Ho2 & Hp2 & Hd2 & Hs2).
  set (st2 := redirect_block _ _ _ STDIN_FILENO st1) in *.
  destruct (redirect_block_effect (redirect_output_filename process)
              creat_flags (Some creat_mode) STDOUT_FILENO st2)
    as (e3 & Hc3 & Ho3 & Hp3 & Hd3 & Hs3).
  set (st3 := redirect_block _ _ _ STDOUT_FILENO st2) in *.
  cbv zeta in *.
  exists (e1 ++ e2 ++ e3).
  unfold opens, plumbing, diagnostics in *.
  rewrite !omap_app, !List.map_app, !List.flat_map_app, !List.filter_app,
    !List.map_app, !List.existsb_app.
  rewrite Ho1, Ho2, Ho3, Hp1, Hp2, Hp3, Hd1, Hd2, Hd3.
  do 3 (split; [done|]).
  assert (Hcalls : calls (snd st3) = calls p ++ e1 ++ e2 ++ e3).
  { rewrite Hc3, Hc2, Hc1. simpl. by rewrite <- !app_assoc. }
  match type of Hs1 with _ = if ?b then _ else _ => set (b1 := b) in * end.
  match type of Hs2 with _ = if ?b then _ else _ => set (b2 := b) in * end.
  match type of Hs3 with _ = if ?b then _ else _ => set (b3 := b) in * end.
  rewrite Hs3, Hs2, Hs1. simpl fst.
  destruct (nuke_calls (snd st3)) as (r0 & r1 & r2 & Hn).
  destruct b1, b2, b3; simpl;
    first [ by split
          | split; [done|]; exists r0, r1, r2; rewrite Hn, Hcalls;
            by rewrite <- !app_assoc ].
Qed.

End System.

(** What the three [dup2] calls of [nuke_all_file_descriptors] do when the
    standard descriptors are open: descriptor 0 becomes a duplicate of
    descriptor 2, and descriptors 1 and 2 stay as they are. *)
Lemma nuke_all_file_descriptors_fds p f0 f1 f2 :
  fds p !! STDIN_FILENO = Some f0 ->
  fds p !! STDOUT_FILENO = Some f1 ->
  fds p !! STDERR_FILENO = Some f2 ->
  fds (nuke_all_file_descriptors p) = <[STDIN_FILENO := f2]> (fds p).
Proof.
  intros H0 H1 H2. unfold nuke_all_file_descriptors, sys_dup2.
  rewrite H0. simpl. rewrite (insert_id (fds p)) by done.
  rewrite H1. simpl. rewrite lookup_insert_ne by done.
  rewrite H2. simpl. by rewrite insert_insert_eq.
Qed.

(** What [print_file_redirection_error_str] writes: the formatted message,
    and after it what [perror] appends for the current [errno]. *)
Lemma redirection_diagnostic_text strerror name p f :
  fds p !! STDERR_FILENO = Some f ->
  written (print_file_redirection_error_str strerror name p) =
    written p ++
    [(f, ("-yash: " +:+ name +:+ ": No such file or directory")
         +:+ ": " +:+ strerror (errno p) +:+ lf)].
Proof.
  intros H. unfold print_file_redirection_error_str, perror. simpl.
  by rewrite H.
Qed.

(** C4 (the program departs from the claim).  For [cat < missing], where
    [missing] does not exist, the only thing written is one line on the
    inherited standard error, and that line is the prescribed message
    followed by a second copy of the error text. *)
Theorem missing_input_diagnostic_repeats_errno_text :
  written (snd (apply_file_redirects Examples.missing_fs
                  Examples.linux_strerror Examples.cat_from_missing
                  fresh_child)) =
    [(Inherited 2,
      "-yash: missing: No such file or directory: No such file or directory"
      +:+ lf)] /\
  diagnostics (calls (snd (apply_file_redirects Examples.missing_fs
                  Examples.linux_strerror Examples.cat_from_missing
                  fresh_child))) =
    ["-yash: missing: No such file or directory"].
Proof. split; vm_compute; reflexivity. Qed.

(** C10 (the program departs from the claim).  For
    [cat < missing > out 2> err], where [missing] does not exist: the
    applier rewires descriptor 2, goes on after the failed [open] of
    [missing] with one diagnostic, rewires descriptor 1, makes the three
    [dup2] calls of [nuke_all_file_descriptors] and returns
    [FILE_REDIRECTION_ERROR].  Those three calls discard nothing: the three
    standard descriptors are all open afterwards, 2 and 1 on the files just
    opened and 0 on a duplicate of descriptor 2, and no other descriptor is
    open. *)
Theorem failed_redirection_closes_no_descriptor :
  let r := apply_file_redirects Examples.missing_fs Examples.linux_strerror
             Examples.cat_all_redirected fresh_child in
  fst r = FILE_REDIRECTION_ERROR /\
  calls (snd r) =
    [call_open "err" 577 (Some 436) 3; call_dup2 3 2 2; call_close 3 0;
     call_open "missing" 0 None (-1);
     call_perror "-yash: missing: No such file or directory";
     call_dup2 (-1) 0 (-1); call_close (-1) (-1);
     call_open "out" 577 (Some 436) 3; call_dup2 3 1 1; call_close 3 0;
     call_dup2 0 0 0; call_dup2 1 0 0; call_dup2 2 0 0] /\
  fds (snd r) !! 0 = Some (Opened "err" 577 (Some 436)) /\
  fds (snd r) !! 1 = Some (Opened "out" 577 (Some 436)) /\
  fds (snd r) !! 2 = Some (Opened "err" 577 (Some 436)) /\
  size (fds (snd r)) = 3%nat.
Proof. repeat split; vm_compute; reflexivity. Qed.

End RedirectProofs.

(** ** The job table *)

Module JobsProofs.
Import Jobs.

(** *** Chains *)

Lemma chain_functional h : forall l1 l2 p,
  chain h p l1 -> chain h p l2 -> l1 = l2.
Proof.
  induction l1 as [|a l1 IH]; intros [|b l2] p H1 H2; simpl in *.
  - done.
  - destruct H2 as [H2 _]. congruence.
  - destruct H1 as [H1 _]. congruence.
  - destruct H1 as (Hp1 & j1 & Hj1 & Hc1), H2 as (Hp2 & j2 & Hj2 & Hc2).
    assert (a = b) by congruence. subst b.
    assert (j1 = j2) by congruence. subst j2.
    f_equal. by eapply IH.
Qed.

Lemma chain_app h : forall l1 l2 p,
  chain h p (l1 ++ l2) ->
  exists q, chain h q l2 /\
            (l1 = [] -> q = p) /\
            (forall l0 a j, l1 = l0 ++ [a] -> h !! a = Some j -> q = next j).
Proof.
  induction l1 as [|a l1 IH]; intros l2 p H; simpl in *.
  - exists p. split; [done|]. split; [done|].
    intros l0 a j Heq. by destruct l0.
  - destruct H as (Hp & j & Hj & Hc).
    destruct (IH _ _ Hc) as (q & Hq & Hnil & Hlast).
    exists q. split; [done|]. split; [done|].
    intros l0 b jb Heq Hb.
    destruct l0 as [|c l0]; simpl in Heq.
    + inversion Heq; subst. rewrite Hnil by done. congruence.
    + inversion Heq; subst. by eapply Hlast.
Qed.

Lemma chain_lookup h l p a :
  chain h p l -> a ∈ l -> is_Some (h !! a).
Proof.
  revert p. induction l as [|b l IH]; intros p H Hin; [by inversion Hin|].
  destruct H as (Hp & j & Hj & Hc).
  apply elem_of_cons in Hin as [->|Hin]; [by eexists|by eapply IH].
Qed.

(** A chain never visits a node twice: the part of the chain from the
    second visit on would be a shorter chain from the same pointer. *)
Lemma chain_NoDup h l p : chain h p l -> NoDup l.
Proof.
  revert p. induction l as [|a l IH]; intros p H; [constructor|].
  pose proof H as (Hp & j & Hj & Hc).
  constructor; [|by eapply IH].
  intros Hin. apply list_elem_of_split in Hin as (l1 & l2 & ->).
  destruct (chain_app h l1 (a :: l2) _ Hc) as (q & Hq & _).
  pose proof Hq as (Hqa & _). subst q p.
  pose proof (chain_functional _ _ _ _ H Hq) as Heq.
  apply (f_equal length) in Heq. simpl in Heq. rewrite length_app in Heq.
  simpl in Heq. lia.
Qed.

Lemma chain_length h l p : chain h p l -> (length l <= size h)%nat.
Proof.
  intros H.
  assert (Hsub : (list_to_set l : gset ptr) ⊆ dom h).
  { intros a Ha. apply elem_of_list_to_set in Ha.
    apply elem_of_dom. by eapply chain_lookup. }
  apply subseteq_size in Hsub.
  rewrite size_list_to_set in Hsub by (by eapply chain_NoDup).
  by rewrite size_dom in Hsub.
Qed.

Lemma table_fuel s l : table s l -> (length l < chain_fuel s)%nat.
Proof. intros H. apply chain_length in H. unfold chain_fuel. lia. Qed.

(** A chain only depends on the nodes it visits. *)
Lemma chain_agree h h' : forall l p,
  chain h p l ->
  (forall a j, a ∈ l -> h !! a = Some j ->
               exists j', h' !! a = Some j' /\ next j' = next j) ->
  chain h' p l.
Proof.
  induction l as [|a l IH]; intros p H Hag; simpl in *; [done|].
  destruct H as (Hp & j & Hj & Hc). split; [done|].
  destruct (Hag a j) as (j' & Hj' & Hn); [by left|done|].
  exists j'. split; [done|]. rewrite Hn. apply IH; [done|].
  intros b jb Hb. apply Hag. by right.
Qed.

(** *** The read-only loops *)

Lemma find_job_loop_none s pg : forall l fuel curr,
  chain (heap s) curr l ->
  (length l < fuel)%nat ->
  (forall a, a ∈ l -> has_pgid s pg a = false) ->
  find_job_loop fuel s curr pg = Ret None.
Proof.
  induction l as [|a l IH]; intros fuel curr Hc Hf Hno;
    (destruct fuel as [|fuel]; [simpl in Hf; lia|]); simpl in *.
  - by subst curr.
  - destruct Hc as (-> & j & Hj & Hc). unfold load. rewrite Hj. simpl.
    pose proof (Hno a ltac:(by left)) as Ha. unfold has_pgid in Ha.
    rewrite Hj in Ha. rewrite Ha.
    apply IH; [done|lia|]. intros b Hb. apply Hno. by right.
Qed.

Lemma find_job_loop_first s pg : forall l1 fuel curr a l2,
  chain (heap s) curr (l1 ++ a :: l2) ->
  (length l1 < fuel)%nat ->
  (forall b, b ∈ l1 -> has_pgid s pg b = false) ->
  has_pgid s pg a = true ->
  find_job_loop fuel s curr pg = Ret (Some a).
Proof.
  induction l1 as [|b l1 IH]; intros fuel curr a l2 Hc Hf Hno Hyes;
    (destruct fuel as [|fuel]; [simpl in Hf; lia|]); simpl in *.
  - destruct Hc as (-> & j & Hj & Hc). unfold load. rewrite Hj. simpl.
    unfold has_pgid in Hyes. rewrite Hj in Hyes. by rewrite Hyes.
  - destruct Hc as (-> & j & Hj & Hc). unfold load. rewrite Hj. simpl.
    pose proof (Hno b ltac:(by left)) as Hb. unfold has_pgid in Hb.
    rewrite Hj in Hb. rewrite Hb.
    eapply IH; [done|lia| |done]. intros c Hin. apply Hno. by right.
Qed.

(** Either no job of the list has the process group, or there is a first
    one that has it. *)
Lemma first_with_pgid s pg (l : list ptr) :
  (forall a, a ∈ l -> has_pgid s pg a = false) \/
  exists l1 a l2,
    l = l1 ++ a :: l2 /\
    (forall b, b ∈ l1 -> has_pgid s pg b = false) /\
    has_pgid s pg a = true.
Proof.
  induction l as [|a l IH].
  - left. intros a Ha. inversion Ha.
  - destruct (has_pgid s pg a) eqn:Ha.
    + right. exists [], a, l. split; [done|]. split; [|done].
      intros b Hb. inversion Hb.
    + destruct IH as [IH|(l1 & b & l2 & -> & Hno & Hyes)].
      * left. intros b Hb. apply elem_of_cons in Hb as [->|Hb]; auto.
      * right. exists (a :: l1), b, l2. split; [done|]. split; [|done].
        intros c Hc. apply elem_of_cons in Hc as [->|Hc]; auto.
Qed.

Lemma find_job_none s pg l :
  table s l ->
  (forall a, a ∈ l -> has_pgid s pg a = false) ->
  find_job pg s = Ret None.
Proof.
  intros Ht Hno. unfold find_job.
  eapply find_job_loop_none; eauto using table_fuel.
Qed.

Lemma find_job_first s pg l1 a l2 :
  table s (l1 ++ a :: l2) ->
  (forall b, b ∈ l1 -> has_pgid s pg b = false) ->
  has_pgid s pg a = true ->
  find_job pg s = Ret (Some a).
Proof.
  intros Ht Hno Hyes. unfold find_job.
  eapply find_job_loop_first; eauto.
  apply table_fuel in Ht. rewrite length_app in Ht. simpl in Ht. lia.
Qed.

Lemma find_most_recent_job_num_loop_spec s : forall l fuel curr acc,
  chain (heap s) curr l ->
  (length l < fuel)%nat ->
  find_most_recent_job_num_loop fuel s curr acc =
    Ret (fold_left (fun acc a =>
                      match heap s !! a with
                      | Some j => if (acc <? job_number j) && background j
                                  then job_number j else acc
                      | None => acc
                      end) l acc).
Proof.
  induction l as [|a l IH]; intros fuel curr acc Hc Hf;
    (destruct fuel as [|fuel]; [simpl in Hf; lia|]); simpl in *.
  - by subst curr.
  - destruct Hc as (-> & j & Hj & Hc). unfold load. rewrite Hj. simpl.
    apply IH; [done|lia].
Qed.

Lemma find_most_recent_job_num_spec s l :
  table s l ->
  find_most_recent_job_num s = Ret (max_background_number s l).
Proof.
  intros Ht. unfold find_most_recent_job_num, max_background_number.
  apply find_most_recent_job_num_loop_spec; eauto using table_fuel.
Qed.

Lemma max_background_number_nonneg s l : 0 <= max_background_number s l.
Proof.
  unfold max_background_number.
  assert (H : forall acc,
            acc <= fold_left (fun acc a =>
                      match heap s !! a with
                      | Some j => if (acc <? job_number j) && background j
                                  then job_number j else acc
                      | None => acc
                      end) l acc).
  { induction l as [|a l IH]; intros acc; simpl; [done|].
    etrans; [|apply IH]. destruct (heap s !! a) as [j|]; [|done].
    destruct (Z.ltb_spec acc (job_number j)); simpl; [|done].
    destruct (background j); lia. }
  apply H.
Qed.

Lemma find_next_job_to_fg_loop_spec s : forall l fuel curr acc,
  chain (heap s) curr l ->
  (length l < fuel)%nat ->
  find_next_job_to_fg_loop fuel s curr acc =
    Ret (match last (List.filter (not_done s) l) with
         | Some a => Some a
         | None => acc
         end).
Proof.
  induction l as [|a l IH]; intros fuel curr acc Hc Hf;
    (destruct fuel as [|fuel]; [simpl in Hf; lia|]); simpl in *.
  - by subst curr.
  - destruct Hc as (-> & j & Hj & Hc). unfold load. rewrite Hj. simpl.
    rewrite (IH fuel (next j)) by (done || lia).
    unfold not_done at 2. rewrite Hj.
    destruct (bool_decide (status j ≠ DONE)); [|done].
    rewrite last_cons. by destruct (last _).
Qed.

Lemma find_next_job_to_fg_spec s l :
  table s l -> find_next_job_to_fg s = Ret (last_not_done s l).
Proof.
  intros Ht. unfold find_next_job_to_fg, last_not_done.
  rewrite (find_next_job_to_fg_loop_spec s l) by eauto using table_fuel.
  by destruct (last _).
Qed.

(** *** Writing through a pointer *)

Lemma store_ret a f s j :
  heap s !! a = Some j ->
  store a f s = Ret (with_heap (<[a := f j]> (heap s)) s).
Proof. intros H. unfold store, load. by rewrite H. Qed.

Lemma chain_insert_same_next h a j' : forall l p,
  (forall j, h !! a = Some j -> next j' = next j) ->
  chain h p l -> chain (<[a := j']> h) p l.
Proof.
  intros l p Hn Hc. eapply chain_agree; [done|].
  intros b j Hb Hj. destruct (decide (a = b)) as [->|Hne].
  - exists j'. rewrite lookup_insert_eq. split; [done|]. by apply Hn.
  - exists j. by rewrite lookup_insert_ne.
Qed.

Lemma chain_insert_outside h a j' l p :
  a ∉ l -> chain h p l -> chain (<[a := j']> h) p l.
Proof.
  intros Hno Hc. eapply chain_agree; [done|].
  intros b j Hb Hj. exists j. split; [|done].
  rewrite lookup_insert_ne; [done|]. intros ->. done.
Qed.

Lemma chain_delete_outside h a l p :
  a ∉ l -> chain h p l -> chain (delete a h) p l.
Proof.
  intros Hno Hc. eapply chain_agree; [done|].
  intros b j Hb Hj. exists j. split; [|done].
  rewrite lookup_delete_ne; [done|]. intros ->. done.
Qed.

(** The last node of a chain has a NULL [next]. *)
Lemma chain_last_next h l p a j :
  chain h p (l ++ [a]) -> h !! a = Some j -> next j = None.
Proof.
  intros Hc Hj. destruct (chain_app h l [a] p Hc) as (q & Hq & _).
  destruct Hq as (_ & j' & Hj' & Hnil). simpl in Hnil. congruence.
Qed.

(** Cutting a chain after one of its nodes. *)
Lemma chain_cut h b bj : forall l p rest,
  chain h p (l ++ b :: rest) ->
  h !! b = Some bj ->
  chain (<[b := set_next None bj]> h) p (l ++ [b]).
Proof.
  induction l as [|c l IH]; intros p rest Hc Hb.
  - destruct Hc as (-> & j & Hj & _). simpl. split; [done|].
    exists (set_next None bj). by rewrite lookup_insert_eq.
  - pose proof (chain_NoDup _ _ _ Hc) as Hnd.
    destruct Hc as (-> & j & Hj & Hc). simpl. split; [done|].
    assert (c <> b).
    { intros ->. apply NoDup_cons in Hnd as [Hnd _]. apply Hnd.
      apply elem_of_app. right. by left. }
    exists j. rewrite lookup_insert_ne by done. split; [done|].
    by eapply IH.
Qed.

(** Linking a node with a NULL [next] after the last node of a chain. *)
Lemma chain_link h b bj a aj : forall l p,
  chain h p (l ++ [b]) ->
  h !! b = Some bj ->
  h !! a = Some aj ->
  next aj = None ->
  a ∉ l ++ [b] ->
  chain (<[b := set_next (Some a) bj]> h) p (l ++ [b; a]).
Proof.
  induction l as [|c l IH]; intros p Hc Hb Ha Hn Hno.
  - destruct Hc as (-> & j & Hj & _). simpl. split; [done|].
    exists (set_next (Some a) bj). rewrite lookup_insert_eq.
    split; [done|]. simpl. split; [done|].
    exists aj. rewrite lookup_insert_ne; [by rewrite Hn|].
    intros ->. apply Hno. by left.
  - pose proof (chain_NoDup _ _ _ Hc) as Hnd.
    destruct Hc as (-> & j & Hj & Hc). simpl. split; [done|].
    assert (c <> b).
    { intros ->. apply NoDup_cons in Hnd as [Hnd _]. apply Hnd.
      apply elem_of_app. right. by left. }
    exists j. rewrite lookup_insert_ne by done. split; [done|].
    apply IH; try done. intros Hin. apply Hno. by right.
Qed.

(** *** The loops that change the list *)

(** Removing the job at the end of the list: the node before it, or the
    head, is set to NULL. *)
Lemma remove_job_loop_last s pg a aj : forall l1 fuel prev curr,
  chain (heap s) curr (l1 ++ [a]) ->
  (length l1 < fuel)%nat ->
  (forall b, b ∈ l1 -> has_pgid s pg b = false) ->
  heap s !! a = Some aj ->
  pgid aj = pg ->
  remove_job_loop fuel s prev curr pg false =
    match (match last l1 with Some b => Some b | None => prev end) with
    | Some b => s1 ← store b (set_next None) s; Ret (s1, 1)
    | None => Ret (with_head None s, 1)
    end.
Proof.
  induction l1 as [|b l1 IH]; intros fuel prev curr Hc Hf Hno Ha Hpg;
    (destruct fuel as [|fuel]; [simpl in Hf; lia|]).
  - pose proof (chain_last_next _ [] _ _ _ Hc Ha) as Hnext.
    destruct Hc as (-> & _). simpl. unfold load. rewrite Ha. simpl.
    rewrite bool_decide_true by done. rewrite Hnext.
    destruct prev as [p0|]; simpl; [|done].
    by destruct (store p0 (set_next None) s).
  - destruct Hc as (-> & j & Hj & Hc). simpl. unfold load. rewrite Hj. simpl.
    pose proof (Hno b ltac:(by left)) as Hb. unfold has_pgid in Hb.
    rewrite Hj in Hb. rewrite Hb.
    rewrite (IH fuel (Some b) (next j)); try done.
    + rewrite last_cons. by destruct (last l1).
    + simpl in Hf. lia.
    + intros c Hin. apply Hno. by right.
Qed.

Lemma remove_job_last s pg l1 a aj :
  table s (l1 ++ [a]) ->
  (forall b, b ∈ l1 -> has_pgid s pg b = false) ->
  heap s !! a = Some aj ->
  pgid aj = pg ->
  remove_job pg false s =
    match last l1 with
    | Some b => s1 ← store b (set_next None) s; Ret (s1, 1)
    | None => Ret (with_head None s, 1)
    end.
Proof.
  intros Ht Hno Ha Hpg. unfold remove_job.
  rewrite (remove_job_loop_last s pg a aj l1); try done.
  - by destruct (last l1).
  - apply table_fuel in Ht. rewrite length_app in Ht. simpl in Ht. lia.
Qed.

(** Removing the first job with the process group, wherever it is: the
    node before it, or the head, is set to its [next]; the job itself is
    left as it is, [next] included. *)
Lemma remove_job_loop_first s pg a aj l2 : forall l1 fuel prev curr,
  chain (heap s) curr (l1 ++ a :: l2) ->
  (length l1 < fuel)%nat ->
  (forall b, b ∈ l1 -> has_pgid s pg b = false) ->
  heap s !! a = Some aj ->
  pgid aj = pg ->
  remove_job_loop fuel s prev curr pg false =
    match (match last l1 with Some b => Some b | None => prev end) with
    | Some b => s1 ← store b (set_next (next aj)) s; Ret (s1, 1)
    | None => Ret (with_head (next aj) s, 1)
    end.
Proof.
  induction l1 as [|b l1 IH]; intros fuel prev curr Hc Hf Hno Ha Hpg;
    (destruct fuel as [|fuel]; [simpl in Hf; lia|]).
  - destruct Hc as (-> & _). simpl. unfold load. rewrite Ha. simpl.
    rewrite bool_decide_true by done.
    destruct prev as [p0|]; simpl; [|done].
    by destruct (store p0 (set_next (next aj)) s).
  - destruct Hc as (-> & j & Hj & Hc). simpl. unfold load. rewrite Hj. simpl.
    pose proof (Hno b ltac:(by left)) as Hb. unfold has_pgid in Hb.
    rewrite Hj in Hb. rewrite Hb.
    rewrite (IH fuel (Some b) (next j)); try done.
    + rewrite last_cons. by destruct (last l1).
    + simpl in Hf. lia.
    + intros c Hin. apply Hno. by right.
Qed.

(** Bridging over a node of a chain. *)
Lemma chain_unlink h b bj a aj : forall l p l2,
  chain h p (l ++ b :: a :: l2) ->
  h !! b = Some bj ->
  h !! a = Some aj ->
  chain (<[b := set_next (next aj) bj]> h) p (l ++ b :: l2).
Proof.
  induction l as [|c l IH]; intros p l2 Hc Hb Ha.
  - pose proof (chain_NoDup _ _ _ Hc) as Hnd. simpl in Hc, Hnd.
    destruct Hc as (-> & j & Hj & _ & j' & Hj' & Hc).
    assert (j' = aj) by congruence. subst j'.
    simpl. split; [done|]. exists (set_next (next aj) bj).
    rewrite lookup_insert_eq. split; [done|]. simpl.
    apply chain_insert_outside; [|done].
    apply NoDup_cons in Hnd as [Hnd _]. intros Hin. apply Hnd. by right.
  - pose proof (chain_NoDup _ _ _ Hc) as Hnd.
    destruct Hc as (-> & j & Hj & Hc). simpl. split; [done|].
    assert (c <> b).
    { intros ->. apply NoDup_cons in Hnd as [Hnd _]. apply Hnd.
      apply elem_of_app. right. by left. }
    exists j. rewrite lookup_insert_ne by done. split; [done|]. by apply IH.
Qed.

Lemma remove_job_first s pg l1 a l2 aj :
  table s (l1 ++ a :: l2) ->
  (forall b, b ∈ l1 -> has_pgid s pg b = false) ->
  heap s !! a = Some aj ->
  pgid aj = pg ->
  exists s',
    remove_job pg false s = Ret (s', 1) /\
    table s' (l1 ++ l2) /\
    heap s' !! a = Some aj /\
    (forall c, c ∈ l1 ++ l2 ->
       (fun j => (job_number j, background j)) <$> heap s' !! c =
       (fun j => (job_number j, background j)) <$> heap s !! c).
Proof.
  intros Ht Hno Ha Hpg.
  pose proof (chain_NoDup _ _ _ Ht) as Hnd.
  unfold remove_job.
  rewrite (remove_job_loop_first s pg a aj l2 l1); try done.
  2:{ apply table_fuel in Ht. rewrite length_app in Ht. simpl in Ht. lia. }
  destruct l1 as [|b l1 _] using rev_ind.
  - simpl. eexists. split; [done|].
    destruct Ht as (Hhead & j & Hj & Hc).
    assert (j = aj) by congruence. subst j.
    split; [exact Hc|]. by split.
  - rewrite last_snoc.
    assert (Hab : a <> b).
    { intros ->. rewrite <- app_assoc in Hnd. simpl in Hnd.
      apply NoDup_app in Hnd as (_ & _ & Hnd).
      apply NoDup_cons in Hnd as [Hnd _]. apply Hnd. by left. }
    rewrite <- app_assoc in Ht. simpl in Ht.
    destruct (chain_lookup _ _ _ b Ht) as [bj Hb].
    { apply elem_of_app. right. by left. }
    rewrite (store_ret b _ s bj) by done. exec_step.
    eexists. split; [done|]. split; [|split].
    + unfold table. simpl. rewrite <- app_assoc. simpl.
      by eapply chain_unlink.
    + simpl. by rewrite lookup_insert_ne.
    + intros c _. simpl. destruct (decide (b = c)) as [->|Hne].
      * by rewrite lookup_insert_eq, Hb.
      * by rewrite lookup_insert_ne.
Qed.

(** Pointing the last node of a chain somewhere. *)
Lemma segment_redirect_last h z zj q : forall l p,
  chain h p (l ++ [z]) ->
  h !! z = Some zj ->
  segment (<[z := set_next q zj]> h) p (l ++ [z]) q.
Proof.
  induction l as [|c l IH]; intros p Hc Hz.
  - destruct Hc as (-> & _). simpl. split; [done|].
    exists (set_next q zj). by rewrite lookup_insert_eq.
  - pose proof (chain_NoDup _ _ _ Hc) as Hnd.
    destruct Hc as (-> & j & Hj & Hc). simpl. split; [done|].
    assert (c <> z).
    { intros ->. apply NoDup_cons in Hnd as [Hnd _]. apply Hnd.
      apply elem_of_app. right. by left. }
    exists j. rewrite lookup_insert_ne by done. split; [done|]. by apply IH.
Qed.

(** A chain that starts where a segment starts goes through the segment. *)
Lemma segment_chain h : forall path p q l,
  segment h p path q ->
  chain h p l ->
  exists l', l = path ++ l' /\ chain h q l'.
Proof.
  induction path as [|a path IH]; intros p q l Hs Hc; simpl in *.
  - subst q. by exists l.
  - destruct Hs as (-> & j & Hj & Hs).
    destruct l as [|b l]; simpl in Hc; [done|].
    destruct Hc as (Hb & j' & Hj' & Hc).
    assert (b = a) by congruence. subst b.
    assert (j' = j) by congruence. subst j'.
    destruct (IH _ _ _ Hs Hc) as (l' & -> & Hl').
    by exists l'.
Qed.

Lemma segment_app h : forall path1 path2 p q r,
  segment h p path1 q ->
  segment h q path2 r ->
  segment h p (path1 ++ path2) r.
Proof.
  induction path1 as [|a path1 IH]; intros path2 p q r H1 H2; simpl in *.
  - by subst q.
  - destruct H1 as (-> & j & Hj & H1). split; [done|].
    exists j. split; [done|]. by eapply IH.
Qed.

(** Appending: the loop stops at the last node and links the job there. *)
Lemma add_job_loop_last s job : forall l fuel curr b,
  chain (heap s) curr (l ++ [b]) ->
  (length l < fuel)%nat ->
  add_job_loop fuel s curr job = store b (set_next (Some job)) s.
Proof.
  induction l as [|c l IH]; intros fuel curr b Hc Hf;
    (destruct fuel as [|fuel]; [simpl in Hf; lia|]).
  - destruct Hc as (-> & j & Hj & Hnil). simpl in Hnil.
    simpl. unfold load. rewrite Hj. simpl. by rewrite Hnil.
  - destruct Hc as (-> & j & Hj & Hc). simpl. unfold load. rewrite Hj. simpl.
    assert (Hsome : is_Some (next j)).
    { destruct l; destruct Hc as (-> & _); by eexists. }
    destruct Hsome as [n Hn]. rewrite Hn. rewrite <- Hn.
    apply IH; [done|]. simpl in Hf. lia.
Qed.

Lemma add_job_last s job l b :
  table s (l ++ [b]) ->
  add_job job s = store b (set_next (Some job)) s.
Proof.
  intros Ht. unfold add_job.
  assert (Hsome : is_Some (job_list_head s)).
  { unfold table in Ht. destruct l; destruct Ht as (-> & _); by eexists. }
  destruct Hsome as [n Hn]. rewrite Hn. rewrite <- Hn.
  eapply add_job_loop_last; [done|].
  apply table_fuel in Ht. rewrite length_app in Ht. simpl in Ht. lia.
Qed.

Lemma add_job_empty s job :
  table s [] -> add_job job s = Ret (with_head (Some job) s).
Proof. unfold table, add_job. simpl. by intros ->. Qed.

(** [add_job] appends: a live node with a NULL [next] that is not yet in
    the table becomes its last job. *)
Lemma add_job_appends s l a aj :
  table s l ->
  a ∉ l ->
  heap s !! a = Some aj ->
  next aj = None ->
  exists s', add_job a s = Ret s' /\ table s' (l ++ [a]).
Proof.
  intros Ht Hout Ha Hnext. destruct l as [|b l _] using rev_ind.
  - rewrite add_job_empty by done. eexists. split; [done|].
    unfold table. simpl. split; [done|]. exists aj. by rewrite Hnext.
  - destruct (chain_lookup _ _ _ b Ht) as [bj Hb].
    { apply elem_of_app. right. by left. }
    rewrite (add_job_last s a l b) by done.
    rewrite (store_ret b _ s bj) by done. eexists. split; [done|].
    unfold table. simpl. rewrite <- app_assoc. simpl.
    by eapply chain_link.
Qed.

(** Freeing the table releases every node of the list and nothing else. *)
Lemma free_job_table_loop_spec : forall l fuel s curr,
  chain (heap s) curr l ->
  (length l < fuel)%nat ->
  free_job_table_loop fuel s curr =
    Ret (with_heap (fold_left (fun h a => delete a h) l (heap s)) s).
Proof.
  induction l as [|a l IH]; intros fuel s curr Hc Hf;
    (destruct fuel as [|fuel]; [simpl in Hf; lia|]).
  - simpl in Hc. subst curr. simpl. by destruct s.
  - pose proof (chain_NoDup _ _ _ Hc) as Hnd.
    destruct Hc as (-> & j & Hj & Hc). simpl.
    unfold free_job, load. rewrite Hj. simpl.
    rewrite (IH fuel); simpl.
    + done.
    + apply chain_delete_outside; [|done]. by apply NoDup_cons in Hnd as [? _].
    + simpl in Hf. lia.
Qed.

Lemma free_job_table_spec s l :
  table s l ->
  free_job_table s =
    Ret (with_heap (fold_left (fun h a => delete a h) l (heap s)) s).
Proof.
  intros Ht. unfold free_job_table.
  apply free_job_table_loop_spec; eauto using table_fuel.
Qed.

Lemma fold_delete_lookup (l : list ptr) : forall (h : gmap ptr job_t) a,
  fold_left (fun h a => delete a h) l h !! a =
    if bool_decide (a ∈ l) then None else h !! a.
Proof.
  induction l as [|b l IH]; intros h a; simpl; [done|].
  rewrite IH. destruct (decide (a = b)) as [->|Hne].
  - rewrite (bool_decide_true (b ∈ b :: l)) by (by left).
    rewrite lookup_delete_eq. by destruct (bool_decide _).
  - rewrite lookup_delete_ne by done.
    destruct (decide (a ∈ l)).
    + rewrite !bool_decide_true; [done| by right | done].
    + rewrite !bool_decide_false; [done| |done].
      intros Hin. apply elem_of_cons in Hin as [?|?]; done.
Qed.

Lemma max_background_number_agree s s' l :
  (forall c, c ∈ l ->
     (fun j => (job_number j, background j)) <$> heap s' !! c =
     (fun j => (job_number j, background j)) <$> heap s !! c) ->
  max_background_number s' l = max_background_number s l.
Proof.
  unfold max_background_number. generalize 0.
  induction l as [|c l IH]; intros acc H; simpl; [done|].
  pose proof (H c ltac:(by left)) as Hc.
  rewrite IH by (intros d Hd; apply H; by right).
  f_equal.
  destruct (heap s' !! c) as [j'|], (heap s !! c) as [j|]; simpl in Hc;
    try done.
  by inversion Hc.
Qed.

Lemma has_pgid_insert_ne s h a j' pg b :
  a <> b ->
  has_pgid (with_heap (<[a := j']> h) s) pg b = has_pgid (with_heap h s) pg b.
Proof. intros Hne. unfold has_pgid. simpl. by rewrite lookup_insert_ne. Qed.

End JobsProofs.

(** ** Reconciling, the built-ins and the prompt loop *)

Module ShellProofs.
Import Jobs Shell JobsProofs.

(** The foreground job is the newest job, is stopped from the keyboard and
    is put back: unlinking it and linking it again leaves every other node as
    it was, and the job gets the number after the largest background number
    of the others. *)
Lemma requeue_newest_job s l1 a aj pid :
  table s (l1 ++ [a]) ->
  heap s !! a = Some aj ->
  pgid aj = pid ->
  (forall b, b ∈ l1 -> has_pgid s pid b = false) ->
  ('(s3, _) ← remove_job pid false s;
   n ← find_most_recent_job_num s3;
   s4 ← store a (set_job_number (int_wrap (n + 1))) s3;
   s5 ← add_job a s4;
   Ret (s5, 1)) =
  Ret (with_heap
         (<[a := set_job_number (int_wrap (max_background_number s l1 + 1)) aj]>
            (heap s)) s, 1).
Proof.
  intros Ht Ha Hpg Hno.
  pose proof (chain_NoDup _ _ _ Ht) as Hnd.
  rewrite (remove_job_last s pid l1 a aj) by done.
  destruct l1 as [|b l1 _] using rev_ind.
  - simpl. rewrite (store_ret a _ (with_head None s) aj) by done. simpl.
    destruct Ht as (Hhead & _). destruct s; simpl in *. by subst.
  - rewrite last_snoc.
    assert (Hab : a <> b).
    { intros ->. apply NoDup_app in Hnd as (_ & Hnd & _).
      apply (Hnd b); [apply elem_of_app; right|]; by left. }
    assert (Hout : a ∉ l1 ++ [b]).
    { intros Hin. apply NoDup_app in Hnd as (_ & Hnd & _).
      apply (Hnd a); [done|by left]. }
    rewrite <- app_assoc in Ht. simpl in Ht.
    destruct (chain_app _ l1 [b; a] _ Ht) as (q & Hq & _).
    destruct Hq as (_ & bj & Hb & Hbnext).
    destruct Hbnext as (Hbnext & _).
    rewrite (store_ret b _ s bj) by done. exec_step.
    set (s3 := with_heap (<[b := set_next None bj]> (heap s)) s).
    assert (Ht3 : table s3 (l1 ++ [b])).
    { unfold table, s3. simpl. by eapply chain_cut. }
    rewrite (find_most_recent_job_num_spec s3 (l1 ++ [b])) by done. exec_step.
    assert (Hmax : max_background_number s3 (l1 ++ [b]) =
                   max_background_number s (l1 ++ [b])).
    { apply max_background_number_agree. intros c Hc. unfold s3. simpl.
      destruct (decide (b = c)) as [->|Hne].
      - rewrite lookup_insert_eq, Hb. done.
      - by rewrite lookup_insert_ne. }
    rewrite Hmax.
    rewrite (store_ret a _ s3 aj)
      by (unfold s3; simpl; by rewrite lookup_insert_ne).
    exec_step.
    set (aj' := set_job_number _ aj).
    set (s4 := with_heap (<[a := aj']> (heap s3)) s3).
    assert (Ht4 : table s4 (l1 ++ [b])).
    { unfold table, s4. simpl. by apply chain_insert_outside. }
    rewrite (add_job_last s4 a l1 b) by done.
    rewrite (store_ret b _ s4 (set_next None bj)).
    2:{ unfold s4, s3. simpl. rewrite lookup_insert_ne by done.
        by rewrite lookup_insert_eq. }
    exec_step. f_equal. f_equal. unfold with_heap. simpl. f_equal.
    apply map_eq. intros k.
    destruct (decide (k = b)) as [->|Hkb].
    + rewrite lookup_insert_eq. rewrite lookup_insert_ne by done.
      rewrite Hb. f_equal. destruct bj; simpl in *. by subst.
    + rewrite lookup_insert_ne by done.
      destruct (decide (k = a)) as [->|Hka].
      * by rewrite !lookup_insert_eq.
      * rewrite !lookup_insert_ne by done. done.
Qed.

(** Reconciling a status for a process group that has a job, in a
    well-formed table: the first job with that group is rewritten as the
    specification says and nothing else changes. *)
Lemma update_job_status_matched s l1 a l2 aj status_word pid :
  well_formed s (l1 ++ a :: l2) ->
  0 < pid ->
  (forall b, b ∈ l1 -> has_pgid s pid b = false) ->
  heap s !! a = Some aj ->
  pgid aj = pid ->
  update_job_status status_word pid s =
    Ret (with_heap
           (<[a := reconciled status_word
                     (max_background_number s (l1 ++ l2)) aj]> (heap s)) s,
         1).
Proof.
  intros [Ht Hnewest] Hpid Hno Ha Hpg.
  unfold update_job_status, reconciled.
  destruct (Z.leb_spec pid 0) as [?|_]; [lia|].
  rewrite (find_job_first s pid l1 a l2); try done.
  2:{ unfold has_pgid. rewrite Ha. by apply bool_decide_true. }
  exec_step.
  destruct (WIFSTOPPED status_word).
  2:{ rewrite (store_ret a _ s aj) by done. by exec_step. }
  rewrite (store_ret a _ s aj) by done. exec_step.
  destruct ((WSTOPSIG status_word =? SIGTSTP) || (WSTOPSIG status_word =? SIGSTOP));
    [|done].
  set (aj1 := set_status STOPPED aj).
  set (s1 := with_heap (<[a := aj1]> (heap s)) s).
  rewrite (store_ret a _ s1 aj1) by (unfold s1; simpl; apply lookup_insert_eq).
  exec_step.
  set (aj2 := set_background true aj1).
  assert (Hs2 : with_heap (<[a := aj2]> (heap s1)) s1 =
                with_heap (<[a := aj2]> (heap s)) s).
  { unfold s1, with_heap. simpl. by rewrite insert_insert_eq. }
  rewrite Hs2. clear Hs2. subst s1.
  set (s2 := with_heap (<[a := aj2]> (heap s)) s).
  assert (Ha2 : heap s2 !! a = Some aj2) by (unfold s2; simpl; apply lookup_insert_eq).
  unfold load at 1. rewrite Ha2. exec_step.
  change (job_number aj2) with (job_number aj).
  destruct (job_number aj =? FG_JOB_NUM) eqn:Hfg; [|done].
  apply Z.eqb_eq in Hfg.
  assert (l2 = []) as -> by (by eapply (Hnewest l1 a l2 aj)).
  rewrite app_nil_r.
  pose proof (chain_NoDup _ _ _ Ht) as Hnd.
  assert (Hout : a ∉ l1).
  { intros Hin. apply NoDup_app in Hnd as (_ & Hnd & _).
    apply (Hnd a); [done|by left]. }
  rewrite (requeue_newest_job s2 l1 a aj2 pid); try done.
  - f_equal. f_equal. unfold s2, with_heap. simpl. f_equal.
    + rewrite insert_insert_eq. f_equal. f_equal. f_equal. f_equal.
      apply max_background_number_agree. intros c Hc. simpl.
      rewrite lookup_insert_ne; [done|]. by intros ->.
  - unfold table, s2. simpl. apply chain_insert_same_next; [|done].
    intros j Hj. assert (j = aj) by congruence. by subst j.
  - intros b Hb. unfold s2. rewrite has_pgid_insert_ne.
    + rewrite <- (Hno b Hb). by destruct s.
    + by intros ->.
Qed.

(** The same stop when the job with the foreground number is not the
    newest job: whatever the table, [update_job_status] returns, and what it
    leaves is no table any more.  The job was unlinked with its [next] still
    pointing at its old successor, so linking it after the last job closes a
    cycle. *)
Lemma update_job_status_requeue_not_newest
    s l1 a c l2 aj status_word pid :
  table s (l1 ++ a :: c :: l2) ->
  0 < pid ->
  (forall b, b ∈ l1 -> has_pgid s pid b = false) ->
  heap s !! a = Some aj ->
  pgid aj = pid ->
  job_number aj = FG_JOB_NUM ->
  WIFSTOPPED status_word = true ->
  (WSTOPSIG status_word =? SIGTSTP) || (WSTOPSIG status_word =? SIGSTOP) = true ->
  exists s',
    update_job_status status_word pid s = Ret (s', 1) /\
    forall l, ~ table s' l.
Proof.
  intros Ht Hpid Hno Ha Hpg Hfg Hstop Hsig.
  pose proof (chain_NoDup _ _ _ Ht) as Hnd.
  assert (Hout : a ∉ l1 ++ c :: l2).
  { apply NoDup_app in Hnd as (_ & Hnd1 & Hnd2).
    apply NoDup_cons in Hnd2 as [Hnd2 _].
    intros Hin. apply elem_of_app in Hin as [Hin|Hin]; [|done].
    apply (Hnd1 a Hin). by left. }
  assert (Hnext : next aj = Some c).
  { destruct (chain_app _ l1 (a :: c :: l2) _ Ht) as (q & Hq & _).
    destruct Hq as (_ & j & Hj & Hc & _). congruence. }
  unfold update_job_status.
  destruct (Z.leb_spec pid 0) as [?|_]; [lia|].
  rewrite (find_job_first s pid l1 a (c :: l2)); try done.
  2:{ unfold has_pgid. rewrite Ha. by apply bool_decide_true. }
  exec_step. rewrite Hstop.
  rewrite (store_ret a _ s aj) by done. exec_step. rewrite Hsig.
  set (aj1 := set_status STOPPED aj).
  rewrite (store_ret a _ _ aj1) by (simpl; apply lookup_insert_eq).
  exec_step.
  set (aj2 := set_background true aj1).
  assert (Hs2 : with_heap (<[a := aj2]> (heap (with_heap (<[a := aj1]> (heap s)) s)))
                  (with_heap (<[a := aj1]> (heap s)) s) =
                with_heap (<[a := aj2]> (heap s)) s).
  { unfold with_heap. simpl. by rewrite insert_insert_eq. }
  rewrite Hs2. clear Hs2.
  set (s2 := with_heap (<[a := aj2]> (heap s)) s).
  assert (Ha2 : heap s2 !! a = Some aj2) by apply lookup_insert_eq.
  unfold load at 1. rewrite Ha2. exec_step.
  change (job_number aj2) with (job_number aj). rewrite Hfg. simpl Z.eqb.
  cbv iota.
  assert (Ht2 : table s2 (l1 ++ a :: c :: l2)).
  { unfold table, s2. simpl. apply chain_insert_same_next; [|done].
    intros j Hj. assert (j = aj) by congruence. by subst j. }
  destruct (remove_job_first s2 pid l1 a (c :: l2) aj2)
    as (s3 & Hrm & Ht3 & Ha3 & _); try done.
  { intros b Hb. unfold s2. rewrite has_pgid_insert_ne.
    - rewrite <- (Hno b Hb). by destruct s.
    - intros ->. apply Hout. apply elem_of_app. by left. }
  rewrite Hrm. exec_step.
  rewrite (find_most_recent_job_num_spec s3 (l1 ++ c :: l2)) by done.
  exec_step.
  rewrite (store_ret a _ s3 aj2) by done. exec_step.
  set (aj4 := set_job_number _ aj2).
  set (s4 := with_heap (<[a := aj4]> (heap s3)) s3).
  assert (Ht4 : table s4 (l1 ++ c :: l2)).
  { unfold table, s4. simpl. by apply chain_insert_outside. }
  assert (Hsnoc : exists l' z, l1 ++ c :: l2 = l' ++ [z]).
  { destruct (l1 ++ c :: l2) as [|x l0] eqn:E using rev_ind.
    - by destruct l1.
    - by exists l0, x. }
  destruct Hsnoc as (l' & z & Hl'). rewrite Hl' in Ht4, Hout.
  rewrite (add_job_last s4 a l' z) by done.
  destruct (chain_lookup _ _ _ z Ht4) as [zj Hz].
  { apply elem_of_app. right. by left. }
  rewrite (store_ret z _ s4 zj) by done. exec_step.
  eexists. split; [done|].
  intros l Hl. unfold table in Hl. simpl in Hl.
  assert (Hza : z <> a).
  { intros ->. apply Hout. apply elem_of_app. right. by left. }
  assert (Hseg : segment (<[z := set_next (Some a) zj]> (heap s4))
                   (job_list_head s3) ((l' ++ [z]) ++ [a]) (Some c)).
  { eapply segment_app.
    - by apply segment_redirect_last.
    - simpl. split; [done|]. exists aj4.
      rewrite lookup_insert_ne by done. unfold s4. simpl.
      by rewrite lookup_insert_eq. }
  destruct (segment_chain _ _ _ _ _ Hseg Hl) as (l'' & -> & Hc).
  destruct l'' as [|x l'']; [done|].
  destruct Hc as (Hx & _). inversion Hx; subst x.
  pose proof (chain_NoDup _ _ _ Hl) as Hnd'.
  rewrite <- Hl' in Hnd'.
  rewrite <- !app_assoc in Hnd'.
  apply NoDup_app in Hnd' as (_ & _ & Hnd').
  apply NoDup_cons in Hnd' as [Hnd' _]. apply Hnd'.
  apply elem_of_app. right. apply elem_of_app. right. by left.
Qed.

Lemma update_job_status_nonpositive s status_word pid :
  pid <= 0 -> update_job_status status_word pid s = Ret (s, 0).
Proof.
  intros H. unfold update_job_status.
  by destruct (Z.leb_spec pid 0) as [_|?]; [|lia].
Qed.

Lemma update_job_status_unmatched s l status_word pid :
  table s l ->
  0 < pid ->
  (forall a, a ∈ l -> has_pgid s pid a = false) ->
  update_job_status status_word pid s = Ret (s, 1).
Proof.
  intros Ht Hpid Hno. unfold update_job_status.
  destruct (Z.leb_spec pid 0) as [?|_]; [lia|].
  by rewrite (find_job_none s pid l).
Qed.

Lemma reconciled_next status_word n j :
  next (reconciled status_word n j) = next j.
Proof.
  unfold reconciled.
  by repeat match goal with
            | |- context [if ?b then _ else _] => destruct b
            end.
Qed.

Lemma reconciled_foreground_number status_word n j :
  job_number (reconciled status_word n j) = FG_JOB_NUM ->
  job_number j = FG_JOB_NUM.
Proof.
  unfold reconciled.
  destruct (WIFSTOPPED status_word); [|done].
  destruct (_ || _); [|done].
  destruct (job_number j =? FG_JOB_NUM) eqn:E; [|done].
  intros _. by apply Z.eqb_eq.
Qed.

(** Rewriting the matched job as [reconciled] keeps the table well formed,
    with the same jobs in the same order. *)
Lemma well_formed_reconciled s l a aj status_word n :
  well_formed s l ->
  heap s !! a = Some aj ->
  well_formed (with_heap (<[a := reconciled status_word n aj]> (heap s)) s) l.
Proof.
  intros [Ht Hnewest] Ha. split.
  - unfold table. simpl. apply chain_insert_same_next; [|done].
    intros j Hj. assert (j = aj) by congruence. subst j.
    apply reconciled_next.
  - intros l1 b l2 j Hl Hb Hnum. simpl in Hb.
    destruct (decide (a = b)) as [->|Hne].
    + rewrite lookup_insert_eq in Hb. inversion Hb; subst j.
      apply reconciled_foreground_number in Hnum.
      by eapply (Hnewest l1 b l2 aj).
    + rewrite lookup_insert_ne in Hb by done.
      by eapply (Hnewest l1 b l2 j).
Qed.

Lemma has_pgid_true s pg a :
  has_pgid s pg a = true -> exists j, heap s !! a = Some j /\ pgid j = pg.
Proof.
  unfold has_pgid. destruct (heap s !! a) as [j|]; [|done].
  intros H. apply bool_decide_eq_true in H. by exists j.
Qed.

(** In a well-formed table reconciling always returns, and leaves a
    well-formed table of the same jobs; the rest of the shell is untouched. *)
Lemma update_job_status_well_formed s l status_word pid :
  well_formed s l ->
  exists s' progress,
    update_job_status status_word pid s = Ret (s', progress) /\
    well_formed s' l /\
    job_list_head s' = job_list_head s /\
    shell_pid s' = shell_pid s /\ tty_pgrp s' = tty_pgrp s /\
    stdout s' = stdout s /\ signals s' = signals s /\
    (progress = 0 <-> pid <= 0).
Proof.
  intros Hwf.
  destruct (Z.leb_spec pid 0) as [Hle|Hgt].
  - exists s, 0. rewrite update_job_status_nonpositive by done.
    repeat (split; [done|]); first [intros; lia | split; intros; lia].
  - destruct (first_with_pgid s pid l)
      as [Hno|(l1 & a & l2 & -> & Hno & Hyes)].
    + exists s, 1. rewrite (update_job_status_unmatched s l) by (done || apply Hwf).
      repeat (split; [done|]); first [intros; lia | split; intros; lia].
    + destruct (has_pgid_true _ _ _ Hyes) as (aj & Ha & Hpg).
      eexists _, 1.
      rewrite (update_job_status_matched s l1 a l2 aj) by done.
      split; [done|]. split; [by apply well_formed_reconciled|].
      repeat (split; [done|]); first [intros; lia | split; intros; lia].
Qed.

(** Draining returns in a well-formed table and keeps it well formed. *)
Lemma update_job_table_statuses_well_formed l : forall children s,
  well_formed s l ->
  exists s' rest,
    update_job_table_statuses children s = Ret (s', rest) /\
    well_formed s' l /\
    job_list_head s' = job_list_head s /\
    shell_pid s' = shell_pid s /\ tty_pgrp s' = tty_pgrp s /\
    stdout s' = stdout s /\ signals s' = signals s.
Proof.
  induction children as [|[pid status_word] children IH]; intros s Hwf.
  - exists s, []. by repeat (split; [done|]).
  - destruct (update_job_status_well_formed s l status_word pid Hwf)
      as (s1 & r & Hrun & Hwf1 & Hh & Hp & Ht & Ho & Hs & _).
    simpl. rewrite Hrun. exec_step.
    destruct (r =? 0).
    + exists s1, children. by repeat (split; [done|]).
    + destruct (IH s1 Hwf1) as (s2 & rest & Hrun2 & Hwf2 & Hh2 & Hp2 & Ht2 & Ho2 & Hs2).
      exists s2, rest. rewrite Hrun2.
      split; [done|]. split; [done|]. repeat split; congruence.
Qed.

(** *** Frames: what the steps of a built-in leave alone *)

Lemma well_formed_store s l a j j' :
  well_formed s l ->
  heap s !! a = Some j ->
  next j' = next j ->
  (job_number j' = FG_JOB_NUM -> job_number j = FG_JOB_NUM) ->
  well_formed (with_heap (<[a := j']> (heap s)) s) l.
Proof.
  intros [Ht Hnewest] Ha Hnext Hnum. split.
  - unfold table. simpl. apply chain_insert_same_next; [|done].
    intros j0 Hj0. assert (j0 = j) by congruence. by subst j0.
  - intros l1 b l2 jb Hl Hb Hfg. simpl in Hb.
    destruct (decide (a = b)) as [->|Hne].
    + rewrite lookup_insert_eq in Hb. inversion Hb; subst jb.
      by eapply (Hnewest l1 b l2 j); [| |apply Hnum].
    + rewrite lookup_insert_ne in Hb by done.
      by eapply (Hnewest l1 b l2 jb).
Qed.

Lemma well_formed_same_heap s s' l :
  heap s' = heap s ->
  job_list_head s' = job_list_head s ->
  well_formed s l -> well_formed s' l.
Proof.
  intros Hh Hd [Ht Hnewest]. split.
  - unfold table. by rewrite Hh, Hd.
  - intros l1 b l2 jb Hl Hb. rewrite Hh in Hb. by eapply Hnewest.
Qed.

Lemma well_formed_lookup s l a :
  well_formed s l -> a ∈ l -> is_Some (heap s !! a).
Proof. intros [Ht _] Ha. by eapply chain_lookup. Qed.

(** The foreground wait returns in a well-formed table, keeps it well
    formed, and neither prints nor sends a signal. *)
Lemma execute_in_foreground_loop_well_formed l job : forall children s,
  well_formed s l ->
  job ∈ l ->
  exists s' rest,
    execute_in_foreground_loop children job s = Ret (s', rest) /\
    well_formed s' l /\
    shell_pid s' = shell_pid s /\ tty_pgrp s' = tty_pgrp s /\
    stdout s' = stdout s /\ signals s' = signals s.
Proof.
  induction children as [|[pid status_word] children IH]; intros s Hwf Hin.
  - exists s, []. by repeat (split; [done|]).
  - destruct (update_job_status_well_formed s l status_word pid Hwf)
      as (s1 & r & Hrun & Hwf1 & _ & Hp & Ht & Ho & Hs & _).
    simpl. rewrite Hrun. exec_step.
    destruct (r =? 0).
    + exists s1, children. by repeat (split; [done|]).
    + destruct (well_formed_lookup s1 l job Hwf1 Hin) as [j Hj].
      unfold load. rewrite Hj. exec_step.
      destruct (bool_decide (status j = RUNNING)).
      * destruct (IH s1 Hwf1 Hin)
          as (s2 & rest & Hrun2 & Hwf2 & Hp2 & Ht2 & Ho2 & Hs2).
        exists s2, rest. rewrite Hrun2.
        split; [done|]. split; [done|]. repeat split; congruence.
      * exists s1, children. by repeat (split; [done|]).
Qed.

(** What the command-string update can have done when it returns. *)
Lemma update_job_command_str_returns a apply_bg s s' j :
  heap s !! a = Some j ->
  update_job_command_str a apply_bg s = Ret s' ->
  exists c, s' = with_heap (<[a := set_command c j]> (heap s)) s.
Proof.
  intros Ha. unfold update_job_command_str, load. rewrite Ha. exec_step.
  assert (Hid : s = with_heap (<[a := set_command (command j) j]> (heap s)) s).
  { replace (set_command (command j) j) with j by (by destruct j).
    rewrite insert_id by done. by destruct s. }
  destruct apply_bg.
  - destruct (has_bg_suffix _ _) as [[|]| |]; exec_step; try discriminate.
    intros H. inversion H; subst s'. by eexists.
  - destruct (has_bg_suffix _ _) as [[|]| |]; exec_step; try discriminate.
    + rewrite (store_ret a _ s j) by done. intros H. inversion H. by eexists.
    + intros H. inversion H; subst s'. by eexists.
Qed.

(** *** Concrete tables *)

Lemma one_job_shell_well_formed :
  well_formed Examples.one_job_shell [1%positive].
Proof.
  split.
  - split; [done|]. by exists Examples.sleep_job.
  - intros l1 a l2 j Hl _ _. destruct l1 as [|? [|? ?]]; by inversion Hl.
Qed.

Lemma one_done_job_shell_well_formed :
  well_formed Examples.one_done_job_shell [1%positive].
Proof.
  split.
  - split; [done|]. by exists (set_status DONE Examples.sleep_job).
  - intros l1 a l2 j Hl _ _. destruct l1 as [|? [|? ?]]; by inversion Hl.
Qed.

(** C9.  A reaped child with a positive pid that is the process group of no
    job in the table: [update_job_status] returns the shell unchanged and
    reports progress (1), so the draining loop goes on to the next child as
    if this one had not been reported. *)
Theorem unknown_child_is_skipped
    (s : shell) (l : list ptr) (status_word pid : Z)
    (Htable : table s l)
    (Hpid : 0 < pid)
    (Hunknown : forall a, a ∈ l -> has_pgid s pid a = false) :
  update_job_status status_word pid s = Ret (s, 1) /\
  forall rest,
    update_job_table_statuses ((pid, status_word) :: rest) s =
    update_job_table_statuses rest s.
Proof.
  pose proof (update_job_status_unmatched s l status_word pid
                Htable Hpid Hunknown) as H.
  split; [done|]. intros rest. simpl. by rewrite H.
Qed.

Lemma unknown_child_is_skipped_witness :
  update_job_status Examples.exited_normally 200 Examples.one_job_shell =
    Ret (Examples.one_job_shell, 1) /\
  update_job_table_statuses [(200, Examples.exited_normally); (100, 0)]
    Examples.one_job_shell =
  update_job_table_statuses [(100, 0)] Examples.one_job_shell.
Proof.
  destruct (unknown_child_is_skipped Examples.one_job_shell [1%positive]
              Examples.exited_normally 200) as [H1 H2].
  - apply one_job_shell_well_formed.
  - lia.
  - intros a Ha. apply list_elem_of_singleton in Ha. subst a. reflexivity.
  - split; [exact H1|apply H2].
Defined.

Section Environment.
Variable sys_kill : Z -> Z -> Z.

(** Resuming the picked job: once the command string has been updated, the
    rest of [execute_fg] returns, has printed the command and a newline, and
    has sent SIGCONT to the job's process group and no other signal. *)
Lemma execute_fg_resumes s1 l a ja s2 rest :
  well_formed s1 l ->
  a ∈ l ->
  heap s1 !! a = Some ja ->
  update_job_command_str  a false s1 = Ret s2 ->
  exists s' rest' c,
    (s2 ← update_job_command_str  a false s1;
     most_recent_job_num ← find_most_recent_job_num s2;
     j ← load a s2;
     let is_most_recent_job :=
       bool_decide (most_recent_job_num = job_number j) in
     s3 ← store a (set_status RUNNING) s2;
     s4 ← print_job a is_most_recent_job true true s3;
     s5 ← store a (set_background false) s4;
     continue_background_job sys_kill rest a true s5) = Ret (s', rest') /\
    command <$> (heap s2 !! a) = Some c /\
    stdout s' = stdout s1 +:+ (c +:+ lf) /\
    signals s' = signals s1 ++ [(- pgid ja, SIGCONT)].
Proof.
  intros Hwf Hin Ha Hupd.
  destruct (update_job_command_str_returns _ _ _ _ _ Ha Hupd) as [c ->].
  rewrite Hupd. exec_step.
  set (j2 := set_command c ja).
  set (s2 := with_heap (<[a := j2]> (heap s1)) s1).
  assert (Hwf2 : well_formed s2 l)
    by (by apply (well_formed_store s1 l a ja j2)).
  rewrite (find_most_recent_job_num_spec s2 l) by apply Hwf2. exec_step.
  assert (Ha2 : heap s2 !! a = Some j2) by apply lookup_insert_eq.
  unfold load at 1. rewrite Ha2. exec_step.
  rewrite (store_ret a _ s2 j2) by done. exec_step.
  set (j3 := set_status RUNNING j2).
  set (s3 := with_heap (<[a := j3]> (heap s2)) s2).
  assert (Hwf3 : well_formed s3 l)
    by (by apply (well_formed_store s2 l a j2 j3)).
  assert (Ha3 : heap s3 !! a = Some j3) by apply lookup_insert_eq.
  unfold print_job, load. rewrite Ha3. exec_step. simpl andb. cbv iota.
  set (s4 := printf (command j3 +:+ lf) s3). exec_step.
  rewrite (store_ret a _ s4 j3) by done. exec_step.
  set (j5 := set_background false j3).
  set (s5 := with_heap (<[a := j5]> (heap s4)) s4).
  assert (Hwf5 : well_formed s5 l).
  { by apply (well_formed_store s4 l a j3 j5). }
  assert (Ha5 : heap s5 !! a = Some j5) by apply lookup_insert_eq.
  unfold continue_background_job, load. rewrite Ha5. exec_step.
  change (pgid j5) with (pgid ja).
  set (s6 := record_kill (- pgid ja) SIGCONT s5).
  assert (Hwf6 : well_formed s6 l) by (by apply (well_formed_same_heap s5 s6)).
  destruct (sys_kill (- pgid ja) SIGCONT <? 0).
  - rewrite (store_ret a _ s6 j5) by done. exec_step.
    eexists _, rest, c. split; [done|]. split; [done|]. by split.
  - unfold execute_in_foreground, load.
    change (heap s6 !! a) with (heap s5 !! a). rewrite Ha5. exec_step.
    destruct (execute_in_foreground_loop_well_formed l a rest
                (tcsetpgrp (pgid j5) s6))
      as (s7 & rest' & Hloop & _ & _ & _ & Ho & Hs); [|done|].
    { by apply (well_formed_same_heap s6). }
    rewrite Hloop. exec_step.
    eexists _, rest', c. split; [done|]. split; [done|].
    split; simpl; [by rewrite Ho|by rewrite Hs].
Qed.

(** In a well-formed table [fg] first drains, which returns and leaves
    the same jobs in the table; the job it then picks is the last job of the
    table whose status is not Done.  When there is no such job [fg] does
    nothing more: it returns the drained shell as it is (no command string,
    status or flag is changed, nothing is printed, no signal is sent, the
    terminal is not handed over).  When there is one, it is this job that
    [fg] resumes: provided the command-string update is defined on its
    command, [fg] returns having printed that command and sent SIGCONT to
    that job's process group and to no other. *)
Lemma fg_picks_last_job_not_done
    (s : shell) (l : list ptr) (children : list (Z * Z))
    (Hwf : well_formed s l) :
  exists s1 rest,
    update_job_table_statuses children s = Ret (s1, rest) /\
    table s1 l /\
    find_next_job_to_fg s1 = Ret (last_not_done s1 l) /\
    (last_not_done s1 l = None ->
     execute_fg sys_kill children s = Ret (s1, rest)) /\
    (children = [] -> s1 = s) /\
    (forall a ja s2,
        last_not_done s1 l = Some a ->
        heap s1 !! a = Some ja ->
        update_job_command_str  a false s1 = Ret s2 ->
        exists s' rest' c,
          execute_fg sys_kill children s = Ret (s', rest') /\
          command <$> (heap s2 !! a) = Some c /\
          stdout s' = stdout s1 +:+ (c +:+ lf) /\
          signals s' = signals s1 ++ [(- pgid ja, SIGCONT)]).
Proof.
  destruct (update_job_table_statuses_well_formed l children s Hwf)
    as (s1 & rest & Hrun & Hwf1 & _).
  exists s1, rest. split; [done|]. split; [apply Hwf1|].
  pose proof (find_next_job_to_fg_spec s1 l (proj1 Hwf1)) as Hfind.
  split; [done|]. split; [|split].
  - intros Hnone. unfold execute_fg. rewrite Hrun. exec_step.
    rewrite Hfind, Hnone. done.
  - intros ->. simpl in Hrun. by inversion Hrun.
  - intros a ja s2 Hsome Ha Hupd.
    assert (Hin : a ∈ l).
    { unfold last_not_done in Hsome. apply last_Some in Hsome as [l' Hl'].
      assert (Hin : a ∈ List.filter (not_done s1) l).
      { rewrite Hl'. apply elem_of_app. right. by left. }
      apply list_elem_of_In, filter_In in Hin as [Hin _].
      by apply list_elem_of_In. }
    destruct (execute_fg_resumes s1 l a ja s2 rest Hwf1 Hin Ha Hupd)
      as (s' & rest' & c & Hrest & Hc & Ho & Hs).
    exists s', rest', c. split; [|done].
    unfold execute_fg. rewrite Hrun. exec_step. rewrite Hfind, Hsome.
    exact Hrest.
Qed.

(** When [readline] returns NULL in a well-formed table, the turn of
    the prompt loop drains, frees every job of the table and ends in
    [exit(EXIT_SUCCESS)], that is exit status 0; nothing else on the heap is
    released. *)
Lemma end_of_input_frees_table_and_exits
    (s : shell) (l : list ptr) (children : list (Z * Z)) (fork_result : Z)
    (Hwf : well_formed s l) :
  exists s1 rest s2,
    update_job_table_statuses children s = Ret (s1, rest) /\
    table s1 l /\
    main_iteration sys_kill None fork_result children s =
      Ret (Exit 0 s2) /\
    (forall a, a ∈ l -> heap s2 !! a = None) /\
    (forall a, a ∉ l -> heap s2 !! a = heap s1 !! a).
Proof.
  destruct (update_job_table_statuses_well_formed l children s Hwf)
    as (s1 & rest & Hrun & Hwf1 & _).
  exists s1, rest,
    (with_heap (fold_left (fun h a => delete a h) l (heap s1)) s1).
  split; [done|]. split; [apply Hwf1|]. split.
  - unfold main_iteration. rewrite Hrun. exec_step.
    by rewrite (free_job_table_spec s1 l) by apply Hwf1.
  - split; intros a Ha; simpl; rewrite fold_delete_lookup.
    + by rewrite bool_decide_true.
    + by rewrite bool_decide_false.
Qed.

(** With nothing to reconcile, every table that is a NULL-terminated list
    will do: [fg] picks its last job that is not Done, and does nothing when
    there is none. *)
Lemma fg_with_nothing_to_reconcile (s : shell) (l : list ptr) :
  table s l ->
  find_next_job_to_fg s = Ret (last_not_done s l) /\
  (last_not_done s l = None -> execute_fg sys_kill [] s = Ret (s, [])).
Proof.
  intros Ht. pose proof (find_next_job_to_fg_spec s l Ht) as Hfind.
  split; [done|]. intros Hnone. unfold execute_fg. simpl. exec_step.
  by rewrite Hfind, Hnone.
Qed.

(** With nothing to reconcile, end of input frees every job of such a table
    and leaves through [exit(0)]. *)
Lemma end_of_input_with_nothing_to_reconcile
    (s : shell) (l : list ptr) (fork_result : Z) :
  table s l ->
  main_iteration sys_kill None fork_result [] s =
    Ret (Exit 0 (with_heap (fold_left (fun h a => delete a h) l (heap s)) s)).
Proof.
  intros Ht. unfold main_iteration. simpl. exec_step.
  by rewrite (free_job_table_spec s l).
Qed.

End Environment.

Lemma fg_picks_last_job_not_done_witness :
  well_formed Examples.one_done_job_shell [1%positive] /\
  execute_fg Examples.kill_succeeds [] Examples.one_done_job_shell =
    Ret (Examples.one_done_job_shell, []).
Proof.
  split; [apply one_done_job_shell_well_formed|].
  destruct (fg_picks_last_job_not_done Examples.kill_succeeds
              Examples.one_done_job_shell [1%positive] []
              one_done_job_shell_well_formed)
    as (s1 & rest & Hdrain & _ & _ & Hnone & Hsame & _).
  rewrite (Hsame eq_refl) in Hnone.
  simpl in Hdrain. inversion Hdrain; subst rest.
  apply Hnone. reflexivity.
Defined.

Lemma end_of_input_frees_table_and_exits_witness :
  well_formed Examples.one_job_shell [1%positive] /\
  exists s2,
    main_iteration Examples.kill_succeeds None 0 [(100, 0)]
      Examples.one_job_shell = Ret (Exit 0 s2) /\
    heap s2 !! 1%positive = None.
Proof.
  split; [apply one_job_shell_well_formed|].
  destruct (end_of_input_frees_table_and_exits Examples.kill_succeeds
              Examples.one_job_shell [1%positive] [(100, 0)] 0
              one_job_shell_well_formed)
    as (s1 & rest & s2 & _ & _ & Hmain & Hfreed & _).
  exists s2. split; [exact Hmain|]. apply Hfreed. by left.
Defined.

(** C2 (the program departs from the claim).  The job with the foreground
    number is stopped by SIGTSTP while a newer job is still in the table.
    [update_job_status] marks it Stopped and background and gives it the
    number after the largest background number (here 2), but [remove_job]
    has left its [next] pointing at the newer job, and [add_job] links the
    newer job back to it: the job is not at the tail, the [next] pointers
    form a cycle, no sequence of jobs is the table any more, and the next
    walk over the table never ends. *)
Theorem requeued_job_keeps_stale_next :
  table Examples.pipeline_then_sleep_shell [1%positive; 2%positive] /\
  update_job_status Examples.stopped_by_SIGTSTP 10
    Examples.pipeline_then_sleep_shell = Ret (Examples.cyclic_shell, 1) /\
  heap Examples.cyclic_shell !! 1%positive =
    Some (set_job_number 2
            (set_background true
               (set_status STOPPED Examples.resumed_pipeline))) /\
  next <$> heap Examples.cyclic_shell !! 1%positive = Some (Some 2%positive) /\
  next <$> heap Examples.cyclic_shell !! 2%positive = Some (Some 1%positive) /\
  job_list_head Examples.cyclic_shell = Some 2%positive /\
  find_most_recent_job_num Examples.cyclic_shell = Diverge /\
  forall l, ~ table Examples.cyclic_shell l.
Proof.
  split.
  { split; [done|]. exists Examples.resumed_pipeline. split; [done|].
    split; [done|]. by exists Examples.finished_sleep. }
  split; [vm_compute; reflexivity|].
  split; [vm_compute; reflexivity|].
  split; [vm_compute; reflexivity|].
  split; [vm_compute; reflexivity|].
  split; [vm_compute; reflexivity|].
  assert (Hdiv : find_most_recent_job_num Examples.cyclic_shell = Diverge)
    by (vm_compute; reflexivity).
  split; [exact Hdiv|].
  intros l Hl. apply find_most_recent_job_num_spec in Hl.
  rewrite Hdiv in Hl. discriminate.
Qed.

(** C7 (the program departs from the claim).  [cat | cat], started in the
    foreground, is stopped by SIGTTOU and keeps the foreground number;
    [sleep 2 &] is started.  In the table [main] then holds, a list of two
    jobs, the last job that is not Done is [sleep 2 &], and that is the job
    [find_next_job_to_fg] returns.  But [fg] drains first: when the drain
    has a stop of [cat | cat] by SIGTSTP to reconcile, the requeue of
    [update_job_status] makes the list cyclic, the walk of
    [find_next_job_to_fg] never ends, and [fg] selects no job at all. *)
Theorem fg_hangs_when_its_drain_requeues :
  main Examples.kill_succeeds 50 40 0 Examples.pipeline_stopped_then_sleep
    = Ret (Loop Examples.stopped_pipeline_then_sleep_shell []) /\
  table Examples.stopped_pipeline_then_sleep_shell [1%positive; 2%positive] /\
  find_next_job_to_fg Examples.stopped_pipeline_then_sleep_shell
    = Ret (Some 2%positive) /\
  (exists s1,
     update_job_table_statuses [(10, Examples.stopped_by_SIGTSTP)]
       Examples.stopped_pipeline_then_sleep_shell = Ret (s1, []) /\
     find_next_job_to_fg s1 = Diverge) /\
  execute_fg Examples.kill_succeeds [(10, Examples.stopped_by_SIGTSTP)]
    Examples.stopped_pipeline_then_sleep_shell = Diverge /\
  main Examples.kill_succeeds 50 40 0 Examples.fg_with_stop_to_report
    = Diverge.
Proof.
  split; [vm_compute; reflexivity|].
  split.
  { split; [done|]. eexists. split; [reflexivity|].
    split; [done|]. eexists. split; [reflexivity|]. done. }
  split; [vm_compute; reflexivity|].
  split; [eexists; split; vm_compute; reflexivity|].
  split; vm_compute; reflexivity.
Qed.

(** C8 (the program departs from the claim).  In the same table, end of
    input arrives while a stop of [cat | cat] by SIGTSTP is waiting to be
    reported.  The drain at the top of the loop requeues the job and makes
    the list cyclic; [free_job_table] then frees [sleep 2 &], frees
    [cat | cat], and follows its stale [next] back to the job it has freed
    already.  The shell does not reach [exit(EXIT_SUCCESS)]. *)
Theorem end_of_input_after_requeue_frees_a_job_twice :
  main Examples.kill_succeeds 50 40 0 Examples.pipeline_stopped_then_sleep
    = Ret (Loop Examples.stopped_pipeline_then_sleep_shell []) /\
  (exists s1,
     update_job_table_statuses [(10, Examples.stopped_by_SIGTSTP)]
       Examples.stopped_pipeline_then_sleep_shell = Ret (s1, []) /\
     next <$> heap s1 !! 2%positive = Some (Some 1%positive) /\
     next <$> heap s1 !! 1%positive = Some (Some 2%positive) /\
     free_job_table s1 = Fault) /\
  main_iteration Examples.kill_succeeds None 0
    [(10, Examples.stopped_by_SIGTSTP)]
    Examples.stopped_pipeline_then_sleep_shell = Fault /\
  main Examples.kill_succeeds 50 40 0 Examples.eof_with_stop_to_report
    = Fault.
Proof.
  split; [vm_compute; reflexivity|].
  split; [eexists; repeat split; vm_compute; reflexivity|].
  split; vm_compute; reflexivity.
Qed.

(** *** The command string *)

Lemma append_cons (c : ascii) (p q : string) :
  String c p +:+ q = String c (p +:+ q).
Proof. reflexivity. Qed.

Lemma length_append (p q : string) :
  String.length (p +:+ q) = (String.length p + String.length q)%nat.
Proof. induction p as [|c p IH]; simpl; [done|]. by rewrite IH. Qed.

Lemma get_append_right (p q : string) (k : nat) :
  String.get (String.length p + k) (p +:+ q) = String.get k q.
Proof. rewrite Nat.add_comm. symmetry. apply append_correct2. Qed.

Lemma substring_append_left (p q : string) :
  substring 0 (String.length p) (p +:+ q) = p.
Proof.
  induction p as [|c p IH]; [by destruct q|].
  rewrite append_cons. simpl. by rewrite IH.
Qed.

Lemma append_empty_r (p : string) : p +:+ "" = p.
Proof. induction p as [|c p IH]; [done|]. by rewrite append_cons, IH. Qed.

(** A string of two or more characters is a prefix and two characters. *)
Lemma string_last_two (c : string) :
  (2 <= String.length c)%nat ->
  exists p c2 c1, c = p +:+ String c2 (String c1 "").
Proof.
  induction c as [|x c IH]; simpl; [lia|]. intros Hlen.
  destruct c as [|y [|z c]].
  - simpl in Hlen. lia.
  - by exists "", x, y.
  - destruct IH as (p & c2 & c1 & Hp); [simpl; lia|].
    exists (String x p), c2, c1. by rewrite append_cons, <- Hp.
Qed.

Lemma char_at_append_right (p q : string) (k : nat) (x : ascii) :
  String.get k q = Some x ->
  char_at (p +:+ q) (Z.of_nat (String.length p + k)) = Ret x.
Proof.
  intros H. unfold char_at.
  destruct (Z.ltb_spec (Z.of_nat (String.length p + k)) 0) as [?|_]; [lia|].
  by rewrite Nat2Z.id, get_append_right, H.
Qed.

(** The suffix test on a string of two or more characters. *)
Lemma has_bg_suffix_last_two (p : string) (c2 c1 : ascii) :
  has_bg_suffix (p +:+ String c2 (String c1 ""))
    (Z.of_nat (String.length (p +:+ String c2 (String c1 "")))) =
  Ret (bool_decide (c1 = "&"%char) && bool_decide (c2 = " "%char)).
Proof.
  unfold has_bg_suffix. rewrite length_append. simpl String.length.
  replace (Z.of_nat (String.length p + 2) - 1)
    with (Z.of_nat (String.length p + 1)) by lia.
  replace (Z.of_nat (String.length p + 2) - 2)
    with (Z.of_nat (String.length p + 0)) by lia.
  rewrite (char_at_append_right p _ 1 c1) by done. exec_step.
  destruct (bool_decide (c1 = "&"%char)); [|done].
  by rewrite (char_at_append_right p _ 0 c2) by done.
Qed.

(** On a command that does not end in " &", and whose last two characters
    can be read inside the buffer, the suffix test says no. *)
Lemma has_bg_suffix_plain (c : string) :
  (forall p, c <> p +:+ " &") ->
  c <> "" -> c <> "&" ->
  has_bg_suffix c (Z.of_nat (String.length c)) = Ret false.
Proof.
  intros Hplain Hne Hamp.
  destruct c as [|x [|y c]]; [done| |].
  - unfold has_bg_suffix, char_at. simpl.
    rewrite bool_decide_false; [done|]. intros ->. done.
  - destruct (string_last_two (String x (String y c))) as (p & c2 & c1 & Hp);
      [simpl; lia|].
    rewrite Hp, has_bg_suffix_last_two.
    destruct (decide (c1 = "&"%char)) as [->|?];
      [|by rewrite bool_decide_false].
    destruct (decide (c2 = " "%char)) as [->|?];
      [|by rewrite (bool_decide_false (c2 = _)), andb_false_r].
    by destruct (Hplain p).
Qed.

(** The command of every job that [main] builds can be read by the suffix
    test: an empty line has no token, and the line [&] is refused by the
    parser. *)
Lemma parsed_command_is_readable cmd toks len j0 o :
  Parser.parse_command cmd = Ret (toks, len) ->
  len <> 0 ->
  Parser.process_input len toks j0 = Ret o ->
  Parser.ret o = SUCCESS ->
  cmd <> "" /\ cmd <> "&".
Proof.
  intros Hparse Hlen Hrun Hok. split; intros ->.
  - vm_compute in Hparse. inversion Hparse. by subst.
  - vm_compute in Hparse. inversion Hparse. subst toks len.
    vm_compute in Hrun. inversion Hrun. subst o. discriminate.
Qed.

(** The array [bg_suffix] holds no NUL: read as a C string, it is read past
    its end. *)
Lemma c_string_bg_suffix : c_string bg_suffix = Fault.
Proof. reflexivity. Qed.

(** In the background direction the update has a defined result only on a
    command that already ends in " &".  On any other command whose last two
    characters can be read, [strcat] is handed [bg_suffix] and reads past
    the end of the array. *)
Lemma update_job_command_str_reads_past_bg_suffix s a j :
  heap s !! a = Some j ->
  (forall p, command j <> p +:+ " &") ->
  command j <> "" -> command j <> "&" ->
  update_job_command_str a true s = Fault.
Proof.
  intros Hjob Hplain Hne Hamp.
  unfold update_job_command_str, load. rewrite Hjob. exec_step.
  rewrite has_bg_suffix_plain by done. exec_step.
  by rewrite c_string_bg_suffix.
Qed.

(** The foreground direction does its half: on a command to which " &" has
    been appended it gives back the shell with the command as it was. *)
Lemma update_job_command_str_strips_suffix s a j :
  heap s !! a = Some j ->
  update_job_command_str a false
    (with_heap (<[a := set_command (command j +:+ " &") j]> (heap s)) s) =
  Ret s.
Proof.
  intros Hjob. set (c := command j) in *.
  unfold update_job_command_str, load. simpl heap.
  rewrite lookup_insert_eq. exec_step. simpl command.
  change (c +:+ " &") with (c +:+ String " " (String "&" "")).
  rewrite has_bg_suffix_last_two. exec_step.
  rewrite !bool_decide_true by done. simpl negb. cbv iota.
  rewrite (store_ret a _ _ (set_command (c +:+ " &") j))
    by (simpl; apply lookup_insert_eq).
  f_equal. rewrite length_append. simpl String.length.
  replace (Z.to_nat (Z.of_nat (String.length c + 2) - 2))
    with (String.length c) by lia.
  rewrite substring_append_left.
  unfold with_heap. simpl. rewrite insert_insert_eq.
  replace (set_command c (set_command (c +:+ " &") j)) with j
    by (subst c; by destruct j).
  rewrite insert_id by done. by destruct s.
Qed.

(** C3 (the program departs from the claim).  [sleep 30] has been stopped by
    Ctrl-Z; its command does not end in " &".  The update in the background
    direction, the one [bg] makes, does not give the command with " &"
    appended: [strcat] copies from the two-byte array [bg_suffix] as from a
    C string and reads past its end, so the command has no defined value
    afterwards and there is nothing for the foreground direction to restore.
    [bg] on this table, and the run [sleep 30], Ctrl-Z, [bg] of the whole
    shell, end in the same read. *)
Theorem background_suffix_has_no_terminator :
  command <$> heap Examples.stopped_sleep_shell !! 1%positive
    = Some "sleep 30" /\
  has_bg_suffix "sleep 30" 8 = Ret false /\
  c_string bg_suffix = Fault /\
  update_job_command_str 1%positive true Examples.stopped_sleep_shell
    = Fault /\
  execute_bg Examples.kill_succeeds [] Examples.stopped_sleep_shell
    = Fault /\
  main Examples.kill_succeeds 50 40 0 Examples.stop_then_bg = Fault.
Proof. repeat split; vm_compute; reflexivity. Qed.

End ShellProofs.

(** ** Runs of the whole shell *)

Module Scenarios.
Import Jobs Shell.

(** [sleep 30 &] and then [jobs]. *)
Example one_background_job_listed :
  printed_at_prompt
    (main Examples.kill_succeeds 50 40 0 Examples.one_background_job_then_jobs)
  = Some ("[1]+" +:+ tab +:+ "Running" +:+ tab +:+ tab +:+ tab
          +:+ "sleep 30 &" +:+ lf).
Proof. vm_compute. reflexivity. Qed.

(** [sleep 30 &], [sleep 60 &] and then [jobs]. *)
Example two_background_jobs_listed :
  printed_at_prompt
    (main Examples.kill_succeeds 50 40 0 Examples.two_background_jobs_then_jobs)
  = Some ("[1]-" +:+ tab +:+ "Running" +:+ tab +:+ tab +:+ tab
          +:+ "sleep 30 &" +:+ lf
          +:+ "[2]+" +:+ tab +:+ "Running" +:+ tab +:+ tab +:+ tab
          +:+ "sleep 60 &" +:+ lf).
Proof. vm_compute. reflexivity. Qed.

(** [cat &] is stopped when it reads the terminal; [bg] continues it. *)
Example stopped_job_sent_to_background :
  main Examples.kill_succeeds 50 40 0 Examples.background_cat_then_bg
  = Ret (Loop {| heap := {[ 1%positive :=
                             {| pgid := 100; command := "cat &";
                                job_number := 1; background := true;
                                status := RUNNING;
                                first_process :=
                                  Some (set_argv 0 "cat" zero_process);
                                second_process := None; next := None |} ]};
                 job_list_head := Some 1%positive; shell_pid := 50;
                 tty_pgrp := 50;
                 stdout := "[1]+" +:+ tab +:+ "cat &" +:+ lf;
                 signals := [(-100, SIGCONT)] |} []).
Proof. vm_compute. reflexivity. Qed.

(** [ls], [jobs] (which prints nothing), end of input: exit status 0 and an
    empty heap. *)
Example foreground_job_then_end_of_input :
  main Examples.kill_succeeds 50 40 0 Examples.ls_then_jobs_then_eof
  = Ret (Exit 0 {| heap := ∅; job_list_head := None; shell_pid := 50;
                   tty_pgrp := 50; stdout := ""; signals := [] |}).
Proof. vm_compute. reflexivity. Qed.

(** A foreground pipeline stopped by SIGTTOU keeps the foreground job
    number; a job started after it is still in the table when [fg] resumes
    the pipeline and Ctrl-Z stops it: the table becomes cyclic and the shell
    never comes back to the prompt. *)
Example requeued_pipeline_hangs :
  main Examples.kill_succeeds 50 40 0 Examples.ctrl_z_after_fg = Diverge.
Proof. vm_compute. reflexivity. Qed.

(** A failed [setpgid] at startup ends the shell with status 1. *)
Example startup_failure_exits_1 :
  exists s, main Examples.kill_succeeds 50 40 (-1) [] = Ret (Exit 1 s).
Proof. by eexists. Qed.

End Scenarios.

(** ** The tokenizer *)

Module TokenizerProofs.
Import Parser Notions.

Lemma append_assoc_char (p : string) (c : ascii) (q : string) :
  (p +:+ String c "") +:+ q = p +:+ String c q.
Proof.
  induction p as [|d p IH]; [done|].
  by rewrite !ShellProofs.append_cons, IH.
Qed.

Lemma delimiter_free_append (p q : string) :
  delimiter_free (p +:+ q) = delimiter_free p && delimiter_free q.
Proof.
  induction p as [|c p IH]; [done|].
  rewrite ShellProofs.append_cons. simpl. rewrite IH.
  by destruct (is_delimiter c), (delimiter_free p).
Qed.

Lemma append_nonempty (p : string) (c : ascii) : p +:+ String c "" <> "".
Proof. by destruct p. Qed.

Lemma strtok_all_word (t : string) : forall s token,
  delimiter_free t = true ->
  strtok_all (t +:+ s) token = strtok_all s (token +:+ t).
Proof.
  induction t as [|c t IH]; intros s token Ht.
  - by rewrite ShellProofs.append_empty_r.
  - simpl in Ht. apply andb_true_iff in Ht as [Hc Ht].
    rewrite ShellProofs.append_cons. simpl.
    destruct (is_delimiter c); [done|].
    rewrite IH by done. by rewrite append_assoc_char.
Qed.

Lemma strtok_all_blank (b : string) : forall token,
  is_blank b = true ->
  strtok_all b token = if bool_decide (token = "") then [] else [token].
Proof.
  induction b as [|c b IH]; intros token Hb; [done|].
  simpl in Hb. apply andb_true_iff in Hb as [Hc Hb].
  simpl. rewrite Hc, IH by done.
  simpl. by rewrite app_nil_r.
Qed.

Lemma strtok_all_leading_blank (b : string) : forall s,
  is_blank b = true ->
  strtok_all (b +:+ s) "" = strtok_all s "".
Proof.
  induction b as [|c b IH]; intros s Hb; [done|].
  simpl in Hb. apply andb_true_iff in Hb as [Hc Hb].
  rewrite ShellProofs.append_cons. simpl. rewrite Hc. simpl. by apply IH.
Qed.

Lemma strtok_all_trailing_blank (b : string) : forall s token,
  is_blank b = true ->
  strtok_all (s +:+ b) token = strtok_all s token.
Proof.
  intros s. induction s as [|c s IH]; intros token Hb.
  - simpl. rewrite strtok_all_blank by done. by destruct token.
  - rewrite ShellProofs.append_cons. simpl.
    destruct (is_delimiter c); by rewrite IH.
Qed.

Lemma is_word_inv (t : string) :
  is_word t = true -> t <> "" /\ delimiter_free t = true.
Proof.
  unfold is_word. intros [Hne Hd]%andb_true_iff. split; [|done].
  intros ->. done.
Qed.

Lemma strtok_all_unwords : forall toks,
  Forall (fun t => is_word t = true) toks ->
  strtok_all (unwords toks) "" = toks.
Proof.
  induction toks as [|t rest IH]; intros Hw; [done|].
  apply Forall_cons in Hw as [Ht Hrest].
  apply is_word_inv in Ht as [Hne Hd].
  destruct rest as [|t2 rest].
  - simpl. rewrite <- (ShellProofs.append_empty_r t) at 1.
    rewrite strtok_all_word by done. simpl.
    by rewrite bool_decide_false.
  - change (unwords (t :: t2 :: rest))
      with (t +:+ " " +:+ unwords (t2 :: rest)).
    rewrite strtok_all_word by done.
    change (" " +:+ unwords (t2 :: rest))
      with (String " " (unwords (t2 :: rest))).
    cbn [strtok_all]. change (is_delimiter " ") with true. cbn iota.
    rewrite IH by done. simpl. by rewrite bool_decide_false.
Qed.

Lemma strtok_all_words : forall s token,
  delimiter_free token = true ->
  Forall (fun t => is_word t = true) (strtok_all s token).
Proof.
  induction s as [|c s IH]; intros token Hd.
  - simpl. case_bool_decide as Hne; [constructor|].
    repeat constructor. unfold is_word. rewrite Hd, andb_true_r.
    apply negb_true_iff, String.eqb_neq. done.
  - simpl. destruct (is_delimiter c) eqn:Hc.
    + apply Forall_app. split; [|by apply IH].
      case_bool_decide as Hne; [constructor|].
      repeat constructor. unfold is_word. rewrite Hd, andb_true_r.
      apply negb_true_iff, String.eqb_neq. done.
    + apply IH. rewrite delimiter_free_append, Hd. simpl. by rewrite Hc.
Qed.

(** X2. Tokenizing undoes joining: a list of words joined by single spaces,
    with any run of spaces and tabs before and after, is split into exactly
    those words; [parse_command] returns them with their number when there
    are fewer than [MAX_ARGS], and writes outside the caller's array
    otherwise. *)
Theorem joined_words_parse_back
    (toks : list string) (lead trail : string)
    (Hwords : Forall (fun t => is_word t = true) toks)
    (Hlead : is_blank lead = true)
    (Htrail : is_blank trail = true) :
  strtok_all (lead +:+ unwords toks +:+ trail) "" = toks /\
  parse_command (lead +:+ unwords toks +:+ trail) =
    if Z.of_nat (length toks) <? MAX_ARGS
    then Ret (toks, Z.of_nat (length toks))
    else Fault.
Proof.
  assert (Hsplit : strtok_all (lead +:+ unwords toks +:+ trail) "" = toks).
  { rewrite strtok_all_leading_blank, strtok_all_trailing_blank by done.
    by apply strtok_all_unwords. }
  split; [done|]. unfold parse_command. by rewrite Hsplit.
Qed.

Lemma joined_words_parse_back_witness :
  parse_command (" " +:+ unwords ["sleep"; "30"; "&"] +:+ "  ") =
    Ret (["sleep"; "30"; "&"], 3).
Proof.
  refine (proj2 (joined_words_parse_back ["sleep"; "30"; "&"] " " "  " _ _ _)).
  - repeat constructor.
  - reflexivity.
  - reflexivity.
Defined.

End TokenizerProofs.

(** ** The parser on whole command lines *)

Module ParserResults.
Import Parser Notions.

Section Loop.
Variable len : Z.
Variable toks : list string.

Lemma token_at_Some i :
  0 <= i < Z.of_nat (length toks) -> is_Some (token_at toks i).
Proof.
  intros Hi. unfold token_at.
  destruct (i <? 0) eqn:Hneg; [apply Z.ltb_lt in Hneg; lia|].
  apply lookup_lt_is_Some. lia.
Qed.

Lemma body_in_bounds st :
  len = Z.of_nat (length toks) ->
  len <= MAX_ARGS + 1 ->
  ind st < len ->
  cursors_ordered st ->
  match process_input_body len toks st with
  | Continue st' => cursors_ordered st'
  | Return o =>
      ret o = COMMAND_PROCESSING_ERROR /\
      In (printed o) process_input_messages /\
      parsed_job o = job st
  | Crash => False
  end.
Proof.
  intros Hlen Hfit Hlt [H0 Hle].
  unfold process_input_body, redirect_branch.
  destruct (token_at_Some (ind st)) as [tok ->]; [lia|].
  assert (Hnext : (ind st + 1 =? len) = false ->
                  is_Some (token_at toks (ind st + 1))).
  { intros Hne%Z.eqb_neq. apply token_at_Some. lia. }
  unfold process_input_messages, cursors_ordered.
  repeat match goal with
         | |- context [if ?b then _ else _] => destruct b eqn:?
         end;
    simpl; try (by auto 10);
    try match goal with
        | H : _ || _ = false |- _ =>
            apply orb_false_iff in H as [? Hn];
            try (destruct (Hnext Hn) as [f ->]; simpl; lia)
        end;
    try lia.
Qed.

Lemma loop_in_bounds fuel : forall st,
  len = Z.of_nat (length toks) ->
  len <= MAX_ARGS + 1 ->
  cursors_ordered st ->
  (Z.to_nat (len - ind st) < fuel)%nat ->
  exists o,
    process_input_loop fuel len toks st = Ret o /\
    (ret o = SUCCESS /\ printed o = "" \/
     ret o = COMMAND_PROCESSING_ERROR /\
     In (printed o) process_input_messages).
Proof.
  induction fuel as [|fuel IH]; intros st Hlen Hfit Hord Hfuel; [lia|].
  simpl. destruct (ind st <? len) eqn:Hlt.
  - apply Z.ltb_lt in Hlt.
    pose proof (body_in_bounds st Hlen Hfit Hlt Hord) as Hbody.
    destruct (process_input_body len toks st) as [st'|o|] eqn:Hb.
    + apply IH; try done.
      apply ParserProofs.body_advances in Hb. lia.
    + exists o. split; [done|]. right. tauto.
    + done.
  - eexists. split; [done|]. by left.
Qed.

Lemma token_at_middle (pre post : list string) (tok : string) :
  token_at (pre ++ tok :: post) (Z.of_nat (length pre)) = Some tok.
Proof.
  unfold token_at.
  destruct (Z.of_nat (length pre) <? 0) eqn:Hneg;
    [apply Z.ltb_lt in Hneg; lia|].
  rewrite Nat2Z.id. by apply list_lookup_middle.
Qed.

Lemma is_operator_false (tok : string) :
  is_operator tok = false ->
  String.eqb tok INPUT_REDIRECT = false /\
  String.eqb tok OUTPUT_REDIRECT = false /\
  String.eqb tok ERROR_REDIRECT = false /\
  String.eqb tok PIPE = false /\
  String.eqb tok SEND_TO_BACKGROUND = false.
Proof.
  unfold is_operator. intros H.
  repeat (apply orb_false_iff in H as [H ?]). tauto.
Qed.

(** A turn over an ordinary token stores it in the next [argv] slot. *)
Lemma body_word st tok :
  token_at toks (ind st) = Some tok ->
  is_operator tok = false ->
  0 <= argv_ind st < MAX_ARGS + 1 ->
  process_input_body len toks st =
    Continue (advance (with_process
                         (set_argv (argv_ind st) tok (process st)) st)).
Proof.
  intros Htok (H1 & H2 & H3 & H4 & H5)%is_operator_false Hin.
  unfold process_input_body. rewrite Htok, H1, H2, H3, H4, H5.
  destruct ((0 <=? argv_ind st) && (argv_ind st <? MAX_ARGS + 1)) eqn:Hb;
    [done|lia].
Qed.

Lemma reaches_trans n : forall m st st1 st2,
  reaches n len toks st = Some st1 ->
  reaches m len toks st1 = Some st2 ->
  reaches (n + m) len toks st = Some st2.
Proof.
  induction n as [|n IH]; intros m st st1 st2 H1 H2; simpl in *.
  - by inversion H1.
  - destruct (ind st <? len); [|discriminate].
    destruct (process_input_body len toks st); try discriminate.
    by eapply IH.
Qed.

(** A completed turn began before the end of the tokens. *)
Lemma reaches_turns n : forall st st',
  reaches n len toks st = Some st' ->
  n = 0%nat \/ ind st + Z.of_nat n <= len.
Proof.
  induction n as [|n IH]; intros st st' H; [by left|]. right.
  simpl in H. destruct (ind st <? len) eqn:Hlt; [|discriminate].
  apply Z.ltb_lt in Hlt.
  destruct (process_input_body len toks st) as [st1| |] eqn:Hb;
    try discriminate.
  apply ParserProofs.body_advances in Hb.
  destruct (IH _ _ H) as [->|Hn]; lia.
Qed.

(** A run of ordinary tokens fills consecutive [argv] slots and changes
    nothing else. *)
Lemma words_reach : forall ws pre post st,
  toks = pre ++ ws ++ post ->
  ind st = Z.of_nat (length pre) ->
  Forall (fun t => is_operator t = false) ws ->
  0 <= argv_ind st ->
  argv_ind st + Z.of_nat (length ws) <= MAX_ARGS + 1 ->
  Z.of_nat (length pre + length ws) <= len ->
  exists st',
    reaches (length ws) len toks st = Some st' /\
    ind st' = ind st + Z.of_nat (length ws) /\
    argv_ind st' = argv_ind st + Z.of_nat (length ws) /\
    creating_second_process st' = creating_second_process st /\
    job st' = job st /\
    argv (process st') =
      list_inserts (Z.to_nat (argv_ind st)) (Some <$> ws) (argv (process st)) /\
    redirect_input_filename (process st') =
      redirect_input_filename (process st) /\
    redirect_output_filename (process st') =
      redirect_output_filename (process st) /\
    redirect_error_filename (process st') =
      redirect_error_filename (process st).
Proof.
  induction ws as [|w ws IH]; intros pre post st Htoks Hind Hws H0 Hfit Hlen.
  - exists st. simpl. repeat split; lia.
  - apply Forall_cons in Hws as [Hw Hws].
    simpl in Hfit, Hlen.
    assert (Htok : token_at toks (ind st) = Some w).
    { rewrite Htoks, Hind. apply token_at_middle. }
    destruct (IH (pre ++ [w]) post
                (advance (with_process
                            (set_argv (argv_ind st) w (process st)) st)))
      as (st' & Hr & Hi & Ha & Hc & Hj & Hargv & Hri & Hro & Hre).
    + rewrite Htoks. by rewrite <- app_assoc.
    + simpl. rewrite Hind, length_app. simpl. lia.
    + done.
    + simpl. lia.
    + simpl. lia.
    + rewrite length_app. simpl. lia.
    + exists st'. cbn [reaches length].
      destruct (ind st <? len) eqn:Hlt; [|apply Z.ltb_ge in Hlt; lia].
      rewrite (body_word st w Htok Hw) by lia.
      simpl in Hi, Ha, Hc, Hj, Hargv, Hri, Hro, Hre.
      repeat split; try done; try lia.
      rewrite Hargv. cbn [fmap list_fmap list_inserts].
      replace (Z.to_nat (argv_ind st + 1)) with (S (Z.to_nat (argv_ind st)))
        by lia.
      by rewrite list_insert_inserts_lt by lia.
Qed.

(** When the loop head is reached with the cursor at the end, the parser
    returns what [process_input_finish] builds. *)
Lemma loop_finishes n st0 st :
  reaches n len toks st0 = Some st ->
  ind st0 = 0 ->
  0 <= len <= ind st ->
  process_input_loop (S (Z.to_nat len)) len toks st0 =
    Ret (process_input_finish st).
Proof.
  intros Hr H0 Hend.
  assert (Hn : (n <= Z.to_nat len)%nat).
  { destruct (reaches_turns _ _ _ Hr); lia. }
  replace (S (Z.to_nat len)) with (n + S (Z.to_nat len - n))%nat by lia.
  rewrite (ParserProofs.loop_reaches len toks n _ _ _ Hr). simpl.
  destruct (ind st <? len) eqn:Hlt; [apply Z.ltb_lt in Hlt; lia|done].
Qed.

End Loop.

(** X3. [process_input] is safe on every token list that fits [argv]
    ([MAX_ARGS + 1] slots; [parse_command] never returns more than
    [MAX_ARGS - 1] tokens): it reads no token past the end of the list,
    writes no [argv] slot outside the array, and returns either [SUCCESS]
    having printed nothing or [COMMAND_PROCESSING_ERROR] having printed one
    of its five messages. *)
Theorem process_input_returns_an_outcome
    (toks : list string) (j : job_t)
    (Hfit : Z.of_nat (length toks) <= MAX_ARGS + 1) :
  exists o,
    process_input (Z.of_nat (length toks)) toks j = Ret o /\
    (ret o = SUCCESS /\ printed o = "" \/
     ret o = COMMAND_PROCESSING_ERROR /\
     In (printed o) process_input_messages).
Proof.
  unfold process_input.
  apply loop_in_bounds;
    first [done | unfold cursors_ordered; simpl; lia].
Qed.

Lemma process_input_returns_an_outcome_witness :
  exists o,
    process_input 3 ["cat"; "<"; "<"] (zero_job "cat < <") = Ret o /\
    (ret o = SUCCESS /\ printed o = "" \/
     ret o = COMMAND_PROCESSING_ERROR /\
     In (printed o) process_input_messages).
Proof.
  apply (process_input_returns_an_outcome ["cat"; "<"; "<"]
           (zero_job "cat < <")).
  vm_compute. discriminate.
Defined.

Lemma process_eq (p q : process_t) :
  argv p = argv q ->
  redirect_input_filename p = redirect_input_filename q ->
  redirect_output_filename p = redirect_output_filename q ->
  redirect_error_filename p = redirect_error_filename q ->
  p = q.
Proof. destruct p, q. simpl. by intros -> -> -> ->. Qed.

Lemma null_padded_inserts (slots : list (option string)) (ws : list string) :
  (length slots + length ws <= Z.to_nat (MAX_ARGS + 1))%nat ->
  list_inserts (length slots) (Some <$> ws) (null_padded slots) =
    null_padded (slots ++ (Some <$> ws)).
Proof.
  intros Hfit. unfold null_padded.
  replace (Z.to_nat (MAX_ARGS + 1) - length slots)%nat
    with (length ws + (Z.to_nat (MAX_ARGS + 1)
                       - length (slots ++ (Some <$> ws))))%nat
    by (rewrite length_app, length_fmap; lia).
  rewrite replicate_add.
  rewrite <- (Nat.add_0_r (length slots)) at 1.
  rewrite list_inserts_app_r, list_inserts_0_r, app_assoc;
    [done|by rewrite length_fmap, length_replicate].
Qed.

Lemma null_padded_hole (slots : list (option string)) :
  (length slots < Z.to_nat (MAX_ARGS + 1))%nat ->
  null_padded slots = null_padded (slots ++ [None]).
Proof.
  intros Hfit. unfold null_padded. rewrite length_app. simpl.
  replace (Z.to_nat (MAX_ARGS + 1) - length slots)%nat
    with (S (Z.to_nat (MAX_ARGS + 1) - (length slots + 1)))%nat by lia.
  simpl. by rewrite <- app_assoc.
Qed.

(** X4. A command line of ordinary words, with or without a final [&],
    is accepted as one process whose [argv] holds exactly those words, in
    order, followed by NULLs; it has no redirection, and the job is marked
    background exactly when the [&] is there. *)
Theorem plain_words_become_argv
    (ws : list string) (bg : bool) (j : job_t)
    (Hplain : Forall (fun t => is_operator t = false) ws)
    (Hne : ws <> [])
    (Hfit : Z.of_nat (length ws) <= MAX_ARGS + 1) :
  let toks := ws ++ (if bg then [SEND_TO_BACKGROUND] else []) in
  process_input (Z.of_nat (length toks)) toks j =
    Ret {| ret := SUCCESS; printed := "";
           parsed_job :=
             set_first_process (Some (process_with_argv (Some <$> ws)))
               (if bg then set_background true j else j) |}.
Proof.
  intros toks. set (len := Z.of_nat (length toks)).
  assert (Hlen : len = Z.of_nat (length ws) + (if bg then 1 else 0)).
  { unfold len, toks. rewrite length_app. destruct bg; simpl; lia. }
  assert (Hpos : (0 < length ws)%nat) by (destruct ws; [done|simpl; lia]).
  destruct (words_reach len toks ws [] (if bg then [SEND_TO_BACKGROUND] else [])
              (process_input_start j))
    as (st & Hr & Hi & Ha & Hc & Hj & Hargv & Hri & Hro & Hre);
    try done; try (simpl; destruct bg; lia).
  simpl in Hi, Ha, Hc, Hj, Hargv, Hri, Hro, Hre.
  assert (Hproc : process st = process_with_argv (Some <$> ws)).
  { apply process_eq; try done. rewrite Hargv.
    apply (null_padded_inserts [] ws). simpl. lia. }
  unfold process_input. destruct bg.
  - assert (Htok : token_at toks (ind st) = Some SEND_TO_BACKGROUND).
    { rewrite Hi. unfold toks. apply token_at_middle. }
    assert (Hstep : reaches 1 len toks st =
              Some (advance (with_job (set_background true (job st)) st))).
    { simpl. destruct (ind st <? len) eqn:Hlt; [|lia].
      rewrite ParserProofs.background_step by (done || lia).
      destruct ((ind st =? 0) || (ind st + 1 <? len)) eqn:Hb; [lia|done]. }
    rewrite (loop_finishes len toks _ _ _ (reaches_trans len toks _ _ _ _ _ Hr Hstep))
      by (simpl; lia).
    unfold process_input_finish. simpl. by rewrite Hc, Hj, Hproc.
  - rewrite (loop_finishes len toks _ _ _ Hr) by (simpl; lia).
    unfold process_input_finish. by rewrite Hc, Hj, Hproc.
Qed.

Lemma plain_words_become_argv_witness :
  process_input 3 ["sleep"; "30"; "&"] (zero_job "sleep 30 &") =
    Ret {| ret := SUCCESS; printed := "";
           parsed_job :=
             set_first_process
               (Some (process_with_argv [Some "sleep"; Some "30"]))
               (set_background true (zero_job "sleep 30 &")) |}.
Proof.
  apply (plain_words_become_argv ["sleep"; "30"] true).
  - repeat constructor.
  - discriminate.
  - vm_compute. discriminate.
Defined.

(** The first run of ordinary tokens of a command line. *)
Lemma first_words len toks ws post j :
  toks = ws ++ post ->
  Forall (fun t => is_operator t = false) ws ->
  Z.of_nat (length ws) <= MAX_ARGS + 1 ->
  Z.of_nat (length ws) <= len ->
  exists st,
    reaches (length ws) len toks (process_input_start j) = Some st /\
    ind st = Z.of_nat (length ws) /\
    argv_ind st = Z.of_nat (length ws) /\
    creating_second_process st = false /\
    job st = j /\
    process st = process_with_argv (Some <$> ws).
Proof.
  intros Htoks Hws Hfit Hlen.
  destruct (words_reach len toks ws [] post (process_input_start j))
    as (st & Hr & Hi & Ha & Hc & Hj & Hargv & Hri & Hro & Hre);
    try done; try (simpl; lia).
  exists st. repeat split; try done; try (simpl in *; lia).
  apply process_eq; try done. rewrite Hargv.
  apply (null_padded_inserts [] ws). simpl. lia.
Qed.

Lemma body_redirect len toks st op f :
  token_at toks (ind st) = Some op ->
  is_redirect op = true ->
  argv_ind st <> 0 ->
  ind st + 1 <> len ->
  token_at toks (ind st + 1) = Some f ->
  process_input_body len toks st =
    Continue (advance (with_process (set_redirect op f (process st))
                                    (with_ind (ind st + 1) st))).
Proof.
  intros Htok Hop Ha Hl Hf.
  unfold process_input_body, redirect_branch, set_redirect, is_redirect in *.
  rewrite Htok, Hf.
  destruct ((argv_ind st =? 0) || (ind st + 1 =? len)) eqn:Hb; [lia|].
  destruct (String.eqb op INPUT_REDIRECT); [done|].
  destruct (String.eqb op OUTPUT_REDIRECT); [done|].
  destruct (String.eqb op ERROR_REDIRECT); done.
Qed.

Lemma body_pipe len toks st :
  token_at toks (ind st) = Some PIPE ->
  argv_ind st <> 0 ->
  ind st + 1 <> len ->
  process_input_body len toks st =
    Continue (advance
      {| ind := ind st; argv_ind := -1; creating_second_process := true;
         process := zero_process;
         job := set_first_process (Some (process st)) (job st) |}).
Proof.
  intros Htok Ha Hl. unfold process_input_body. rewrite Htok. simpl.
  destruct ((argv_ind st =? 0) || (ind st + 1 =? len)) eqn:Hb; [lia|done].
Qed.

Lemma set_redirect_argv op f p : argv (set_redirect op f p) = argv p.
Proof.
  unfold set_redirect.
  by destruct (String.eqb op INPUT_REDIRECT), (String.eqb op OUTPUT_REDIRECT).
Qed.

Lemma set_redirect_fields op f p q :
  redirect_input_filename p = redirect_input_filename q ->
  redirect_output_filename p = redirect_output_filename q ->
  redirect_error_filename p = redirect_error_filename q ->
  redirect_input_filename (set_redirect op f p) =
    redirect_input_filename (set_redirect op f q) /\
  redirect_output_filename (set_redirect op f p) =
    redirect_output_filename (set_redirect op f q) /\
  redirect_error_filename (set_redirect op f p) =
    redirect_error_filename (set_redirect op f q).
Proof.
  unfold set_redirect. intros Hi Ho He.
  by destruct (String.eqb op INPUT_REDIRECT), (String.eqb op OUTPUT_REDIRECT).
Qed.

(** X5. Words written after a redirection are cut off from the program's
    arguments: in [words op file words'] (with [op] one of [<], [>], [2>])
    the operator's [argv] slot stays NULL, so the NULL-terminated [argv]
    that [execvp] reads holds only the words before the operator, while the
    later words sit behind the hole.  The token after the operator is taken
    as the filename whatever it is. *)
Theorem words_after_redirection_sit_behind_a_hole
    (ws ws' : list string) (op f : string) (j : job_t)
    (Hop : is_redirect op = true)
    (Hws : Forall (fun t => is_operator t = false) ws)
    (Hws' : Forall (fun t => is_operator t = false) ws')
    (Hne : ws <> [])
    (Hfit : Z.of_nat (length ws + 1 + length ws') <= MAX_ARGS + 1) :
  let toks := ws ++ [op; f] ++ ws' in
  process_input (Z.of_nat (length toks)) toks j =
    Ret {| ret := SUCCESS; printed := "";
           parsed_job :=
             set_first_process
               (Some (set_redirect op f
                        (process_with_argv
                           ((Some <$> ws) ++ [None] ++ (Some <$> ws')))))
               j |}.
Proof.
  intros toks. set (len := Z.of_nat (length toks)).
  assert (Hlen : len = Z.of_nat (length ws) + 2 + Z.of_nat (length ws')).
  { unfold len, toks. rewrite !length_app. simpl. lia. }
  assert (Hpos : (0 < length ws)%nat) by (destruct ws; [done|simpl; lia]).
  destruct (first_words len toks ws ([op; f] ++ ws') j)
    as (st1 & Hr1 & Hi1 & Ha1 & Hc1 & Hj1 & Hp1); try done; try lia.
  assert (Hstep : reaches 1 len toks st1 =
            Some (advance (with_process (set_redirect op f (process st1))
                                        (with_ind (ind st1 + 1) st1)))).
  { simpl. destruct (ind st1 <? len) eqn:Hlt; [|lia].
    rewrite (body_redirect len toks st1 op f); try done; try lia.
    - rewrite Hi1. apply token_at_middle.
    - rewrite Hi1. unfold toks.
      replace (Z.of_nat (length ws) + 1)
        with (Z.of_nat (length (ws ++ [op]))) by (rewrite length_app; simpl; lia).
      replace (ws ++ [op; f] ++ ws') with ((ws ++ [op]) ++ f :: ws')
        by (by rewrite <- app_assoc).
      apply token_at_middle. }
  set (st2 := advance (with_process (set_redirect op f (process st1))
                                    (with_ind (ind st1 + 1) st1))) in *.
  destruct (words_reach len toks ws' (ws ++ [op; f]) [] st2)
    as (st3 & Hr3 & Hi3 & Ha3 & Hc3 & Hj3 & Hargv3 & Hri3 & Hro3 & Hre3).
  { unfold toks. by rewrite app_nil_r, <- app_assoc. }
  { simpl. rewrite Hi1, length_app. simpl. lia. }
  { done. }
  { simpl. lia. }
  { simpl. lia. }
  { rewrite length_app. simpl. lia. }
  unfold process_input.
  rewrite (loop_finishes len toks _ _ _
             (reaches_trans len toks _ _ _ _ _ Hr1
                (reaches_trans len toks _ _ _ _ _ Hstep Hr3)))
    by (simpl in *; lia).
  unfold process_input_finish. rewrite Hc3, Hj3. simpl. rewrite Hc1, Hj1.
  do 3 f_equal. f_equal.
  destruct (set_redirect_fields op f (process st1)
              (process_with_argv ((Some <$> ws) ++ [None] ++ (Some <$> ws'))))
    as (Hri & Hro & Hre); try (by rewrite Hp1).
  apply process_eq.
  - rewrite Hargv3. simpl. rewrite !set_redirect_argv, Hp1. simpl.
    rewrite (null_padded_hole (Some <$> ws))
      by (rewrite length_fmap; lia).
    replace (Z.to_nat (argv_ind st1 + 1))
      with (length ((Some <$> ws) ++ [None]))
      by (rewrite length_app, length_fmap; simpl; lia).
    rewrite null_padded_inserts, <- app_assoc; [done|].
    rewrite length_app, length_fmap. simpl. lia.
  - by rewrite Hri3.
  - by rewrite Hro3.
  - by rewrite Hre3.
Qed.

Lemma words_after_redirection_sit_behind_a_hole_witness :
  process_input 4 ["cat"; "<"; "notes"; "-n"] (zero_job "cat < notes -n") =
    Ret {| ret := SUCCESS; printed := "";
           parsed_job :=
             set_first_process
               (Some (set_redirect_input "notes"
                        (process_with_argv [Some "cat"; None; Some "-n"])))
               (zero_job "cat < notes -n") |}.
Proof.
  apply (words_after_redirection_sit_behind_a_hole ["cat"] ["-n"] "<" "notes").
  - reflexivity.
  - repeat constructor.
  - repeat constructor.
  - discriminate.
  - vm_compute. discriminate.
Defined.

(** X6. A pipeline of two runs of ordinary words is accepted as a job with
    two processes: the words before the [|] are the first process's [argv],
    the words after it the second's, each followed by NULLs; neither has a
    redirection and the job stays a foreground job. *)
Theorem pipeline_of_words_becomes_two_processes
    (ws1 ws2 : list string) (j : job_t)
    (Hws1 : Forall (fun t => is_operator t = false) ws1)
    (Hws2 : Forall (fun t => is_operator t = false) ws2)
    (Hne1 : ws1 <> [])
    (Hne2 : ws2 <> [])
    (Hfit1 : Z.of_nat (length ws1) <= MAX_ARGS + 1)
    (Hfit2 : Z.of_nat (length ws2) <= MAX_ARGS + 1) :
  let toks := ws1 ++ [PIPE] ++ ws2 in
  process_input (Z.of_nat (length toks)) toks j =
    Ret {| ret := SUCCESS; printed := "";
           parsed_job :=
             set_second_process (Some (process_with_argv (Some <$> ws2)))
               (set_first_process (Some (process_with_argv (Some <$> ws1)))
                  j) |}.
Proof.
  intros toks. set (len := Z.of_nat (length toks)).
  assert (Hlen : len = Z.of_nat (length ws1) + 1 + Z.of_nat (length ws2)).
  { unfold len, toks. rewrite !length_app. simpl. lia. }
  assert (Hpos1 : (0 < length ws1)%nat) by (destruct ws1; [done|simpl; lia]).
  assert (Hpos2 : (0 < length ws2)%nat) by (destruct ws2; [done|simpl; lia]).
  destruct (first_words len toks ws1 ([PIPE] ++ ws2) j)
    as (st1 & Hr1 & Hi1 & Ha1 & Hc1 & Hj1 & Hp1); try done; try lia.
  set (st2 := advance
        {| ind := ind st1; argv_ind := -1; creating_second_process := true;
           process := zero_process;
           job := set_first_process (Some (process st1)) (job st1) |}).
  assert (Hstep : reaches 1 len toks st1 = Some st2).
  { simpl. destruct (ind st1 <? len) eqn:Hlt; [|lia].
    rewrite (body_pipe len toks st1); try done; try lia.
    rewrite Hi1. apply token_at_middle. }
  destruct (words_reach len toks ws2 (ws1 ++ [PIPE]) [] st2)
    as (st3 & Hr3 & Hi3 & Ha3 & Hc3 & Hj3 & Hargv3 & Hri3 & Hro3 & Hre3).
  { unfold toks. by rewrite app_nil_r, <- app_assoc. }
  { simpl. rewrite Hi1, length_app. simpl. lia. }
  { done. }
  { simpl. lia. }
  { simpl. lia. }
  { rewrite length_app. simpl. lia. }
  unfold process_input.
  rewrite (loop_finishes len toks _ _ _
             (reaches_trans len toks _ _ _ _ _ Hr1
                (reaches_trans len toks _ _ _ _ _ Hstep Hr3)))
    by (simpl in *; lia).
  unfold process_input_finish. rewrite Hc3, Hj3. simpl. rewrite Hj1, Hp1.
  do 3 f_equal. f_equal.
  apply process_eq; try done. rewrite Hargv3.
  apply (null_padded_inserts [] ws2). simpl. lia.
Qed.

Lemma pipeline_of_words_becomes_two_processes_witness :
  process_input 4 ["ls"; "-l"; "|"; "wc"] (zero_job "ls -l | wc") =
    Ret {| ret := SUCCESS; printed := "";
           parsed_job :=
             set_second_process (Some (process_with_argv [Some "wc"]))
               (set_first_process
                  (Some (process_with_argv [Some "ls"; Some "-l"]))
                  (zero_job "ls -l | wc")) |}.
Proof.
  apply (pipeline_of_words_becomes_two_processes ["ls"; "-l"] ["wc"]).
  - repeat constructor.
  - repeat constructor.
  - discriminate.
  - discriminate.
  - vm_compute. discriminate.
  - vm_compute. discriminate.
Defined.

Lemma redirect_branch_names msg store len toks st st' :
  (forall f p, argv (store f p) = argv p) ->
  names_inv len st ->
  ind st < len ->
  redirect_branch msg store len toks st = Continue st' ->
  names_inv len st'.
Proof.
  intros Hstore (Ha & Hi & Hlen & Hb & Hc & Hd) Hlt. unfold redirect_branch.
  destruct ((argv_ind st =? 0) || (ind st + 1 =? len)) eqn:Hchk; [done|].
  destruct (token_at toks (ind st + 1)) as [f|]; [|done].
  intros [= <-]. unfold names_inv, has_program_name in *. simpl.
  rewrite Hstore. repeat split; try lia; try done.
  intros _. destruct Hc as [Hn|[_ ?]]; [lia|by left|lia].
Qed.

Lemma body_names len toks st st' :
  names_inv len st ->
  ind st < len ->
  process_input_body len toks st = Continue st' ->
  names_inv len st'.
Proof.
  intros Hinv Hlt. unfold process_input_body.
  destruct (token_at toks (ind st)) as [tok|]; [|done].
  destruct (String.eqb tok INPUT_REDIRECT) eqn:E1;
    [by apply redirect_branch_names|].
  destruct (String.eqb tok OUTPUT_REDIRECT) eqn:E2;
    [by apply redirect_branch_names|].
  destruct (String.eqb tok ERROR_REDIRECT) eqn:E3;
    [by apply redirect_branch_names|].
  destruct Hinv as (Ha & Hi & Hlen & Hb & Hc & Hd).
  destruct (String.eqb tok PIPE) eqn:E4.
  { destruct ((argv_ind st =? 0) || (ind st + 1 =? len)) eqn:Hchk; [done|].
    intros [= <-]. unfold names_inv. simpl.
    repeat split; try lia; try done.
    intros _. exists (process st). split; [done|].
    destruct Hc as [Hn|[_ ?]]; [lia|done|lia]. }
  destruct (String.eqb tok SEND_TO_BACKGROUND) eqn:E5.
  { destruct ((ind st =? 0) || (ind st + 1 <? len)) eqn:Hchk; [done|].
    intros [= <-]. unfold names_inv. simpl.
    repeat split; try lia; try done.
    intros _. destruct (decide (argv_ind st = 0)) as [Hz|Hnz].
    - right. destruct (creating_second_process st); [lia|].
      specialize (Hb eq_refl). lia.
    - destruct Hc as [Hn|[? ?]]; [lia|by left|lia]. }
  destruct ((0 <=? argv_ind st) && (argv_ind st <? MAX_ARGS + 1)) eqn:Hchk;
    [|done].
  intros [= <-]. unfold names_inv. simpl.
  rewrite length_insert. repeat split; try lia; try done.
  intros _. left. destruct (decide (argv_ind st = 0)) as [Hz|Hnz].
  - exists tok. rewrite Hz. simpl. split.
    + by apply list_lookup_insert_eq.
    + unfold is_operator. by rewrite E1, E2, E3, E4, E5.
  - destruct Hc as [(w & Hw & Hop)|[_ ?]]; [lia| |lia].
    exists w. split; [|done]. simpl.
    rewrite list_lookup_insert_ne by lia. done.
Qed.

Lemma loop_names len toks fuel : forall st o,
  0 < len ->
  names_inv len st ->
  process_input_loop fuel len toks st = Ret o ->
  ret o = SUCCESS ->
  exists p, first_process (parsed_job o) = Some p /\ has_program_name p.
Proof.
  induction fuel as [|fuel IH]; intros st o Hlen Hinv Hrun Hok; [done|].
  simpl in Hrun. destruct (ind st <? len) eqn:Hlt.
  - apply Z.ltb_lt in Hlt.
    destruct (process_input_body len toks st) as [st'|o'|] eqn:Hb;
      [|injection Hrun as ->|done].
    + exact (IH st' o Hlen (body_names len toks st st' Hinv Hlt Hb) Hrun Hok).
    + unfold process_input_body, redirect_branch in Hb.
      destruct (token_at toks (ind st)); [|done].
      repeat match type of Hb with
             | (if ?b then _ else _) = _ => destruct b
             | match ?x with Some _ => _ | None => _ end = _ => destruct x
             end;
        try discriminate Hb; injection Hb as <-; done.
  - apply Z.ltb_ge in Hlt. injection Hrun as <-.
    destruct Hinv as (Ha & Hi & _ & Hb & Hc & Hd).
    unfold process_input_finish. simpl.
    destruct (creating_second_process st) eqn:Hcr.
    + destruct (Hd eq_refl) as (p & Hp & Hn). by exists p.
    + exists (process st). split; [done|].
      specialize (Hb eq_refl).
      destruct Hc as [Hn|[? _]]; [lia|done|done].
Qed.

(** X7. Every job that [process_input] accepts from a non-empty token list
    has a program to run in its first process: the first [argv] slot of
    [first_process] holds a token that is none of the five operators, so the
    child that runs it never hands a NULL program name to [execvp]. *)
Theorem accepted_job_names_a_program
    (len : Z) (toks : list string) (j : job_t) (o : parse_outcome)
    (Hlen : 0 < len)
    (Hrun : process_input len toks j = Ret o)
    (Hok : ret o = SUCCESS) :
  exists p, first_process (parsed_job o) = Some p /\ has_program_name p.
Proof.
  eapply loop_names; try done.
  unfold names_inv, process_input_start. simpl.
  repeat split; try lia; try done.
Qed.

Lemma accepted_job_names_a_program_witness :
  exists p,
    first_process (set_second_process (Some (process_with_argv [None]))
                     (set_first_process (Some (process_with_argv [Some "ls"]))
                        (set_background true (zero_job "ls | &")))) = Some p /\
    has_program_name p.
Proof.
  apply (accepted_job_names_a_program 3 ["ls"; "|"; "&"] (zero_job "ls | &")
           {| ret := SUCCESS; printed := "";
              parsed_job :=
                set_second_process (Some (process_with_argv [None]))
                  (set_first_process (Some (process_with_argv [Some "ls"]))
                     (set_background true (zero_job "ls | &"))) |}).
  - lia.
  - vm_compute. reflexivity.
  - reflexivity.
Defined.

End ParserResults.

(** ** The job table: appending, removing, pruning and searching *)

Module TableProofs.
Import Jobs Notions JobsProofs.

Lemma payload_eq (j j' : job_t) :
  payload j = payload j' -> next j = next j' -> j = j'.
Proof.
  destruct j, j'. unfold payload, set_next. simpl.
  intros [= -> -> -> -> -> -> ->] ->. done.
Qed.

Lemma has_pgid_payload s s' pg a :
  payload <$> heap s' !! a = payload <$> heap s !! a ->
  has_pgid s' pg a = has_pgid s pg a.
Proof.
  unfold has_pgid. intros H.
  destruct (heap s' !! a) as [j'|], (heap s !! a) as [j|]; simpl in H;
    try done.
  assert (Hp : payload j' = payload j) by congruence.
  apply (f_equal pgid) in Hp. simpl in Hp. by rewrite Hp.
Qed.

(** What [add_job] does to a table. *)
Lemma add_job_effect s l a aj :
  table s l ->
  a ∉ l ->
  heap s !! a = Some aj ->
  next aj = None ->
  exists s',
    add_job a s = Ret s' /\
    table s' (l ++ [a]) /\
    heap s' !! a = Some aj /\
    (forall c, payload <$> heap s' !! c = payload <$> heap s !! c) /\
    shell_pid s' = shell_pid s /\ tty_pgrp s' = tty_pgrp s /\
    stdout s' = stdout s /\ signals s' = signals s.
Proof.
  intros Ht Hout Ha Hnext. destruct l as [|b l _] using rev_ind.
  - rewrite add_job_empty by done. eexists. split; [done|].
    split; [|by repeat split].
    unfold table. simpl. split; [done|]. exists aj. by rewrite Hnext.
  - destruct (chain_lookup _ _ _ b Ht) as [bj Hb].
    { apply elem_of_app. right. by left. }
    assert (Hab : b <> a).
    { intros ->. apply Hout. apply elem_of_app. right. by left. }
    rewrite (add_job_last s a l b) by done.
    rewrite (store_ret b _ s bj) by done. eexists. split; [done|].
    split; [|split; [|split; [|by repeat split]]].
    + unfold table. simpl. rewrite <- app_assoc. simpl.
      by eapply chain_link.
    + simpl. by rewrite lookup_insert_ne.
    + intros c. simpl. destruct (decide (b = c)) as [->|Hne].
      * by rewrite lookup_insert_eq, Hb.
      * by rewrite lookup_insert_ne.
Qed.

(** X8. Appending and looking up compose: after [add_job] of a live job
    whose [next] is NULL and which is not yet in the table, the table is the
    old one followed by the job, the job's fields are as they were,
    [find_job] with the job's process group returns the job when no older
    job has that group, and [find_job] with any other process group returns
    what it returned before. *)
Theorem added_job_is_found
    (s : shell) (l : list ptr) (a : ptr) (aj : job_t)
    (Htable : table s l)
    (Hfresh : a ∉ l)
    (Hjob : heap s !! a = Some aj)
    (Hnext : next aj = None)
    (Hnew : forall b, b ∈ l -> has_pgid s (pgid aj) b = false) :
  exists s',
    add_job a s = Ret s' /\
    table s' (l ++ [a]) /\
    heap s' !! a = Some aj /\
    find_job (pgid aj) s' = Ret (Some a) /\
    (forall pg, pg <> pgid aj -> find_job pg s' = find_job pg s).
Proof.
  destruct (add_job_effect s l a aj Htable Hfresh Hjob Hnext)
    as (s' & Hadd & Ht' & Ha' & Hpay & _).
  exists s'. repeat split; try done.
  - apply (find_job_first s' (pgid aj) l a []); [done| |].
    + intros b Hb. rewrite (has_pgid_payload s s') by done. by apply Hnew.
    + unfold has_pgid. rewrite Ha'. by apply bool_decide_eq_true.
  - intros pg Hpg.
    destruct (first_with_pgid s pg l) as [Hno|(l1 & b & l2 & -> & Hno & Hyes)].
    + rewrite (find_job_none s pg l) by done.
      apply (find_job_none s' pg (l ++ [a])); [done|].
      intros c [Hc|Hc%list_elem_of_singleton]%elem_of_app.
      * rewrite (has_pgid_payload s s') by done. by apply Hno.
      * subst c. unfold has_pgid. rewrite Ha'.
        apply bool_decide_eq_false. congruence.
    + rewrite (find_job_first s pg l1 b l2) by done.
      rewrite <- app_assoc in Ht'. simpl in Ht'.
      apply (find_job_first s' pg l1 b (l2 ++ [a])); [done| |].
      * intros c Hc. rewrite (has_pgid_payload s s') by done. by apply Hno.
      * by rewrite (has_pgid_payload s s').
Qed.

Lemma job_about_to_be_added_table :
  table Samples.job_about_to_be_added [1%positive].
Proof. split; [done|]. by exists Examples.sleep_job. Qed.

Lemma three_jobs_shell_table :
  table Samples.three_jobs_shell [1%positive; 2%positive; 3%positive].
Proof.
  split; [done|]. eexists. split; [reflexivity|].
  split; [done|]. eexists. split; [reflexivity|].
  split; [done|]. eexists. split; [reflexivity|]. done.
Qed.

Lemma added_job_is_found_witness :
  exists s',
    add_job 2%positive Samples.job_about_to_be_added = Ret s' /\
    table s' [1%positive; 2%positive] /\
    find_job 101 s' = Ret (Some 2%positive).
Proof.
  destruct (added_job_is_found Samples.job_about_to_be_added [1%positive]
              2%positive Samples.second_sleep_job)
    as (s' & Hadd & Ht & _ & Hfind & _).
  - exact job_about_to_be_added_table.
  - by intros ?%list_elem_of_singleton.
  - reflexivity.
  - reflexivity.
  - intros b ->%list_elem_of_singleton. reflexivity.
  - exists s'. split; [exact Hadd|]. split; [exact Ht|exact Hfind].
Defined.

(** [remove_job] at the job it removes, whatever [fg_free] is. *)
Lemma remove_job_loop_match s pg fg_free a aj l2 : forall l1 fuel prev curr,
  chain (heap s) curr (l1 ++ a :: l2) ->
  (length l1 < fuel)%nat ->
  (forall b, b ∈ l1 -> has_pgid s pg b = false) ->
  heap s !! a = Some aj ->
  pgid aj = pg ->
  remove_job_loop fuel s prev curr pg fg_free =
    (s1 ← match (match last l1 with Some b => Some b | None => prev end) with
          | None => Ret (with_head (next aj) s)
          | Some b => store b (set_next (next aj)) s
          end;
     s2 ← (if fg_free then free_job a s1 else Ret s1);
     Ret (s2, 1)).
Proof.
  induction l1 as [|b l1 IH]; intros fuel prev curr Hc Hf Hno Ha Hpg;
    (destruct fuel as [|fuel]; [simpl in Hf; lia|]).
  - destruct Hc as (-> & _). simpl. unfold load. rewrite Ha. simpl.
    by rewrite bool_decide_true by done.
  - destruct Hc as (-> & j & Hj & Hc). simpl. unfold load. rewrite Hj. simpl.
    pose proof (Hno b ltac:(by left)) as Hb. unfold has_pgid in Hb.
    rewrite Hj in Hb. rewrite Hb.
    rewrite (IH fuel (Some b) (next j)); try done.
    + rewrite last_cons. by destruct (last l1).
    + simpl in Hf. lia.
    + intros c Hin. apply Hno. by right.
Qed.

Lemma remove_job_loop_none s pg fg_free : forall l fuel prev curr,
  chain (heap s) curr l ->
  (length l < fuel)%nat ->
  (forall b, b ∈ l -> has_pgid s pg b = false) ->
  remove_job_loop fuel s prev curr pg fg_free = Ret (s, 0).
Proof.
  induction l as [|b l IH]; intros fuel prev curr Hc Hf Hno;
    (destruct fuel as [|fuel]; [simpl in Hf; lia|]).
  - simpl in Hc. by subst curr.
  - destruct Hc as (-> & j & Hj & Hc). simpl. unfold load. rewrite Hj. simpl.
    pose proof (Hno b ltac:(by left)) as Hb. unfold has_pgid in Hb.
    rewrite Hj in Hb. rewrite Hb.
    apply IH; [done|simpl in Hf; lia|]. intros c Hin. apply Hno. by right.
Qed.

(** X9. [remove_job] takes out the first job with the given process group
    and nothing else: with no such job it returns 0 and leaves everything as
    it was; otherwise it returns 1, the table is the old one without that
    job, in the same order, every other job keeps all its fields but the
    link, and the job itself is released when [fg_free] is set and left
    allocated and untouched when it is not. *)
Theorem remove_job_takes_out_first_match
    (s : shell) (l : list ptr) (pg : Z) (fg_free : bool)
    (Htable : table s l) :
  ((forall b, b ∈ l -> has_pgid s pg b = false) ->
   remove_job pg fg_free s = Ret (s, 0)) /\
  (forall l1 a l2 aj,
      l = l1 ++ a :: l2 ->
      (forall b, b ∈ l1 -> has_pgid s pg b = false) ->
      heap s !! a = Some aj ->
      pgid aj = pg ->
      exists s',
        remove_job pg fg_free s = Ret (s', 1) /\
        table s' (l1 ++ l2) /\
        heap s' !! a = (if fg_free then None else Some aj) /\
        (forall c, c <> a ->
           payload <$> heap s' !! c = payload <$> heap s !! c)).
Proof.
  split.
  { intros Hno. unfold remove_job.
    eapply remove_job_loop_none; eauto using table_fuel. }
  intros l1 a l2 aj -> Hno Ha Hpg.
  pose proof (chain_NoDup _ _ _ Htable) as Hnd.
  assert (Hout : a ∉ l1 ++ l2).
  { apply NoDup_app in Hnd as (_ & Hdisj & Hnd2).
    apply NoDup_cons in Hnd2 as [Hnd2 _].
    intros [Hin|Hin]%elem_of_app; [|done].
    apply (Hdisj a Hin). by left. }
  unfold remove_job.
  rewrite (remove_job_loop_match s pg fg_free a aj l2 l1); try done.
  2:{ apply table_fuel in Htable. rewrite length_app in Htable.
      simpl in Htable. lia. }
  assert (Hmid : exists s1,
    match match last l1 with Some b => Some b | None => None end with
    | Some b => store b (set_next (next aj)) s
    | None => Ret (with_head (next aj) s)
    end = Ret s1 /\
    table s1 (l1 ++ l2) /\
    heap s1 !! a = Some aj /\
    (forall c, payload <$> heap s1 !! c = payload <$> heap s !! c)).
  { destruct l1 as [|b l1 _] using rev_ind.
    - simpl. eexists. split; [done|].
      destruct Htable as (Hhead & j & Hj & Hc).
      assert (j = aj) by congruence. subst j.
      split; [exact Hc|]. by split.
    - rewrite last_snoc.
      assert (Hab : a <> b).
      { intros ->. apply Hout. apply elem_of_app. left.
        apply elem_of_app. right. by left. }
      rewrite <- app_assoc in Htable. simpl in Htable.
      destruct (chain_lookup _ _ _ b Htable) as [bj Hb].
      { apply elem_of_app. right. by left. }
      rewrite (store_ret b _ s bj) by done.
      eexists. split; [done|]. split; [|split].
      + unfold table. simpl. rewrite <- app_assoc. simpl.
        by eapply chain_unlink.
      + simpl. by rewrite lookup_insert_ne.
      + intros c. simpl. destruct (decide (b = c)) as [->|Hne].
        * by rewrite lookup_insert_eq, Hb.
        * by rewrite lookup_insert_ne. }
  destruct Hmid as (s1 & -> & Ht1 & Ha1 & Hpay1). exec_step.
  destruct fg_free.
  - unfold free_job, load. rewrite Ha1. exec_step.
    eexists. split; [done|]. split; [|split].
    + unfold table. simpl. by apply chain_delete_outside.
    + simpl. by rewrite lookup_delete_eq.
    + intros c Hc. simpl. rewrite lookup_delete_ne by done. apply Hpay1.
  - exec_step. exists s1. by repeat split.
Qed.

Lemma remove_job_takes_out_first_match_witness :
  exists s',
    remove_job 101 true Samples.three_jobs_shell = Ret (s', 1) /\
    table s' [1%positive; 3%positive] /\
    heap s' !! 2%positive = None.
Proof.
  destruct (remove_job_takes_out_first_match Samples.three_jobs_shell
              [1%positive; 2%positive; 3%positive] 101 true
              three_jobs_shell_table) as [_ Hmatch].
  destruct (Hmatch [1%positive] 2%positive [3%positive]
              (set_next (Some 3%positive)
                 (set_status DONE Samples.second_sleep_job)))
    as (s' & Hrun & Ht & Ha & _).
  - reflexivity.
  - intros b ->%list_elem_of_singleton. reflexivity.
  - reflexivity.
  - reflexivity.
  - exists s'. split; [exact Hrun|]. split; [exact Ht|exact Ha].
Defined.

Lemma not_done_agree s s' (l : list ptr) :
  (forall a, a ∈ l -> heap s' !! a = heap s !! a) ->
  List.filter (not_done s') l = List.filter (not_done s) l.
Proof.
  intros H. apply List.filter_ext_in. intros a Ha%list_elem_of_In.
  unfold not_done. by rewrite H.
Qed.

(** The loop of [remove_done_jobs], entered with the jobs [k] already
    kept and the jobs [rest] still to visit. *)
Lemma remove_done_jobs_loop_spec : forall rest fuel s k curr,
  table s (k ++ rest) ->
  chain (heap s) curr rest ->
  (length rest < fuel)%nat ->
  exists s',
    remove_done_jobs_loop fuel s (last k) curr = Ret s' /\
    table s' (k ++ List.filter (not_done s) rest) /\
    (forall a, a ∈ rest -> not_done s a = false -> heap s' !! a = None) /\
    (forall a, a ∉ rest \/ not_done s a = true ->
       payload <$> heap s' !! a = payload <$> heap s !! a) /\
    shell_pid s' = shell_pid s /\ tty_pgrp s' = tty_pgrp s /\
    stdout s' = stdout s /\ signals s' = signals s.
Proof.
  induction rest as [|c rest IH]; intros fuel s k curr Ht Hc Hf;
    (destruct fuel as [|fuel]; [simpl in Hf; lia|]).
  - simpl in Hc. subst curr. simpl. exists s.
    split; [done|]. split; [done|]. split; [|by repeat split].
    intros a Ha. inversion Ha.
  - pose proof (chain_NoDup _ _ _ Ht) as Hnd.
    assert (Hcrest : c ∉ rest).
    { apply NoDup_app in Hnd as (_ & _ & Hnd).
      by apply NoDup_cons in Hnd as [? _]. }
    assert (Hck : c ∉ k).
    { apply NoDup_app in Hnd as (_ & Hdisj & _).
      intros Hin. apply (Hdisj c Hin). by left. }
    destruct Hc as (-> & cj & Hcj & Hc). simpl in Hf.
    cbn [remove_done_jobs_loop]. unfold load at 1. rewrite Hcj. exec_step.
    assert (Hnd_c : not_done s c = bool_decide (status cj ≠ DONE)).
    { unfold not_done. by rewrite Hcj. }
    destruct (decide (status cj = DONE)) as [Hdone|Hlive].
    + rewrite bool_decide_true by done.
      assert (Hfalse : not_done s c = false).
      { rewrite Hnd_c. apply bool_decide_eq_false. by intros []. }
      cbn [List.filter]. rewrite Hfalse.
      (* the state after unlinking and freeing [c] *)
      assert (Hmid : exists s2,
        match last k with
        | Some p =>
            s1 ← store p (set_next (next cj)) s;
            s2 ← free_job c s1;
            remove_done_jobs_loop fuel s2 (last k) (next cj)
        | None =>
            s1 ← free_job c (with_head (next cj) s);
            remove_done_jobs_loop fuel s1 (last k) (next cj)
        end = remove_done_jobs_loop fuel s2 (last k) (next cj) /\
        table s2 (k ++ rest) /\
        chain (heap s2) (next cj) rest /\
        heap s2 !! c = None /\
        (forall a, a <> c ->
           payload <$> heap s2 !! a = payload <$> heap s !! a) /\
        (forall a, a ∈ rest -> heap s2 !! a = heap s !! a) /\
        shell_pid s2 = shell_pid s /\ tty_pgrp s2 = tty_pgrp s /\
        stdout s2 = stdout s /\ signals s2 = signals s).
      { destruct k as [|p k _] using rev_ind.
        - simpl. unfold free_job, load. simpl. rewrite Hcj. exec_step.
          eexists. split; [done|]. simpl in Ht.
          destruct Ht as (Hhead & j & Hj & Ht).
          assert (j = cj) by congruence. subst j.
          split; [|split; [|split; [|split; [|split]]]]; simpl.
          + unfold table. simpl. by apply chain_delete_outside.
          + by apply chain_delete_outside.
          + by rewrite lookup_delete_eq.
          + intros a Ha. by rewrite lookup_delete_ne.
          + intros a Ha. rewrite lookup_delete_ne; [done|].
            intros ->. done.
          + done.
        - rewrite last_snoc.
          assert (Hpc : p <> c).
          { intros ->. apply Hck. apply elem_of_app. right. by left. }
          assert (Hprest : p ∉ rest).
          { apply NoDup_app in Hnd as (_ & Hdisj & _).
            intros Hin. apply (Hdisj p).
            - apply elem_of_app. right. by left.
            - by right. }
          rewrite <- app_assoc in Ht. simpl in Ht.
          destruct (chain_lookup _ _ _ p Ht) as [pj Hpj].
          { apply elem_of_app. right. by left. }
          rewrite (store_ret p _ s pj) by done. exec_step.
          unfold free_job, load. simpl.
          rewrite lookup_insert_ne by done. rewrite Hcj. exec_step.
          eexists. split; [done|].
          split; [|split; [|split; [|split; [|split]]]]; simpl.
          + unfold table. simpl. rewrite <- app_assoc. simpl.
            apply chain_delete_outside.
            * intros [Hin|Hin]%elem_of_app.
              -- apply Hck. apply elem_of_app. by left.
              -- apply elem_of_cons in Hin as [Heq|Hin]; [by subst|done].
            * by eapply chain_unlink.
          + apply chain_delete_outside; [done|].
            by apply chain_insert_outside.
          + by rewrite lookup_delete_eq.
          + intros a Ha. rewrite lookup_delete_ne by done.
            destruct (decide (p = a)) as [->|Hne].
            * by rewrite lookup_insert_eq, Hpj.
            * by rewrite lookup_insert_ne.
          + intros a Ha. rewrite lookup_delete_ne by (by intros ->).
            rewrite lookup_insert_ne; [done|]. by intros ->.
          + done. }
      destruct Hmid as (s2 & -> & Ht2 & Hc2 & Hfreed & Hpay2 & Hsame & Hfr).
      destruct (IH fuel s2 k (next cj) Ht2 Hc2 ltac:(lia))
        as (s' & Hrun & Ht' & Hgone & Hkept & Hfr').
      exists s'. split; [done|].
      rewrite (not_done_agree s s2 rest Hsame) in Ht'.
      split; [done|]. split; [|split].
      * intros a [->|Ha]%elem_of_cons Hnd_a.
        -- specialize (Hkept c (or_introl Hcrest)).
           rewrite Hfreed in Hkept. simpl in Hkept.
           by destruct (heap s' !! c).
        -- apply Hgone; [done|]. unfold not_done in *.
           by rewrite Hsame.
      * intros a Ha.
        assert (Hac : a <> c).
        { intros ->. destruct Ha as [Ha|Ha]; [|congruence].
          apply Ha. by left. }
        rewrite <- Hpay2 by done. apply Hkept.
        destruct Ha as [Ha|Ha].
        -- left. intros Hin. apply Ha. by right.
        -- destruct (decide (a ∈ rest)) as [Hin|Hin]; [|by left].
           right. unfold not_done in *. by rewrite Hsame.
      * destruct Hfr as (E1 & E2 & E3 & E4).
        destruct Hfr' as (F1 & F2 & F3 & F4).
        repeat split; congruence.
    + rewrite bool_decide_false by done.
      assert (Htrue : not_done s c = true).
      { rewrite Hnd_c. by apply bool_decide_eq_true. }
      cbn [List.filter]. rewrite Htrue.
      destruct (IH fuel s (k ++ [c]) (next cj)) as
        (s' & Hrun & Ht' & Hgone & Hkept & Hfr'); [| done | lia |].
      { by rewrite <- app_assoc. }
      rewrite last_snoc in Hrun.
      exists s'. split; [done|].
      rewrite <- app_assoc in Ht'. simpl in Ht'.
      split; [done|]. split; [|split; [|done]].
      * intros a [->|Ha]%elem_of_cons Hnd_a; [congruence|by apply Hgone].
      * intros a Ha. apply Hkept. destruct Ha as [Ha|Ha]; [|by right].
        left. intros Hin. apply Ha. by right.
Qed.

(** [remove_done_jobs] on a table. *)
Lemma remove_done_jobs_spec s l :
  table s l ->
  exists s',
    remove_done_jobs s = Ret s' /\
    table s' (List.filter (not_done s) l) /\
    (forall a, a ∈ l -> not_done s a = false -> heap s' !! a = None) /\
    (forall a, a ∉ l \/ not_done s a = true ->
       payload <$> heap s' !! a = payload <$> heap s !! a) /\
    (forall a, a ∈ List.filter (not_done s) l -> not_done s' a = true) /\
    shell_pid s' = shell_pid s /\ tty_pgrp s' = tty_pgrp s /\
    stdout s' = stdout s /\ signals s' = signals s.
Proof.
  intros Htable.
  destruct (remove_done_jobs_loop_spec l (chain_fuel s) s [] (job_list_head s))
    as (s' & Hrun & Ht' & Hgone & Hkept & Hfr);
    [done|done|by apply table_fuel|].
  exists s'. repeat (split; [done|]). split; [|done].
  intros a Ha%list_elem_of_In. apply List.filter_In in Ha as [_ Hnd].
  specialize (Hkept a (or_intror Hnd)).
  unfold not_done in *.
  destruct (heap s !! a) as [j|]; [|done].
  destruct (heap s' !! a) as [j'|]; [|done].
  simpl in Hkept. assert (Hp : payload j' = payload j) by congruence.
  apply (f_equal status) in Hp. simpl in Hp. by rewrite Hp.
Qed.

(** X10. [remove_done_jobs] prunes exactly the Done jobs: the table
    afterwards holds the jobs that were not Done, in their old order; every
    Done job of the table has been released; every other job keeps all its
    fields but the link; so no job of the new table is Done.  Nothing is
    printed and no signal is sent. *)
Theorem remove_done_jobs_prunes_done_jobs
    (s : shell) (l : list ptr)
    (Htable : table s l) :
  exists s',
    remove_done_jobs s = Ret s' /\
    table s' (List.filter (not_done s) l) /\
    (forall a, a ∈ l -> not_done s a = false -> heap s' !! a = None) /\
    (forall a, a ∉ l \/ not_done s a = true ->
       payload <$> heap s' !! a = payload <$> heap s !! a) /\
    (forall a, a ∈ List.filter (not_done s) l -> not_done s' a = true) /\
    stdout s' = stdout s /\ signals s' = signals s.
Proof.
  destruct (remove_done_jobs_spec s l Htable)
    as (s' & Hrun & Ht' & Hgone & Hkept & Hlive & _ & _ & Hout & Hsig).
  exists s'. by repeat (split; [done|]).
Qed.

Lemma remove_done_jobs_prunes_done_jobs_witness :
  exists s',
    remove_done_jobs Samples.three_jobs_shell = Ret s' /\
    table s' [1%positive; 3%positive] /\
    heap s' !! 2%positive = None.
Proof.
  destruct (remove_done_jobs_prunes_done_jobs Samples.three_jobs_shell
              [1%positive; 2%positive; 3%positive] three_jobs_shell_table)
    as (s' & Hrun & Ht & Hgone & _).
  exists s'. split; [exact Hrun|]. split; [exact Ht|].
  apply Hgone; [|reflexivity]. right. by left.
Defined.

Lemma max_background_fold s : forall l acc,
  let n := fold_left (fun acc a =>
                        match heap s !! a with
                        | Some j => if (acc <? job_number j) && background j
                                    then job_number j else acc
                        | None => acc
                        end) l acc in
  acc <= n /\
  (forall a j, a ∈ l -> heap s !! a = Some j -> background j = true ->
     job_number j <= n) /\
  (n = acc \/
   exists a j, a ∈ l /\ heap s !! a = Some j /\ background j = true /\
               job_number j = n).
Proof.
  induction l as [|b l IH]; intros acc; simpl.
  - split; [lia|]. split; [|by left]. intros a j Ha. inversion Ha.
  - set (acc' := match heap s !! b with
                 | Some j => if (acc <? job_number j) && background j
                             then job_number j else acc
                 | None => acc
                 end).
    destruct (IH acc') as (Hle & Hub & Hat).
    assert (Hacc : acc <= acc' /\
              (forall j, heap s !! b = Some j -> background j = true ->
                 job_number j <= acc') /\
              (acc' = acc \/
               exists j, heap s !! b = Some j /\ background j = true /\
                         job_number j = acc')).
    { unfold acc'. destruct (heap s !! b) as [bj|].
      - destruct (acc <? job_number bj) eqn:Hlt, (background bj) eqn:Hbg;
          simpl; (split; [lia|]); (split; [intros j [= <-] ?; try lia; congruence|]);
          try (by left).
        right. by exists bj.
      - split; [lia|]. split; [done|by left]. }
    destruct Hacc as (Hacc1 & Hacc2 & Hacc3).
    split; [lia|]. split.
    + intros a j [->|Ha]%elem_of_cons Hj Hbg.
      * specialize (Hacc2 j Hj Hbg). lia.
      * by eapply Hub.
    + destruct Hat as [Hn|(a & j & Ha & Hj & Hbg & Hn)].
      * destruct Hacc3 as [Heq|(j & Hj & Hbg & Heq)].
        -- left. congruence.
        -- right. exists b, j. repeat split; try done; [by left|congruence].
      * right. exists a, j. repeat split; try done. by right.
Qed.

(** X11. [find_most_recent_job_num] returns the largest job number among
    the background jobs of the table, and 0 when no background job has a
    positive number: the result is never negative, no background job has a
    larger number, and a result other than 0 is the number of some
    background job of the table. *)
Theorem find_most_recent_job_num_is_largest
    (s : shell) (l : list ptr)
    (Htable : table s l) :
  exists n,
    find_most_recent_job_num s = Ret n /\
    0 <= n /\
    (forall a j, a ∈ l -> heap s !! a = Some j -> background j = true ->
       job_number j <= n) /\
    (n = 0 \/
     exists a j, a ∈ l /\ heap s !! a = Some j /\ background j = true /\
                 job_number j = n).
Proof.
  exists (max_background_number s l).
  split; [by apply find_most_recent_job_num_spec|].
  exact (max_background_fold s l 0).
Qed.

Lemma find_most_recent_job_num_is_largest_witness :
  exists n,
    find_most_recent_job_num Samples.three_jobs_shell = Ret n /\
    2 <= n.
Proof.
  destruct (find_most_recent_job_num_is_largest Samples.three_jobs_shell
              [1%positive; 2%positive; 3%positive] three_jobs_shell_table)
    as (n & Hrun & _ & Hub & _).
  exists n. split; [exact Hrun|].
  apply (Hub 2%positive
           (set_next (Some 3%positive)
              (set_status DONE Samples.second_sleep_job))).
  - right. by left.
  - reflexivity.
  - reflexivity.
Defined.

Lemma find_next_job_to_bg_loop_spec s : forall l fuel curr acc,
  chain (heap s) curr l ->
  (length l < fuel)%nat ->
  find_next_job_to_bg_loop fuel s curr acc =
    Ret (match last (List.filter (stopped_in_background s) l) with
         | Some a => Some a
         | None => acc
         end).
Proof.
  induction l as [|a l IH]; intros fuel curr acc Hc Hf;
    (destruct fuel as [|fuel]; [simpl in Hf; lia|]); simpl in *.
  - by subst curr.
  - destruct Hc as (-> & j & Hj & Hc). unfold load. rewrite Hj. simpl.
    rewrite IH by (done || lia).
    unfold stopped_in_background at 2. rewrite Hj.
    destruct (background j && bool_decide (status j = STOPPED)); [|done].
    rewrite last_cons.
    by destruct (last (List.filter (stopped_in_background s) l)).
Qed.

Lemma find_next_job_to_bg_spec s l :
  table s l ->
  find_next_job_to_bg s =
    Ret (last (List.filter (stopped_in_background s) l)).
Proof.
  intros Ht. unfold find_next_job_to_bg.
  rewrite (find_next_job_to_bg_loop_spec s l) by (done || by apply table_fuel).
  by destruct (last (List.filter (stopped_in_background s) l)).
Qed.

(** X12. [find_next_job_to_bg] returns the last job of the table (the most
    recently inserted one) that is a Stopped background job, and NULL when
    the table has none; Running and Done jobs, and jobs not marked
    background, are never chosen. *)
Theorem find_next_job_to_bg_picks_last_stopped
    (s : shell) (l : list ptr)
    (Htable : table s l) :
  find_next_job_to_bg s =
    Ret (last (List.filter (stopped_in_background s) l)) /\
  (forall a, find_next_job_to_bg s = Ret (Some a) ->
     a ∈ l /\
     exists j, heap s !! a = Some j /\ background j = true /\
               status j = STOPPED).
Proof.
  pose proof (find_next_job_to_bg_spec s l Htable) as Hrun.
  split; [done|]. intros a Ha. rewrite Hrun in Ha. injection Ha as Ha.
  apply last_Some in Ha as (l' & Ha).
  assert (Hin : In a (List.filter (stopped_in_background s) l)).
  { rewrite Ha. apply in_or_app. right. by left. }
  apply List.filter_In in Hin as [Hin Hst].
  split; [by apply list_elem_of_In|].
  unfold stopped_in_background in Hst.
  destruct (heap s !! a) as [j|]; [|done].
  apply andb_true_iff in Hst as [Hbg Hst%bool_decide_eq_true].
  by exists j.
Qed.

Lemma find_next_job_to_bg_picks_last_stopped_witness :
  find_next_job_to_bg Samples.three_jobs_shell = Ret (Some 3%positive).
Proof.
  exact (proj1 (find_next_job_to_bg_picks_last_stopped
                  Samples.three_jobs_shell
                  [1%positive; 2%positive; 3%positive]
                  three_jobs_shell_table)).
Defined.

End TableProofs.

(** ** Listing the job table *)

Module ListingProofs.
Import Jobs Shell Notions JobsProofs.

Lemma append_assoc (p q r : string) : (p +:+ q) +:+ r = p +:+ (q +:+ r).
Proof.
  induction p as [|c p IH]; [done|].
  by rewrite !ShellProofs.append_cons, IH.
Qed.

Lemma printf_empty s : printf "" s = s.
Proof. destruct s. unfold printf. simpl. by rewrite ShellProofs.append_empty_r. Qed.

Lemma printf_printf t1 t2 s : printf t2 (printf t1 s) = printf (t1 +:+ t2) s.
Proof. unfold printf. simpl. by rewrite append_assoc. Qed.

(** One turn of the loop prints the job's line when the job is listed. *)
Lemma print_job_table_turn s c cj n r st d :
  heap s !! c = Some cj ->
  (if bool_decide (status cj = RUNNING) && r && background cj
   then print_job c (bool_decide (n = job_number cj)) false false s
   else if bool_decide (status cj = STOPPED) && st && background cj
   then print_job c (bool_decide (n = job_number cj)) false false s
   else if bool_decide (status cj = DONE) && d && background cj
   then print_job c (bool_decide (n = job_number cj)) false false s
   else Ret s) =
  Ret (printf (if listed r st d cj then job_line n cj else "") s).
Proof.
  intros Hc.
  assert (Hprint :
    print_job c (bool_decide (n = job_number cj)) false false s =
    Ret (printf (job_line n cj) s)).
  { unfold print_job, load, job_line. rewrite Hc. exec_step.
    by destruct (bool_decide (n = job_number cj)). }
  rewrite Hprint. unfold listed.
  destruct (status cj), r, st, d, (background cj); simpl;
    by rewrite ?printf_empty.
Qed.

Lemma print_job_table_loop_spec n r st d : forall l fuel s curr,
  chain (heap s) curr l ->
  (length l < fuel)%nat ->
  print_job_table_loop fuel s curr n r st d =
    Ret (printf (listing (heap s) n r st d l) s).
Proof.
  induction l as [|a l IH]; intros fuel s curr Hc Hf;
    (destruct fuel as [|fuel]; [simpl in Hf; lia|]).
  - simpl in Hc. subst curr. simpl. by rewrite printf_empty.
  - destruct Hc as (-> & j & Hj & Hc). simpl in Hf.
    cbn [print_job_table_loop listing]. unfold load at 1. rewrite Hj.
    exec_step. rewrite (print_job_table_turn s a j n r st d Hj). exec_step.
    rewrite (IH fuel) by (done || lia). simpl. by rewrite printf_printf.
Qed.

(** [print_job_table] on a table. *)
Lemma print_job_table_spec s l r st d :
  table s l ->
  print_job_table r st d s =
    Ret (printf
           (if max_background_number s l =? 0 then ""
            else listing (heap s) (max_background_number s l) r st d l)
           s).
Proof.
  intros Htable. unfold print_job_table.
  rewrite (find_most_recent_job_num_spec s l Htable). exec_step.
  destruct (max_background_number s l =? 0); [by rewrite printf_empty|].
  apply print_job_table_loop_spec; [done|by apply table_fuel].
Qed.

(** The listing reads no link. *)
Lemma listing_agree (h h' : gmap ptr job_t) n r st d : forall l,
  (forall a, a ∈ l -> payload <$> h' !! a = payload <$> h !! a) ->
  listing h' n r st d l = listing h n r st d l.
Proof.
  induction l as [|a l IH]; intros H; [done|]. cbn [listing].
  rewrite IH by (intros b Hb; apply H; by right). f_equal.
  pose proof (H a ltac:(by left)) as Ha.
  destruct (h' !! a) as [j'|], (h !! a) as [j|]; simpl in Ha; try done.
  assert (Hp : payload j' = payload j) by congruence.
  unfold listed, job_line.
  pose proof (f_equal job_number Hp) as E1.
  pose proof (f_equal status Hp) as E2.
  pose proof (f_equal background Hp) as E3.
  pose proof (f_equal command Hp) as E4.
  simpl in E1, E2, E3, E4. by rewrite E1, E2, E3, E4.
Qed.

(** X13. [print_job_table] lists the table in order: it prints one line
    for every background job whose status was asked for, oldest job first,
    in the form [[number]+ or -, tab, status, three tabs, command], with [+]
    on the jobs that carry the largest background job number; it changes
    nothing but the output.  It prints nothing at all when the largest
    background job number is 0, in particular when the table has no
    background job. *)
Theorem print_job_table_lists_in_table_order
    (s : shell) (l : list ptr)
    (print_running_jobs print_stopped_jobs print_done_jobs : bool)
    (Htable : table s l) :
  print_job_table print_running_jobs print_stopped_jobs print_done_jobs s =
    Ret (printf
           (if max_background_number s l =? 0 then ""
            else listing (heap s) (max_background_number s l)
                   print_running_jobs print_stopped_jobs print_done_jobs l)
           s) /\
  ((forall a j, a ∈ l -> heap s !! a = Some j -> background j = false) ->
   print_job_table print_running_jobs print_stopped_jobs print_done_jobs s =
     Ret s).
Proof.
  pose proof (print_job_table_spec s l print_running_jobs print_stopped_jobs
                print_done_jobs Htable) as Hrun.
  split; [done|]. intros Hnone. rewrite Hrun.
  destruct (TableProofs.max_background_fold s l 0)
    as (_ & _ & [Hzero|(a & j & Ha & Hj & Hbg & _)]).
  - unfold max_background_number. rewrite Hzero. by rewrite printf_empty.
  - rewrite (Hnone a j Ha Hj) in Hbg. discriminate.
Qed.

Lemma print_job_table_lists_in_table_order_witness :
  print_job_table true true false Samples.three_jobs_shell =
    Ret (printf
           ("[1]-" +:+ tab +:+ "Running" +:+ tab +:+ tab +:+ tab
            +:+ "sleep 30 &" +:+ lf
            +:+ "[3]+" +:+ tab +:+ "Stopped" +:+ tab +:+ tab +:+ tab
            +:+ "cat" +:+ lf)
           Samples.three_jobs_shell).
Proof.
  exact (proj1 (print_job_table_lists_in_table_order
                  Samples.three_jobs_shell
                  [1%positive; 2%positive; 3%positive] true true false
                  TableProofs.three_jobs_shell_table)).
Defined.

End ListingProofs.

(** ** Reconciling and launching in a well-formed table *)

Module ShellResults.
Import Jobs Shell Notions JobsProofs ShellProofs.

Lemma reconciled_fields status_word n j :
  pgid (reconciled status_word n j) = pgid j /\
  command (reconciled status_word n j) = command j /\
  first_process (reconciled status_word n j) = first_process j /\
  second_process (reconciled status_word n j) = second_process j /\
  next (reconciled status_word n j) = next j /\
  status (reconciled status_word n j) =
    (if WIFSTOPPED status_word then STOPPED else DONE).
Proof.
  unfold reconciled.
  destruct (WIFSTOPPED status_word); [|done].
  destruct ((WSTOPSIG status_word =? SIGTSTP)
            || (WSTOPSIG status_word =? SIGSTOP)); [|done].
  by destruct (job_number j =? FG_JOB_NUM).
Qed.

(** X14. In a well-formed table, a report about a known child changes
    exactly one job, the first one with that process group, and nothing
    else in the shell: the job becomes Stopped when the report is a stop and
    Done otherwise; its process group, command, process specs and place in
    the table stay as they are (also when a foreground job stopped by Ctrl-Z
    is unlinked and appended again, because it is the newest job); the table
    stays well formed.  The job afterwards is what the specification-level
    [reconciled] describes. *)
Theorem known_child_report_changes_one_job
    (s : shell) (l1 : list ptr) (a : ptr) (l2 : list ptr) (aj : job_t)
    (status_word pid : Z)
    (Hwf : well_formed s (l1 ++ a :: l2))
    (Hpid : 0 < pid)
    (Hfirst : forall b, b ∈ l1 -> has_pgid s pid b = false)
    (Hjob : heap s !! a = Some aj)
    (Hpg : pgid aj = pid) :
  let aj' := reconciled status_word (max_background_number s (l1 ++ l2)) aj in
  let s' := with_heap (<[a := aj']> (heap s)) s in
  update_job_status status_word pid s = Ret (s', 1) /\
  well_formed s' (l1 ++ a :: l2) /\
  pgid aj' = pgid aj /\
  command aj' = command aj /\
  first_process aj' = first_process aj /\
  second_process aj' = second_process aj /\
  next aj' = next aj /\
  status aj' = (if WIFSTOPPED status_word then STOPPED else DONE).
Proof.
  intros aj' s'.
  split; [by apply update_job_status_matched|].
  split; [by apply well_formed_reconciled|].
  apply reconciled_fields.
Qed.

Lemma known_child_report_changes_one_job_witness :
  update_job_status Examples.stopped_by_SIGTSTP 100
    Examples.foreground_sleep_shell =
  Ret (with_heap
         {[ 1%positive :=
              set_status STOPPED
                (set_background true
                   (set_job_number 1
                      (set_command "sleep 30" Examples.sleep_job))) ]}
         Examples.foreground_sleep_shell, 1).
Proof.
  refine (eq_trans
    (proj1 (known_child_report_changes_one_job Examples.foreground_sleep_shell
              [] 1%positive []
              (set_background false
                 (set_job_number FG_JOB_NUM
                    (set_command "sleep 30" Examples.sleep_job)))
              Examples.stopped_by_SIGTSTP 100 _ _ _ _ _)) _).
  - split.
    + split; [done|]. eexists. split; [reflexivity|done].
    + intros l1 a l2 j Hl _ _. destruct l1 as [|? [|? ?]]; by inversion Hl.
  - lia.
  - intros b Hb. inversion Hb.
  - reflexivity.
  - reflexivity.
  - vm_compute. reflexivity.
Defined.

Lemma int_wrap_small z : - 2 ^ 31 <= z <= INT_MAX -> int_wrap z = z.
Proof.
  unfold int_wrap, INT_MAX. intros Hz.
  rewrite Z.mod_small; lia.
Qed.

(** X15. A job launched in the background is appended to the table with a
    job number of its own: [execute_job] records the process group that
    [fork] returned, marks the job Running, gives it the number after the
    largest background job number of the table (which, short of [INT_MAX],
    is larger than the number of every background job already there),
    appends it after the jobs already in the table, and returns to the
    prompt at once: no wait, no output, no signal, the terminal stays where
    it was, and the other jobs keep all their fields but the link. *)
Theorem background_launch_appends_with_next_number
    (s : shell) (l : list ptr) (job : ptr) (j0 : job_t)
    (fork_result : Z) (children : list (Z * Z))
    (Htable : table s l)
    (Hfresh : job ∉ l)
    (Hjob : heap s !! job = Some j0)
    (Hnext : next j0 = None)
    (Hbg : background j0 = true)
    (Hfork : 0 <= fork_result) :
  let n := max_background_number s l in
  let j1 := set_job_number (int_wrap (n + 1))
              (set_status RUNNING (set_pgid fork_result j0)) in
  exists s',
    execute_job fork_result children job s = Ret (Loop s' children) /\
    table s' (l ++ [job]) /\
    heap s' !! job = Some j1 /\
    (forall c, c <> job ->
       payload <$> heap s' !! c = payload <$> heap s !! c) /\
    (n < INT_MAX ->
     job_number j1 = n + 1 /\
     forall a j, a ∈ l -> heap s !! a = Some j -> background j = true ->
       job_number j < job_number j1) /\
    tty_pgrp s' = tty_pgrp s /\ stdout s' = stdout s /\
    signals s' = signals s.
Proof.
  intros n j1. unfold execute_job.
  destruct (fork_result <? 0) eqn:Hneg; [lia|].
  rewrite (store_ret job _ s j0 Hjob). exec_step.
  set (s1 := with_heap (<[job := set_pgid fork_result j0]> (heap s)) s).
  assert (H1 : heap s1 !! job = Some (set_pgid fork_result j0))
    by (simpl; by rewrite lookup_insert_eq).
  rewrite (store_ret job _ s1 _ H1). exec_step.
  set (s2 := with_heap
               (<[job := set_status RUNNING (set_pgid fork_result j0)]>
                  (heap s1)) s1).
  assert (H2 : heap s2 !! job =
               Some (set_status RUNNING (set_pgid fork_result j0)))
    by (simpl; by rewrite lookup_insert_eq).
  unfold load at 1. rewrite H2. exec_step.
  cbn [background set_status set_pgid]. rewrite Hbg. cbn [negb].
  assert (Hsame2 : forall c, c <> job -> heap s2 !! c = heap s !! c).
  { intros c Hc. simpl. by rewrite !lookup_insert_ne. }
  assert (Ht2 : table s2 l).
  { unfold table. simpl. by do 2 (apply chain_insert_outside; [done|]). }
  rewrite (find_most_recent_job_num_spec s2 l Ht2). exec_step.
  assert (Hmax : max_background_number s2 l = n).
  { apply max_background_number_agree. intros c Hc.
    rewrite Hsame2; [done|]. by intros ->. }
  rewrite Hmax. rewrite (store_ret job _ s2 _ H2). exec_step.
  fold j1.
  set (s3 := with_heap (<[job := j1]> (heap s2)) s2).
  assert (Ht3 : table s3 l).
  { unfold table. simpl. by do 3 (apply chain_insert_outside; [done|]). }
  destruct (TableProofs.add_job_effect s3 l job j1 Ht3 Hfresh)
    as (s' & Hadd & Ht' & Hj' & Hpay & _ & Htty & Hout & Hsig);
    [simpl; by rewrite lookup_insert_eq|done|].
  rewrite Hadd. exec_step. exists s'.
  split; [done|]. split; [done|]. split; [done|]. split; [|split].
  - intros c Hc. rewrite Hpay. simpl. by rewrite !lookup_insert_ne.
  - intros Hn.
    assert (Hnum : job_number j1 = n + 1).
    { simpl. apply int_wrap_small.
      pose proof (max_background_number_nonneg s l). unfold INT_MAX in *.
      fold n in H. lia. }
    split; [done|]. intros a j Ha Hj Hbgj. rewrite Hnum.
    destruct (TableProofs.max_background_fold s l 0) as (_ & Hub & _).
    specialize (Hub a j Ha Hj Hbgj). fold (max_background_number s l) in Hub.
    fold n in Hub. lia.
  - by rewrite Htty, Hout, Hsig.
Qed.

Lemma background_launch_appends_with_next_number_witness :
  exists s',
    execute_job 101 [] 2%positive Samples.job_about_to_be_added =
      Ret (Loop s' []) /\
    table s' [1%positive; 2%positive] /\
    job_number <$> heap s' !! 2%positive = Some 2.
Proof.
  destruct (background_launch_appends_with_next_number
              Samples.job_about_to_be_added [1%positive] 2%positive
              Samples.second_sleep_job 101 [])
    as (s' & Hrun & Ht & Hj & _).
  - exact TableProofs.job_about_to_be_added_table.
  - by intros ?%list_elem_of_singleton.
  - reflexivity.
  - reflexivity.
  - reflexivity.
  - lia.
  - exists s'. split; [exact Hrun|]. split; [exact Ht|].
    apply (f_equal (fmap job_number)) in Hj. exact Hj.
Defined.

(** X16. A job launched in the foreground enters the table as its newest
    job, with the process group that [fork] returned, status Running and
    the foreground job number; [execute_job] then waits for it with the
    terminal handed to the job.  When no older job carries the foreground
    number, the wait returns in a well-formed table of the old jobs
    followed by the new one, the terminal is the shell's again, and nothing
    has been printed and no signal sent. *)
Theorem foreground_launch_waits_and_takes_the_terminal_back
    (s : shell) (l : list ptr) (job : ptr) (j0 : job_t)
    (fork_result : Z) (children : list (Z * Z))
    (Hwf : well_formed s l)
    (Hnofg : forall a j, a ∈ l -> heap s !! a = Some j ->
               job_number j <> FG_JOB_NUM)
    (Hfresh : job ∉ l)
    (Hjob : heap s !! job = Some j0)
    (Hnext : next j0 = None)
    (Hfg : background j0 = false)
    (Hfork : 0 <= fork_result) :
  let j1 := set_job_number FG_JOB_NUM
              (set_status RUNNING (set_pgid fork_result j0)) in
  exists s4 s' rest,
    well_formed s4 (l ++ [job]) /\
    heap s4 !! job = Some j1 /\
    execute_in_foreground children job s4 = Ret (s', rest) /\
    execute_job fork_result children job s = Ret (Loop s' rest) /\
    well_formed s' (l ++ [job]) /\
    shell_pid s' = shell_pid s /\ tty_pgrp s' = shell_pid s /\
    stdout s' = stdout s /\ signals s' = signals s.
Proof.
  intros j1. destruct Hwf as [Htable Hnewest]. unfold execute_job.
  destruct (fork_result <? 0) eqn:Hneg; [lia|].
  rewrite (store_ret job _ s j0 Hjob). exec_step.
  set (s1 := with_heap (<[job := set_pgid fork_result j0]> (heap s)) s).
  assert (H1 : heap s1 !! job = Some (set_pgid fork_result j0))
    by (simpl; by rewrite lookup_insert_eq).
  rewrite (store_ret job _ s1 _ H1). exec_step.
  set (s2 := with_heap
               (<[job := set_status RUNNING (set_pgid fork_result j0)]>
                  (heap s1)) s1).
  assert (H2 : heap s2 !! job =
               Some (set_status RUNNING (set_pgid fork_result j0)))
    by (simpl; by rewrite lookup_insert_eq).
  unfold load at 1. rewrite H2. exec_step.
  cbn [background set_status set_pgid]. rewrite Hfg. cbn [negb].
  rewrite (store_ret job _ s2 _ H2). exec_step. fold j1.
  set (s3 := with_heap (<[job := j1]> (heap s2)) s2).
  assert (Ht3 : table s3 l).
  { unfold table. simpl. by do 3 (apply chain_insert_outside; [done|]). }
  destruct (TableProofs.add_job_effect s3 l job j1 Ht3 Hfresh)
    as (s4 & Hadd & Ht4 & Hj4 & Hpay & Hpid4 & Htty4 & Hout4 & Hsig4);
    [simpl; by rewrite lookup_insert_eq|done|].
  rewrite Hadd. exec_step.
  assert (Hwf4 : well_formed s4 (l ++ [job])).
  { split; [done|]. intros l1 a l2 j Hl Ha Hnum.
    destruct l2 as [|x l2 _] using rev_ind; [done|]. exfalso.
    change (a :: l2 ++ [x]) with ((a :: l2) ++ [x]) in Hl.
    rewrite app_assoc in Hl. apply app_inj_tail in Hl as [Hl _].
    assert (Hin : a ∈ l).
    { rewrite Hl. apply elem_of_app. right. by left. }
    assert (Hne : a <> job) by (by intros ->).
    pose proof (Hpay a) as Hp. rewrite Ha in Hp. simpl in Hp.
    rewrite !lookup_insert_ne in Hp by done.
    destruct (heap s !! a) as [ja|] eqn:Hja; [|done].
    assert (Heq : payload j = payload ja) by (simpl in Hp; congruence).
    apply (f_equal job_number) in Heq. simpl in Heq.
    apply (Hnofg a ja Hin Hja). congruence. }
  assert (Hin : job ∈ l ++ [job]).
  { apply elem_of_app. right. by left. }
  destruct (execute_in_foreground_loop_well_formed (l ++ [job]) job children
              (tcsetpgrp (pgid j1) s4))
    as (s5 & rest & Hloop & Hwf5 & Hpid5 & _ & Hout5 & Hsig5); [|done|].
  { by apply (well_formed_same_heap s4). }
  assert (Hwait : execute_in_foreground children job s4 =
                  Ret (tcsetpgrp (shell_pid s5) s5, rest)).
  { unfold execute_in_foreground, load. rewrite Hj4. exec_step.
    by rewrite Hloop. }
  rewrite Hwait. exec_step.
  exists s4, (tcsetpgrp (shell_pid s5) s5), rest.
  split; [done|]. split; [done|]. split; [done|]. split; [done|].
  split; [by apply (well_formed_same_heap s5)|].
  simpl in *. repeat split; congruence.
Qed.

Lemma foreground_launch_waits_and_takes_the_terminal_back_witness :
  exists s' rest,
    execute_job 101 [Examples.quiet; (101, Examples.exited_normally)]
      2%positive
      (with_heap (<[2%positive := set_background false
                                    Samples.second_sleep_job]>
                    (heap Examples.one_job_shell))
         Examples.one_job_shell) = Ret (Loop s' rest) /\
    tty_pgrp s' = 50.
Proof.
  destruct (foreground_launch_waits_and_takes_the_terminal_back
              (with_heap (<[2%positive := set_background false
                                            Samples.second_sleep_job]>
                            (heap Examples.one_job_shell))
                 Examples.one_job_shell)
              [1%positive] 2%positive
              (set_background false Samples.second_sleep_job) 101
              [Examples.quiet; (101, Examples.exited_normally)])
    as (s4 & s' & rest & _ & _ & _ & Hrun & _ & _ & Htty & _).
  - split.
    + split; [done|]. by exists Examples.sleep_job.
    + intros l1 a l2 j Hl _ _. destruct l1 as [|? [|? ?]]; by inversion Hl.
  - intros a j ->%list_elem_of_singleton Hj. vm_compute in Hj.
    injection Hj as <-. discriminate.
  - by intros ?%list_elem_of_singleton.
  - reflexivity.
  - reflexivity.
  - reflexivity.
  - lia.
  - exists s', rest. split; [exact Hrun|exact Htty].
Defined.

Lemma three_jobs_shell_well_formed :
  well_formed Samples.three_jobs_shell [1%positive; 2%positive; 3%positive].
Proof.
  split; [exact TableProofs.three_jobs_shell_table|].
  intros l1 a l2 j Hl Hj Hfg.
  destruct l1 as [|? [|? [|? [|? ?]]]]; simplify_eq/=;
    vm_compute in Hj; by simplify_eq.
Qed.

Lemma max_background_number_payload s s' l :
  (forall a, a ∈ l -> payload <$> heap s' !! a = payload <$> heap s !! a) ->
  max_background_number s' l = max_background_number s l.
Proof.
  intros H. apply max_background_number_agree. intros c Hc.
  specialize (H c Hc).
  destruct (heap s' !! c) as [j'|], (heap s !! c) as [j|]; simpl in *;
    try done.
  assert (Hp : payload j' = payload j) by congruence.
  pose proof (f_equal job_number Hp) as E1.
  pose proof (f_equal background Hp) as E2.
  simpl in E1, E2. by rewrite E1, E2.
Qed.

(** X17. In a well-formed table [jobs] drains, reports the Done
    background jobs, prunes every Done job and then lists the Running and
    Stopped background jobs that are left: its output is the Done lines of
    the drained table followed by the lines of the remaining jobs, in table
    order, the [+] of the second listing being computed among the jobs that
    are left.  Afterwards the table holds exactly the jobs that were not
    Done, none of them Done, so no job is reported as Done twice; no signal
    is sent and the terminal stays where it was. *)
Theorem jobs_reports_prunes_and_lists
    (s : shell) (l : list ptr) (children : list (Z * Z))
    (Hwf : well_formed s l) :
  exists s1 rest s',
    update_job_table_statuses children s = Ret (s1, rest) /\
    table s1 l /\
    execute_jobs children s = Ret (s', rest) /\
    let l' := List.filter (not_done s1) l in
    table s' l' /\
    (forall a, a ∈ l' -> not_done s' a = true) /\
    stdout s' =
      stdout s1
      +:+ (if max_background_number s1 l =? 0 then ""
           else listing (heap s1) (max_background_number s1 l)
                  false false true l)
      +:+ (if max_background_number s1 l' =? 0 then ""
           else listing (heap s1) (max_background_number s1 l')
                  true true false l') /\
    signals s' = signals s1 /\ tty_pgrp s' = tty_pgrp s1.
Proof.
  destruct (update_job_table_statuses_well_formed l children s Hwf)
    as (s1 & rest & Hdrain & Hwf1 & _).
  exists s1, rest.
  set (out1 := if max_background_number s1 l =? 0 then ""
               else listing (heap s1) (max_background_number s1 l)
                      false false true l).
  assert (Ht2 : table (printf out1 s1) l) by apply Hwf1.
  destruct (TableProofs.remove_done_jobs_spec (printf out1 s1) l Ht2)
    as (s3 & Hprune & Ht3 & _ & Hkept & Hlive & _ & Htty3 & Hout3 & Hsig3).
  change (not_done (printf out1 s1)) with (not_done s1) in *.
  set (l' := List.filter (not_done s1) l) in *.
  assert (Hpay : forall a, a ∈ l' ->
            payload <$> heap s3 !! a = payload <$> heap s1 !! a).
  { intros a Ha%list_elem_of_In. apply List.filter_In in Ha as [_ Hnd].
    apply (Hkept a). by right. }
  eexists. split; [done|]. split; [apply Hwf1|]. split.
  { unfold execute_jobs. rewrite Hdrain. exec_step.
    rewrite (ListingProofs.print_job_table_spec s1 l) by apply Hwf1.
    exec_step. fold out1. rewrite Hprune. exec_step.
    rewrite (ListingProofs.print_job_table_spec s3 l') by done.
    exec_step. reflexivity. }
  cbv zeta. split; [exact Ht3|]. split; [exact Hlive|].
  cbn [stdout printf signals tty_pgrp].
  rewrite Hout3, Hsig3, Htty3. cbn [stdout printf signals tty_pgrp].
  rewrite (max_background_number_payload s1 s3 l' Hpay).
  rewrite (ListingProofs.listing_agree (heap s1) (heap s3)) by done.
  by rewrite ListingProofs.append_assoc.
Qed.

Lemma jobs_reports_prunes_and_lists_witness :
  exists s',
    execute_jobs [] Samples.three_jobs_shell = Ret (s', []) /\
    table s' [1%positive; 3%positive] /\
    stdout s' =
      "[2]-" +:+ tab +:+ "Done" +:+ tab +:+ tab +:+ tab
      +:+ "sleep 60 &" +:+ lf
      +:+ "[1]-" +:+ tab +:+ "Running" +:+ tab +:+ tab +:+ tab
      +:+ "sleep 30 &" +:+ lf
      +:+ "[3]+" +:+ tab +:+ "Stopped" +:+ tab +:+ tab +:+ tab
      +:+ "cat" +:+ lf.
Proof.
  destruct (jobs_reports_prunes_and_lists Samples.three_jobs_shell
              [1%positive; 2%positive; 3%positive] []
              three_jobs_shell_well_formed)
    as (s1 & rest & s' & Hdrain & _ & Hrun & Ht & _ & Hout & _).
  injection Hdrain as <- <-.
  exists s'. split; [exact Hrun|]. split; [exact Ht|exact Hout].
Defined.





Section Environment.
Variable sys_kill : Z -> Z -> Z.

(** X19. In a well-formed table [bg] first drains, then continues the
    last Stopped background job of the table and no other: with no such job
    it does nothing more; otherwise, provided the command-string update is
    defined on the job's command (it is when the command already ends in
    [ &], and only then), it prints the job's number, [+] or [-]
    and the updated command, sends SIGCONT to the job's process group and to
    no other, and leaves the job marked background and Running (Stopped
    again when [kill] failed).  It never waits and never hands over the
    terminal. *)
Theorem bg_continues_last_stopped_job
    (s : shell) (l : list ptr) (children : list (Z * Z))
    (Hwf : well_formed s l) :
  exists s1 rest,
    update_job_table_statuses children s = Ret (s1, rest) /\
    table s1 l /\
    (last (List.filter (stopped_in_background s1) l) = None ->
     execute_bg sys_kill children s = Ret (s1, rest)) /\
    (forall a ja s2,
        last (List.filter (stopped_in_background s1) l) = Some a ->
        heap s1 !! a = Some ja ->
        update_job_command_str  a true s1 = Ret s2 ->
        exists s' c,
          execute_bg sys_kill children s = Ret (s', rest) /\
          command <$> (heap s2 !! a) = Some c /\
          stdout s' =
            stdout s1 +:+
            ("[" +:+ string_of_int (job_number ja)
             +:+ (if bool_decide (max_background_number s1 l = job_number ja)
                  then "]+" else "]-")
             +:+ tab +:+ c +:+ lf) /\
          signals s' = signals s1 ++ [(- pgid ja, SIGCONT)] /\
          tty_pgrp s' = tty_pgrp s1 /\
          heap s' !! a =
            Some (set_background true
                    (set_status
                       (if sys_kill (- pgid ja) SIGCONT <? 0
                        then STOPPED else RUNNING)
                       (set_command c ja)))).
Proof.
  destruct (update_job_table_statuses_well_formed l children s Hwf)
    as (s1 & rest & Hrun & Hwf1 & _).
  exists s1, rest. split; [done|]. split; [apply Hwf1|].
  pose proof (TableProofs.find_next_job_to_bg_spec s1 l (proj1 Hwf1))
    as Hfind.
  split.
  { intros Hnone. unfold execute_bg. rewrite Hrun. exec_step.
    rewrite Hfind, Hnone. done. }
  intros a ja s2 Hlast Ha Hupd.
  unfold execute_bg. rewrite Hrun. exec_step. rewrite Hfind, Hlast.
  exec_step.
  destruct (update_job_command_str_returns _ _ _ _ _ Ha Hupd) as [c ->].
  rewrite Hupd. exec_step.
  set (j2 := set_command c ja).
  set (s2 := with_heap (<[a := j2]> (heap s1)) s1).
  assert (Hwf2 : well_formed s2 l)
    by (by apply (well_formed_store s1 l a ja j2)).
  rewrite (find_most_recent_job_num_spec s2 l) by apply Hwf2. exec_step.
  assert (Hmax : max_background_number s2 l = max_background_number s1 l).
  { apply max_background_number_agree. intros b _. simpl.
    destruct (decide (a = b)) as [->|Hne].
    - by rewrite lookup_insert_eq, Ha.
    - by rewrite lookup_insert_ne. }
  rewrite Hmax.
  assert (Ha2 : heap s2 !! a = Some j2) by apply lookup_insert_eq.
  unfold load at 1. rewrite Ha2. exec_step.
  rewrite (store_ret a _ s2 j2) by done. exec_step.
  set (j3 := set_status RUNNING j2).
  set (s3 := with_heap (<[a := j3]> (heap s2)) s2).
  assert (Ha3 : heap s3 !! a = Some j3) by apply lookup_insert_eq.
  unfold print_job, load. rewrite Ha3. exec_step. simpl andb. cbv iota.
  change (job_number j2) with (job_number ja).
  change (job_number j3) with (job_number ja).
  change (command j3) with c.
  destruct (bool_decide (max_background_number s1 l = job_number ja)) eqn:Hmost;
    simpl andb; cbv iota; exec_step.
  all: set (s4 := printf _ s3).
  all: rewrite (store_ret a _ s4 j3) by done; exec_step.
  all: set (j5 := set_background true j3).
  all: set (s5 := with_heap (<[a := j5]> (heap s4)) s4).
  all: assert (Ha5 : heap s5 !! a = Some j5) by apply lookup_insert_eq.
  all: unfold continue_background_job, load; rewrite Ha5; exec_step.
  all: change (pgid j5) with (pgid ja).
  all: destruct (sys_kill (- pgid ja) SIGCONT <? 0).
  all: try (rewrite (store_ret a _ (record_kill (- pgid ja) SIGCONT s5) j5)
              by done; exec_step).
  all: eexists _, c; split; [done|]; split; [done|].
  all: split; [done|]; split; [done|]; split; [done|].
  all: simpl; by rewrite lookup_insert_eq.
Qed.

End Environment.

(** When the suffix test says yes, the command ends in [ &]. *)
Lemma has_bg_suffix_true (c : string) :
  has_bg_suffix c (Z.of_nat (String.length c)) = Ret true ->
  exists p, c = p +:+ " &".
Proof.
  intros H. destruct c as [|x [|y c]].
  - done.
  - unfold has_bg_suffix, char_at in H. simpl in H.
    by destruct (bool_decide (x = "&"%char)).
  - destruct (string_last_two (String x (String y c))) as (p & c2 & c1 & Hp);
      [simpl; lia|].
    rewrite Hp, has_bg_suffix_last_two in H. injection H as H.
    apply andb_true_iff in H as [->%bool_decide_eq_true ->%bool_decide_eq_true].
    by exists p.
Qed.

(** In the background direction the update returns only on a command that
    already ends in [ &], and then it changes nothing. *)
Lemma update_job_command_str_background_returns (a : ptr) (s s1 : shell) :
  update_job_command_str a true s = Ret s1 ->
  s1 = s /\
  exists j p, heap s !! a = Some j /\ command j = p +:+ " &".
Proof.
  unfold update_job_command_str, load.
  destruct (heap s !! a) as [j|] eqn:Ha; [|done].
  cbn [mbind exec_bind deref].
  destruct (has_bg_suffix (command j) (Z.of_nat (String.length (command j))))
    as [[|]| |] eqn:Hsuf; [| |done|done]; cbn [mbind exec_bind].
  - intros [= <-]. split; [done|].
    destruct (has_bg_suffix_true _ Hsuf) as [p Hp]. by exists j, p.
  - by rewrite ShellProofs.c_string_bg_suffix.
Qed.

Lemma three_background_jobs_shell_well_formed :
  well_formed Samples.three_background_jobs_shell
    [1%positive; 2%positive; 3%positive].
Proof.
  split.
  - split; [done|]. eexists. split; [reflexivity|].
    split; [done|]. eexists. split; [reflexivity|].
    split; [done|]. eexists. split; [reflexivity|]. done.
  - intros l1 a l2 j Hl Hj Hfg.
    destruct l1 as [|? [|? [|? [|? ?]]]]; simplify_eq/=;
      vm_compute in Hj; by simplify_eq.
Qed.

Lemma bg_continues_last_stopped_job_witness :
  exists s',
    execute_bg Examples.kill_succeeds [] Samples.three_background_jobs_shell =
      Ret (s', []) /\
    stdout s' = "[3]+" +:+ tab +:+ "cat &" +:+ lf /\
    signals s' = [(-102, SIGCONT)].
Proof.
  destruct (bg_continues_last_stopped_job Examples.kill_succeeds
              Samples.three_background_jobs_shell
              [1%positive; 2%positive; 3%positive] []
              three_background_jobs_shell_well_formed)
    as (s1 & rest & Hdrain & _ & _ & Hbg).
  injection Hdrain as <- <-.
  destruct (Hbg 3%positive (set_command "cat &" Samples.stopped_cat_job)
              Samples.three_background_jobs_shell)
    as (s' & c & Hrun & Hc & Hout & Hsig & _).
  - reflexivity.
  - reflexivity.
  - vm_compute. reflexivity.
  - exists s'. split; [exact Hrun|].
    assert (c = "cat &") as -> by (vm_compute in Hc; congruence).
    split; [exact Hout|exact Hsig].
Defined.

End ShellResults.

(** ** What the shell never does to the terminal and to its children *)

Module FrameProofs.
Import Jobs Shell Notions.

Lemma kept_refl s : kept s s.
Proof.
  repeat split; try done.
  - exists "". by rewrite ShellProofs.append_empty_r.
  - exists []. by rewrite app_nil_r.
Qed.

Lemma kept_trans s1 s2 s3 : kept s1 s2 -> kept s2 s3 -> kept s1 s3.
Proof.
  intros (Hp & Ht & (o & Ho) & (g & Hg & Hf))
         (Hp' & Ht' & (o' & Ho') & (g' & Hg' & Hf')).
  repeat split; try congruence.
  - exists (o +:+ o'). by rewrite Ho', Ho, ListingProofs.append_assoc.
  - exists (g ++ g'). split; [by rewrite Hg', Hg, app_assoc|].
    by apply Forall_app.
Qed.

Lemma kept_weaken s s' : kept s s' -> kept_or_returned s s'.
Proof. intros (Hp & Ht & Ho & Hg). repeat split; auto. Qed.

Lemma kept_or_returned_trans s1 s2 s3 :
  kept_or_returned s1 s2 -> kept_or_returned s2 s3 -> kept_or_returned s1 s3.
Proof.
  intros (Hp & Ht & (o & Ho) & (g & Hg & Hf))
         (Hp' & Ht' & (o' & Ho') & (g' & Hg' & Hf')).
  split; [congruence|]. split; [|split].
  - destruct Ht, Ht'; [left|right|right|right]; congruence.
  - exists (o +:+ o'). by rewrite Ho', Ho, ListingProofs.append_assoc.
  - exists (g ++ g'). split; [by rewrite Hg', Hg, app_assoc|].
    by apply Forall_app.
Qed.

Lemma kept_with_heap h s : kept s (with_heap h s).
Proof. apply (kept_refl s). Qed.

Lemma kept_with_head p s : kept s (with_head p s).
Proof. apply (kept_refl s). Qed.

Lemma kept_printf t s : kept s (printf t s).
Proof.
  repeat split; try done.
  - by exists t.
  - exists []. by rewrite app_nil_r.
Qed.

Lemma kept_record_kill pid s : kept s (record_kill pid SIGCONT s).
Proof.
  repeat split; try done.
  - exists "". simpl. by rewrite ShellProofs.append_empty_r.
  - exists [(pid, SIGCONT)]. split; [done|]. by repeat constructor.
Qed.

Lemma store_kept a f s s' : store a f s = Ret s' -> kept s s'.
Proof.
  unfold store, load. destruct (heap s !! a); [|done].
  intros [= <-]. apply kept_with_heap.
Qed.

Lemma free_job_kept a s s' : free_job a s = Ret s' -> kept s s'.
Proof.
  unfold free_job, load. destruct (heap s !! a); [|done].
  intros [= <-]. apply kept_with_heap.
Qed.

Lemma add_job_loop_kept job fuel : forall s curr s',
  add_job_loop fuel s curr job = Ret s' -> kept s s'.
Proof.
  induction fuel as [|fuel IH]; intros s curr s' H; [done|].
  simpl in H. destruct curr as [c|]; [|injection H as <-; apply kept_refl].
  unfold load in H. destruct (heap s !! c) as [cj|]; [|done].
  cbn [mbind exec_bind deref] in H.
  destruct (next cj); [by eapply IH|by eapply store_kept].
Qed.

Lemma add_job_kept job s s' : add_job job s = Ret s' -> kept s s'.
Proof.
  unfold add_job. destruct (job_list_head s).
  - apply add_job_loop_kept.
  - intros [= <-]. apply kept_with_head.
Qed.

Lemma remove_done_jobs_loop_kept fuel : forall s prev curr s',
  remove_done_jobs_loop fuel s prev curr = Ret s' -> kept s s'.
Proof.
  induction fuel as [|fuel IH]; intros s prev curr s' H; [done|].
  simpl in H. destruct curr as [c|]; [|injection H as <-; apply kept_refl].
  unfold load in H. destruct (heap s !! c) as [cj|]; [|done].
  cbn [mbind exec_bind deref] in H.
  destruct (bool_decide (status cj = DONE)); [|by eapply IH].
  destruct prev as [p0|].
  - destruct (store p0 (set_next (next cj)) s) as [s1| |] eqn:E1; [|done|done].
    cbn [mbind exec_bind] in H.
    destruct (free_job c s1) as [s2| |] eqn:E2; [|done|done].
    cbn [mbind exec_bind] in H.
    eapply kept_trans; [by eapply store_kept|].
    eapply kept_trans; [by eapply free_job_kept|by eapply IH].
  - destruct (free_job c (with_head (next cj) s)) as [s1| |] eqn:E1;
      [|done|done].
    cbn [mbind exec_bind] in H.
    eapply kept_trans; [apply (kept_with_head (next cj))|].
    eapply kept_trans; [by eapply free_job_kept|by eapply IH].
Qed.

Lemma remove_done_jobs_kept s s' : remove_done_jobs s = Ret s' -> kept s s'.
Proof. apply remove_done_jobs_loop_kept. Qed.

Lemma remove_job_loop_kept pg fg_free fuel : forall s prev curr s' r,
  remove_job_loop fuel s prev curr pg fg_free = Ret (s', r) -> kept s s'.
Proof.
  induction fuel as [|fuel IH]; intros s prev curr s' r H; [done|].
  simpl in H. destruct curr as [c|]; [|injection H as <- _; apply kept_refl].
  unfold load in H. destruct (heap s !! c) as [cj|]; [|done].
  cbn [mbind exec_bind deref] in H.
  destruct (bool_decide (pgid cj = pg)); [|by eapply IH].
  assert (Hunlink : forall s1,
    match prev with
    | Some p => store p (set_next (next cj)) s
    | None => Ret (with_head (next cj) s)
    end = Ret s1 -> kept s s1).
  { intros s1. destruct prev.
    - apply store_kept.
    - intros [= <-]. apply kept_with_head. }
  destruct (match prev with
            | Some p => store p (set_next (next cj)) s
            | None => Ret (with_head (next cj) s)
            end) as [s1| |] eqn:E1; [|done|done].
  cbn [mbind exec_bind] in H.
  eapply kept_trans; [by apply Hunlink|].
  destruct fg_free.
  - destruct (free_job c s1) as [s2| |] eqn:E2; [|done|done].
    cbn [mbind exec_bind] in H. injection H as <- _. by eapply free_job_kept.
  - cbn [mbind exec_bind] in H. injection H as <- _. apply kept_refl.
Qed.

Lemma remove_job_kept pg fg_free s s' r :
  remove_job pg fg_free s = Ret (s', r) -> kept s s'.
Proof. apply remove_job_loop_kept. Qed.

Lemma free_job_table_loop_kept fuel : forall s curr s',
  free_job_table_loop fuel s curr = Ret s' -> kept s s'.
Proof.
  induction fuel as [|fuel IH]; intros s curr s' H; [done|].
  simpl in H. destruct curr as [c|]; [|injection H as <-; apply kept_refl].
  unfold load in H. destruct (heap s !! c) as [cj|] eqn:Hc; [|done].
  cbn [mbind exec_bind deref] in H.
  destruct (free_job c s) as [s1| |] eqn:E1; [|done|done].
  cbn [mbind exec_bind] in H.
  eapply kept_trans; [by eapply free_job_kept|by eapply IH].
Qed.

Lemma print_job_kept a m c f s s' :
  print_job a m c f s = Ret s' -> kept s s'.
Proof.
  unfold print_job, load. destruct (heap s !! a) as [j|]; [|done].
  cbn [mbind exec_bind deref].
  repeat match goal with
         | |- context [if ?b then _ else _] => destruct b
         end;
    intros [= <-]; first [apply kept_printf | apply kept_refl].
Qed.

Lemma print_job_table_loop_kept n r st d fuel : forall s curr s',
  print_job_table_loop fuel s curr n r st d = Ret s' -> kept s s'.
Proof.
  induction fuel as [|fuel IH]; intros s curr s' H; [done|].
  simpl in H. destruct curr as [c|]; [|injection H as <-; apply kept_refl].
  unfold load in H. destruct (heap s !! c) as [cj|] eqn:Hc; [|done].
  cbn [mbind exec_bind deref] in H.
  match type of H with
  | mbind _ ?m = _ => destruct m as [s1| |] eqn:E1; [|done|done]
  end.
  cbn [mbind exec_bind] in H.
  eapply kept_trans; [|by eapply IH].
  repeat match type of E1 with
         | (if ?b then _ else _) = _ => destruct b
         end;
    first [by eapply print_job_kept | injection E1 as <-; apply kept_refl].
Qed.

Lemma print_job_table_kept r st d s s' :
  print_job_table r st d s = Ret s' -> kept s s'.
Proof.
  unfold print_job_table.
  destruct (find_most_recent_job_num s) as [n| |]; [|done|done].
  cbn [mbind exec_bind]. destruct (n =? 0).
  - intros [= <-]. apply kept_refl.
  - apply print_job_table_loop_kept.
Qed.

Lemma update_job_command_str_kept a apply_bg s s' :
  update_job_command_str a apply_bg s = Ret s' -> kept s s'.
Proof.
  unfold update_job_command_str, load.
  destruct (heap s !! a) as [j|]; [|done].
  cbn [mbind exec_bind deref].
  destruct apply_bg;
    (destruct (has_bg_suffix (command j) (Z.of_nat (String.length (command j))))
       as [[|]| |]; [| |done|done]);
    cbn [mbind exec_bind negb];
    try (intros [= <-]; apply kept_refl).
  apply store_kept.
Qed.

Lemma update_job_status_kept status_word pid s s' r :
  update_job_status status_word pid s = Ret (s', r) -> kept s s'.
Proof.
  unfold update_job_status.
  destruct (pid <=? 0); [intros [= <- _]; apply kept_refl|].
  destruct (find_job pid s) as [[job|]| |]; [| |done|done];
    cbn [mbind exec_bind]; [|intros [= <- _]; apply kept_refl].
  destruct (WIFSTOPPED status_word).
  - destruct (store job (set_status STOPPED) s) as [s1| |] eqn:E1;
      [|done|done].
    cbn [mbind exec_bind]. apply store_kept in E1.
    destruct ((WSTOPSIG status_word =? SIGTSTP)
              || (WSTOPSIG status_word =? SIGSTOP));
      [|by intros [= <- _]].
    destruct (store job (set_background true) s1) as [s2| |] eqn:E2;
      [|done|done].
    cbn [mbind exec_bind]. apply store_kept in E2.
    unfold load. destruct (heap s2 !! job) as [j|]; [|done].
    cbn [mbind exec_bind deref].
    destruct (job_number j =? FG_JOB_NUM);
      [|intros [= <- _]; by eapply kept_trans].
    destruct (remove_job pid false s2) as [[s3 r3]| |] eqn:E3; [|done|done].
    cbn [mbind exec_bind]. apply remove_job_kept in E3.
    destruct (find_most_recent_job_num s3) as [n| |]; [|done|done].
    cbn [mbind exec_bind].
    destruct (store job (set_job_number (int_wrap (n + 1))) s3)
      as [s4| |] eqn:E4; [|done|done].
    cbn [mbind exec_bind]. apply store_kept in E4.
    destruct (add_job job s4) as [s5| |] eqn:E5; [|done|done].
    cbn [mbind exec_bind]. apply add_job_kept in E5.
    intros [= <- _].
    repeat (eapply kept_trans; [eassumption|]). apply kept_refl.
  - destruct (store job (set_status DONE) s) as [s1| |] eqn:E1;
      [|done|done].
    cbn [mbind exec_bind]. intros [= <- _]. by eapply store_kept.
Qed.

Lemma update_job_table_statuses_kept : forall children s s' rest,
  update_job_table_statuses children s = Ret (s', rest) -> kept s s'.
Proof.
  induction children as [|[pid status_word] children IH]; intros s s' rest H.
  - injection H as <- _. apply kept_refl.
  - simpl in H.
    destruct (update_job_status status_word pid s) as [[s1 r]| |] eqn:E1;
      [|done|done].
    cbn [mbind exec_bind] in H. apply update_job_status_kept in E1.
    destruct (r =? 0).
    + by injection H as <- _.
    + eapply kept_trans; [done|by eapply IH].
Qed.

Lemma execute_in_foreground_loop_kept job : forall children s s' rest,
  execute_in_foreground_loop children job s = Ret (s', rest) -> kept s s'.
Proof.
  induction children as [|[pid status_word] children IH]; intros s s' rest H.
  - injection H as <- _. apply kept_refl.
  - simpl in H.
    destruct (update_job_status status_word pid s) as [[s1 r]| |] eqn:E1;
      [|done|done].
    cbn [mbind exec_bind] in H. apply update_job_status_kept in E1.
    destruct (r =? 0); [by injection H as <- _|].
    unfold load in H. destruct (heap s1 !! job) as [j|]; [|done].
    cbn [mbind exec_bind deref] in H.
    destruct (bool_decide (status j = RUNNING)).
    + eapply kept_trans; [done|by eapply IH].
    + by injection H as <- _.
Qed.

(** After a foreground wait the terminal is the shell's. *)
Lemma execute_in_foreground_returns children job s s' rest :
  execute_in_foreground children job s = Ret (s', rest) ->
  kept_or_returned s s' /\ tty_pgrp s' = shell_pid s.
Proof.
  unfold execute_in_foreground, load.
  destruct (heap s !! job) as [j|]; [|done].
  cbn [mbind exec_bind deref].
  destruct (execute_in_foreground_loop children job (tcsetpgrp (pgid j) s))
    as [[s1 rest1]| |] eqn:E1; [|done|done].
  cbn [mbind exec_bind]. intros [= <- _].
  apply execute_in_foreground_loop_kept in E1.
  destruct E1 as (Hp & Ht & Ho & Hg). simpl in *.
  repeat split; auto.
Qed.

Lemma continue_background_job_returns kill children job fg s s' rest :
  continue_background_job kill children job fg s = Ret (s', rest) ->
  kept_or_returned s s' /\ (fg = false -> kept s s').
Proof.
  unfold continue_background_job, load.
  destruct (heap s !! job) as [j|]; [|done].
  cbn [mbind exec_bind deref].
  pose proof (kept_record_kill (- pgid j) s) as Hk.
  destruct (kill (- pgid j) SIGCONT <? 0).
  - destruct (store job (set_status STOPPED)
                (record_kill (- pgid j) SIGCONT s)) as [s2| |] eqn:E;
      [|done|done].
    cbn [mbind exec_bind]. intros [= <- _]. apply store_kept in E.
    assert (kept s s2) by (by eapply kept_trans).
    split; [by apply kept_weaken|done].
  - destruct fg.
    + intros H. apply execute_in_foreground_returns in H as [H _].
      split; [|done].
      eapply kept_or_returned_trans; [by apply kept_weaken|].
      destruct H as (Hp & Ht & Ho & Hg). simpl in *. by repeat split.
    + intros [= <- _]. split; [by apply kept_weaken|done].
Qed.

Section Environment.
Variable sys_kill : Z -> Z -> Z.

Lemma execute_bg_kept children s s' rest :
  execute_bg sys_kill children s = Ret (s', rest) ->
  kept s s'.
Proof.
  unfold execute_bg.
  destruct (update_job_table_statuses children s) as [[s1 rest1]| |] eqn:E1;
    [|done|done].
  cbn [mbind exec_bind]. apply update_job_table_statuses_kept in E1.
  destruct (find_next_job_to_bg s1) as [[job|]| |]; [| |done|done];
    cbn [mbind exec_bind]; [|by intros [= <- _]].
  destruct (update_job_command_str  job true s1)
    as [s2| |] eqn:E2; [|done|done].
  cbn [mbind exec_bind]. apply update_job_command_str_kept in E2.
  destruct (find_most_recent_job_num s2) as [n| |]; [|done|done].
  cbn [mbind exec_bind]. unfold load at 1.
  destruct (heap s2 !! job) as [j|]; [|done]. cbn [mbind exec_bind deref].
  destruct (store job (set_status RUNNING) s2) as [s3| |] eqn:E3;
    [|done|done].
  cbn [mbind exec_bind]. apply store_kept in E3.
  destruct (print_job job (bool_decide (n = job_number j)) true false s3)
    as [s4| |] eqn:E4; [|done|done].
  cbn [mbind exec_bind]. apply print_job_kept in E4.
  destruct (store job (set_background true) s4) as [s5| |] eqn:E5;
    [|done|done].
  cbn [mbind exec_bind]. apply store_kept in E5.
  intros [_ H]%continue_background_job_returns. specialize (H eq_refl).
  repeat (eapply kept_trans; [eassumption|]). apply kept_refl.
Qed.

Lemma execute_fg_returns children s s' rest :
  execute_fg sys_kill children s = Ret (s', rest) ->
  kept_or_returned s s'.
Proof.
  unfold execute_fg.
  destruct (update_job_table_statuses children s) as [[s1 rest1]| |] eqn:E1;
    [|done|done].
  cbn [mbind exec_bind]. apply update_job_table_statuses_kept in E1.
  destruct (find_next_job_to_fg s1) as [[job|]| |]; [| |done|done];
    cbn [mbind exec_bind]; [|intros [= <- _]; by apply kept_weaken].
  destruct (update_job_command_str  job false s1)
    as [s2| |] eqn:E2; [|done|done].
  cbn [mbind exec_bind]. apply update_job_command_str_kept in E2.
  destruct (find_most_recent_job_num s2) as [n| |]; [|done|done].
  cbn [mbind exec_bind]. unfold load at 1.
  destruct (heap s2 !! job) as [j|]; [|done]. cbn [mbind exec_bind deref].
  destruct (store job (set_status RUNNING) s2) as [s3| |] eqn:E3;
    [|done|done].
  cbn [mbind exec_bind]. apply store_kept in E3.
  destruct (print_job job (bool_decide (n = job_number j)) true true s3)
    as [s4| |] eqn:E4; [|done|done].
  cbn [mbind exec_bind]. apply print_job_kept in E4.
  destruct (store job (set_background false) s4) as [s5| |] eqn:E5;
    [|done|done].
  cbn [mbind exec_bind]. apply store_kept in E5.
  intros [H _]%continue_background_job_returns.
  eapply kept_or_returned_trans; [|exact H]. apply kept_weaken.
  repeat (eapply kept_trans; [eassumption|]). apply kept_refl.
Qed.

Lemma execute_jobs_kept children s s' rest :
  execute_jobs children s = Ret (s', rest) -> kept s s'.
Proof.
  unfold execute_jobs.
  destruct (update_job_table_statuses children s) as [[s1 rest1]| |] eqn:E1;
    [|done|done].
  cbn [mbind exec_bind]. apply update_job_table_statuses_kept in E1.
  destruct (print_job_table false false true s1) as [s2| |] eqn:E2;
    [|done|done].
  cbn [mbind exec_bind]. apply print_job_table_kept in E2.
  destruct (remove_done_jobs s2) as [s3| |] eqn:E3; [|done|done].
  cbn [mbind exec_bind]. apply remove_done_jobs_kept in E3.
  destruct (print_job_table true true false s3) as [s4| |] eqn:E4;
    [|done|done].
  cbn [mbind exec_bind]. apply print_job_table_kept in E4.
  intros [= <- _].
  repeat (eapply kept_trans; [eassumption|]). apply kept_refl.
Qed.

Lemma execute_custom_commands_returns command children s s' rest :
  execute_custom_commands sys_kill command children s =
    Ret (Some (s', rest)) ->
  kept_or_returned s s'.
Proof.
  unfold execute_custom_commands.
  destruct (String.eqb command FOREGROUND).
  { destruct (execute_fg sys_kill children s)
      as [[s1 r1]| |] eqn:E; [|done|done].
    cbn [mbind exec_bind]. intros [= <- _]. by eapply execute_fg_returns. }
  destruct (String.eqb command BACKGROUND).
  { destruct (execute_bg sys_kill children s)
      as [[s1 r1]| |] eqn:E; [|done|done].
    cbn [mbind exec_bind]. intros [= <- _].
    apply kept_weaken. by eapply execute_bg_kept. }
  destruct (String.eqb command JOBS); [|done].
  destruct (execute_jobs children s) as [[s1 r1]| |] eqn:E; [|done|done].
  cbn [mbind exec_bind]. intros [= <- _].
  apply kept_weaken. by eapply execute_jobs_kept.
Qed.

Lemma execute_job_returns fork_result children job s c :
  execute_job fork_result children job s = Ret c ->
  kept_or_returned s (shell_of c).
Proof.
  unfold execute_job.
  destruct (fork_result <? 0);
    [intros [= <-]; apply kept_weaken, kept_refl|].
  destruct (store job (set_pgid fork_result) s) as [s1| |] eqn:E1;
    [|done|done].
  cbn [mbind exec_bind]. apply store_kept in E1.
  destruct (store job (set_status RUNNING) s1) as [s2| |] eqn:E2;
    [|done|done].
  cbn [mbind exec_bind]. apply store_kept in E2.
  unfold load at 1. destruct (heap s2 !! job) as [j|]; [|done].
  cbn [mbind exec_bind deref].
  destruct (if background j
            then n ← find_most_recent_job_num s2;
                 store job (set_job_number (int_wrap (n + 1))) s2
            else store job (set_job_number FG_JOB_NUM) s2)
    as [s3| |] eqn:E3; [|done|done].
  cbn [mbind exec_bind].
  assert (H23 : kept s2 s3).
  { destruct (background j); [|by eapply store_kept].
    destruct (find_most_recent_job_num s2); [|done|done].
    cbn [mbind exec_bind] in E3. by eapply store_kept. }
  clear E3.
  destruct (add_job job s3) as [s4| |] eqn:E4; [|done|done].
  cbn [mbind exec_bind]. apply add_job_kept in E4.
  assert (H4 : kept s s4).
  { repeat (eapply kept_trans; [eassumption|]). apply kept_refl. }
  destruct (negb (background j)).
  - destruct (execute_in_foreground children job s4) as [[s5 r5]| |] eqn:E5;
      [|done|done].
    cbn [mbind exec_bind]. intros [= <-]. simpl.
    apply execute_in_foreground_returns in E5 as [E5 _].
    eapply kept_or_returned_trans; [by apply kept_weaken|done].
  - intros [= <-]. simpl. by apply kept_weaken.
Qed.

(** The end of every turn: report the Done jobs and prune them. *)
Lemma report_and_prune_kept s s' :
  (s2 ← print_job_table false false true s; remove_done_jobs s2) = Ret s' ->
  kept s s'.
Proof.
  destruct (print_job_table false false true s) as [s2| |] eqn:E2;
    [|done|done].
  cbn [mbind exec_bind]. apply print_job_table_kept in E2.
  intros E3%remove_done_jobs_kept. by eapply kept_trans.
Qed.

Lemma main_iteration_returns line fork_result children s c :
  main_iteration sys_kill line fork_result children s
    = Ret c ->
  kept_or_returned s (shell_of c).
Proof.
  unfold main_iteration.
  destruct (update_job_table_statuses children s) as [[s1 children1]| |]
    eqn:E1; [|done|done].
  cbn [mbind exec_bind]. apply update_job_table_statuses_kept in E1.
  intros H. eapply kept_or_returned_trans; [by apply kept_weaken|].
  clear E1. destruct line as [command|].
  2:{ unfold free_job_table in H.
      destruct (free_job_table_loop (chain_fuel s1) s1 (job_list_head s1))
        as [s2| |] eqn:E2; [|done|done].
      cbn [mbind exec_bind] in H. injection H as <-. simpl.
      apply kept_weaken. by eapply free_job_table_loop_kept. }
  destruct (Parser.parse_command command) as [[toks len]| |]; [|done|done].
  cbn [mbind exec_bind] in H.
  destruct (len =? 0).
  { destruct (print_job_table false false true s1) as [s2| |] eqn:E2;
      [|done|done].
    cbn [mbind exec_bind] in H.
    destruct (remove_done_jobs s2) as [s3| |] eqn:E3; [|done|done].
    cbn [mbind exec_bind] in H. injection H as <-. simpl.
    apply kept_weaken. apply report_and_prune_kept. by rewrite E2. }
  destruct (execute_custom_commands sys_kill command
              children1 s1) as [[[s2 children2]|]| |] eqn:E2; [| |done|done];
    cbn [mbind exec_bind] in H.
  { apply execute_custom_commands_returns in E2.
    destruct (print_job_table false false true s2) as [s3| |] eqn:E3;
      [|done|done].
    cbn [mbind exec_bind] in H.
    destruct (remove_done_jobs s3) as [s4| |] eqn:E4; [|done|done].
    cbn [mbind exec_bind] in H. injection H as <-. simpl.
    eapply kept_or_returned_trans; [done|].
    apply kept_weaken. apply report_and_prune_kept. by rewrite E3. }
  destruct (Parser.process_input len toks (zero_job command)) as [o| |];
    [|done|done].
  cbn [mbind exec_bind] in H.
  set (job := fresh (dom (heap s1))) in *.
  set (s3 := printf (Parser.printed o)
               (with_heap (<[job := Parser.parsed_job o]>
                             (heap (with_heap (<[job := zero_job command]>
                                                 (heap s1)) s1)))
                  (with_heap (<[job := zero_job command]> (heap s1)) s1)))
    in *.
  assert (H3 : kept s1 s3) by apply (kept_printf (Parser.printed o) s1).
  destruct (Parser.ret o =? COMMAND_PROCESSING_ERROR).
  { destruct (free_job job s3) as [s4| |] eqn:E4; [|done|done].
    cbn [mbind exec_bind] in H. apply free_job_kept in E4.
    destruct (print_job_table false false true s4) as [s5| |] eqn:E5;
      [|done|done].
    cbn [mbind exec_bind] in H.
    destruct (remove_done_jobs s5) as [s6| |] eqn:E6; [|done|done].
    cbn [mbind exec_bind] in H. injection H as <-. simpl.
    apply kept_weaken.
    eapply kept_trans; [done|]. eapply kept_trans; [done|].
    apply report_and_prune_kept. by rewrite E5. }
  destruct (execute_job fork_result children1 job s3) as [launched| |] eqn:E4;
    [|done|done].
  cbn [mbind exec_bind] in H. apply execute_job_returns in E4.
  assert (H4 : kept_or_returned s1 (shell_of launched)).
  { eapply kept_or_returned_trans; [by apply kept_weaken|done]. }
  destruct launched as [s4 children2|code s4]; simpl in *.
  - destruct (update_job_table_statuses children2 s4)
      as [[s5 children3]| |] eqn:E5; [|done|done].
    cbn [mbind exec_bind] in H. apply update_job_table_statuses_kept in E5.
    destruct (print_job_table false false true s5) as [s6| |] eqn:E6;
      [|done|done].
    cbn [mbind exec_bind] in H.
    destruct (remove_done_jobs s6) as [s7| |] eqn:E7; [|done|done].
    cbn [mbind exec_bind] in H. injection H as <-. simpl.
    eapply kept_or_returned_trans; [done|]. apply kept_weaken.
    eapply kept_trans; [done|]. apply report_and_prune_kept. by rewrite E6.
  - injection H as <-. done.
Qed.

Lemma main_loop_returns : forall turns s c,
  main_loop sys_kill turns s = Ret c ->
  kept_or_returned s (shell_of c).
Proof.
  induction turns as [|[[line fork_result] children] turns IH]; intros s c H.
  - injection H as <-. apply kept_weaken, kept_refl.
  - simpl in H.
    destruct (main_iteration sys_kill line fork_result
                children s) as [c1| |] eqn:E1; [|done|done].
    cbn [mbind exec_bind] in H. apply main_iteration_returns in E1.
    destruct c1 as [s1 r1|code s1]; simpl in *.
    + eapply kept_or_returned_trans; [done|by apply IH].
    + by injection H as <-.
Qed.

(** X21. The terminal is the shell's whenever the shell is at its prompt:
    if the shell started normally ([setpgid] did not fail) then, whatever
    was typed and whatever the children did, the state in which [main] is
    back at the prompt or leaves through [exit] has the shell's own process
    group as the terminal's foreground group.  Every hand-over to a
    foreground job is undone before the next prompt. *)
Theorem terminal_is_back_with_the_shell
    (pid tty setpgid_result : Z)
    (turns : list (option string * Z * list (Z * Z)))
    (c : control)
    (Hstart : 0 <= setpgid_result)
    (Hrun : main sys_kill pid tty setpgid_result turns
              = Ret c) :
  shell_pid (shell_of c) = pid /\ tty_pgrp (shell_of c) = pid.
Proof.
  unfold main, main_start in Hrun.
  destruct (setpgid_result <? 0) eqn:Hneg; [lia|].
  apply main_loop_returns in Hrun as (Hp & Ht & _). simpl in *.
  split; [done|]. destruct Ht; congruence.
Qed.

(** X22. The shell sends no signal but SIGCONT: in every state [main]
    reaches at its prompt or at [exit], each [kill] call recorded so far
    carries SIGCONT. *)
Theorem shell_sends_only_SIGCONT
    (pid tty setpgid_result : Z)
    (turns : list (option string * Z * list (Z * Z)))
    (c : control)
    (Hrun : main sys_kill pid tty setpgid_result turns
              = Ret c) :
  Forall (fun x => x.2 = SIGCONT) (signals (shell_of c)).
Proof.
  unfold main, main_start in Hrun.
  destruct (setpgid_result <? 0).
  - injection Hrun as <-. constructor.
  - apply main_loop_returns in Hrun as (_ & _ & _ & (sent & Hs & Hall)).
    simpl in Hs. by rewrite Hs.
Qed.

End Environment.

Lemma terminal_is_back_with_the_shell_witness :
  exists c,
    main Examples.kill_succeeds 50 40 0 Examples.stop_then_fg = Ret c /\
    tty_pgrp (shell_of c) = 50.
Proof.
  eexists. split; [vm_compute; reflexivity|].
  refine (proj2 (terminal_is_back_with_the_shell Examples.kill_succeeds
                   50 40 0 Examples.stop_then_fg _ _ _)).
  - lia.
  - vm_compute. reflexivity.
Defined.

Lemma shell_sends_only_SIGCONT_witness :
  exists c,
    main Examples.kill_succeeds 50 40 0 Examples.stop_then_fg = Ret c /\
    signals (shell_of c) = [(-100, SIGCONT)] /\
    Forall (fun x => x.2 = SIGCONT) (signals (shell_of c)).
Proof.
  eexists. split; [vm_compute; reflexivity|]. split; [vm_compute; reflexivity|].
  refine (shell_sends_only_SIGCONT Examples.kill_succeeds
            50 40 0 Examples.stop_then_fg _ _).
  vm_compute. reflexivity.
Defined.

End FrameProofs.

(** ** The descriptor table after the redirections *)

Module DescriptorProofs.
Import Redirect Notions.

Lemma lowest_free_fd_nonneg (t : gmap Z file) : 0 <= lowest_free_fd t.
Proof.
  unfold lowest_free_fd.
  destruct (List.find _ _) as [n|] eqn:Hfind; simpl; [|lia].
  apply find_some in Hfind as [Hin _].
  apply list_elem_of_In in Hin. apply elem_of_seqZ in Hin. lia.
Qed.

(** [open] returns a descriptor that was not open. *)
Lemma lowest_free_fd_free (t : gmap Z file) : t !! lowest_free_fd t = None.
Proof.
  unfold lowest_free_fd.
  destruct (List.find _ _) as [n|] eqn:Hfind; simpl.
  - apply find_some in Hfind as [_ Hn]. by apply bool_decide_eq_true in Hn.
  - destruct (t !! Z.of_nat (size t)) as [f|] eqn:Hlast; [|done].
    exfalso.
    assert (Hsub : list_to_set (seqZ 0 (Z.of_nat (S (size t)))) ⊆ dom t).
    { intros x Hx. apply elem_of_list_to_set, elem_of_seqZ in Hx.
      apply elem_of_dom.
      destruct (decide (x = Z.of_nat (size t))) as [->|Hne]; [by eexists|].
      pose proof (find_none _ _ Hfind x) as Hnone.
      destruct (t !! x) eqn:Hx'; [by eexists|].
      assert (Hin : In x (seqZ 0 (Z.of_nat (size t)))).
      { apply list_elem_of_In, elem_of_seqZ. lia. }
      apply Hnone in Hin. simpl in Hin.
      by rewrite bool_decide_true in Hin. }
    apply subseteq_size in Hsub.
    rewrite size_list_to_set in Hsub by apply NoDup_seqZ.
    rewrite length_seqZ, size_dom in Hsub. lia.
Qed.

Section System.
Variable open_errno : string -> Z -> option Z.
Variable strerror : Z -> string.

Local Abbreviation redirect_block := (redirect_block open_errno strerror).
Local Abbreviation apply_file_redirects :=
  (apply_file_redirects open_errno strerror).

(** A redirection whose file can be opened. *)
Lemma redirect_block_opened name flags mode target (st : Z * proc) :
  open_errno name flags = None ->
  is_Some (fds (snd st) !! target) ->
  let r := redirect_block (Some name) flags mode target st in
  fst r = fst st /\
  fds (snd r) = <[target := Opened name flags mode]> (fds (snd st)) /\
  written (snd r) = written (snd st) /\
  errno (snd r) = errno (snd st).
Proof.
  destruct st as [st p]. simpl.
  intros Hopen Htarget. unfold Redirect.redirect_block, sys_open. simpl.
  rewrite Hopen.
  set (fd := lowest_free_fd (fds p)).
  pose proof (lowest_free_fd_free (fds p)) as Hfree. fold fd in Hfree.
  pose proof (lowest_free_fd_nonneg (fds p)) as Hnn. fold fd in Hnn.
  assert (Hne : fd <> target).
  { intros ->. rewrite Hfree in Htarget. by destruct Htarget. }
  destruct (fd <? 0) eqn:Hneg; [lia|]. simpl.
  unfold sys_dup2. simpl. rewrite lookup_insert_eq.
  unfold sys_close. simpl.
  rewrite lookup_insert_ne by done. rewrite lookup_insert_eq. simpl.
  repeat split; try done.
  rewrite delete_insert_ne by done.
  by rewrite delete_insert_id.
Qed.

(** A redirection whose file cannot be opened. *)
Lemma redirect_block_failed name flags mode target (st : Z * proc) e cur :
  open_errno name flags = Some e ->
  (forall fd, fd < 0 -> fds (snd st) !! fd = None) ->
  fds (snd st) !! STDERR_FILENO = Some cur ->
  let r := redirect_block (Some name) flags mode target st in
  fst r = -1 /\
  fds (snd r) = fds (snd st) /\
  written (snd r) =
    written (snd st) ++
    [(cur, diagnostic_line open_errno strerror (name, flags, mode, target))].
Proof.
  destruct st as [st p]. simpl.
  intros Hopen Hneg Hcur. unfold Redirect.redirect_block, sys_open. simpl.
  rewrite Hopen. simpl.
  unfold print_file_redirection_error_str, perror, sys_dup2, sys_close. simpl.
  rewrite (Hneg (-1)) by lia. simpl. rewrite (Hneg (-1)) by lia. simpl.
  rewrite Hcur. unfold diagnostic_line, diagnostic_for. simpl.
  by rewrite Hopen.
Qed.

Lemma standard_descriptors_open_insert t target f :
  0 <= target ->
  standard_descriptors_open t ->
  standard_descriptors_open (<[target := f]> t).
Proof.
  intros Ht (H0 & H1 & H2 & Hneg). unfold standard_descriptors_open.
  repeat split.
  - destruct (decide (target = 0)) as [->|?];
      [by rewrite lookup_insert_eq|by rewrite lookup_insert_ne].
  - destruct (decide (target = 1)) as [->|?];
      [by rewrite lookup_insert_eq|by rewrite lookup_insert_ne].
  - destruct (decide (target = 2)) as [->|?];
      [by rewrite lookup_insert_eq|by rewrite lookup_insert_ne].
  - intros fd Hfd. rewrite lookup_insert_ne by lia. by apply Hneg.
Qed.

Lemma standard_descriptors_open_target t target :
  standard_descriptors_open t -> 0 <= target <= 2 -> is_Some (t !! target).
Proof.
  intros (H0 & H1 & H2 & _) Ht.
  assert (Hcases : target = 0 \/ target = 1 \/ target = 2) by lia.
  destruct Hcases as [-> | [-> | ->]]; done.
Qed.

(** One redirection block, whether its file can be opened or not. *)
Lemma redirect_block_state filename flags mode target (st : Z * proc) cur :
  standard_descriptors_open (fds (snd st)) ->
  0 <= target <= 2 ->
  fds (snd st) !! STDERR_FILENO = Some cur ->
  let r := redirect_block filename flags mode target st in
  let req := match filename with
             | Some f => [(f, flags, mode, target)]
             | None => []
             end in
  written (snd r) =
    written (snd st) ++
    List.map (fun q => (cur, diagnostic_line open_errno strerror q))
      (List.filter (open_fails open_errno) req) /\
  fds (snd r) =
    (if existsb (open_fails open_errno) req then fds (snd st)
     else rewire filename flags mode target (fds (snd st))) /\
  standard_descriptors_open (fds (snd r)) /\
  (forall k, k <> target -> fds (snd r) !! k = fds (snd st) !! k).
Proof.
  intros Hstd Ht Hcur. destruct filename as [name|].
  2:{ simpl. by rewrite app_nil_r. }
  cbv zeta. cbn [List.filter existsb].
  assert (Hf : open_fails open_errno (name, flags, mode, target) =
               match open_errno name flags with
               | Some _ => true
               | None => false
               end) by done.
  rewrite Hf. clear Hf.
  destruct (open_errno name flags) as [e|] eqn:Hopen;
    cbn [List.map orb rewire].
  - destruct (redirect_block_failed name flags mode target st e cur Hopen)
      as (_ & Hfds & Hw); [apply Hstd|done|].
    rewrite Hw, Hfds. done.
  - destruct (redirect_block_opened name flags mode target st Hopen)
      as (_ & Hfds & Hw & _).
    { by apply standard_descriptors_open_target. }
    rewrite Hw, Hfds, app_nil_r.
    split; [done|]. split; [done|]. split.
    + apply standard_descriptors_open_insert; [lia|done].
    + intros k Hk. by rewrite lookup_insert_ne.
Qed.

Lemma nuke_written p :
  written (nuke_all_file_descriptors p) = written p.
Proof.
  unfold nuke_all_file_descriptors, sys_dup2.
  repeat match goal with
         | |- context [match ?x with Some _ => _ | None => _ end] =>
             destruct x; simpl
         end; done.
Qed.

Lemma rewire_is_Some filename flags mode target (t : gmap Z file) k :
  is_Some (t !! k) -> is_Some (rewire filename flags mode target t !! k).
Proof.
  intros Hk. destruct filename; simpl; [|done].
  destruct (decide (target = k)) as [->|?];
    [by rewrite lookup_insert_eq|by rewrite lookup_insert_ne].
Qed.

Lemma rewire_dom filename flags mode target (t : gmap Z file) :
  is_Some (t !! target) ->
  dom (rewire filename flags mode target t) = dom t.
Proof.
  intros Hk. destruct filename; simpl; [|done].
  by apply dom_insert_lookup_L.
Qed.

(** The redirections of a process whose files can all be opened. *)
Lemma apply_file_redirects_opened (process : process_t) (p : proc) :
  existsb (open_fails open_errno) (requested process) = false ->
  is_Some (fds p !! 0) /\ is_Some (fds p !! 1) /\ is_Some (fds p !! 2) ->
  fst (apply_file_redirects process p) = SUCCESS /\
  fds (snd (apply_file_redirects process p)) = rewired process (fds p) /\
  dom (fds (snd (apply_file_redirects process p))) = dom (fds p) /\
  written (snd (apply_file_redirects process p)) = written p /\
  errno (snd (apply_file_redirects process p)) = errno p.
Proof.
  intros Hopen Hstd.
  destruct Hstd as (H0 & H1 & H2).
  unfold requested in Hopen. rewrite !existsb_app in Hopen.
  apply orb_false_iff in Hopen as [He Hopen].
  apply orb_false_iff in Hopen as [Hi Ho].
  unfold Redirect.apply_file_redirects, rewired.
  set (st1 := redirect_block (redirect_error_filename process)
                creat_flags (Some creat_mode) STDERR_FILENO (0, p)).
  assert (E1 : fst st1 = 0 /\
               fds (snd st1) =
                 rewire (redirect_error_filename process) creat_flags
                   (Some creat_mode) STDERR_FILENO (fds p) /\
               written (snd st1) = written p /\ errno (snd st1) = errno p).
  { unfold st1. destruct (redirect_error_filename process) as [e|]; [|done].
    simpl in He. destruct (open_errno e creat_flags) eqn:Hoe; [done|].
    by apply (redirect_block_opened e _ _ STDERR_FILENO (0, p)). }
  destruct E1 as (Es1 & Ef1 & Ew1 & Ee1).
  set (st2 := redirect_block (redirect_input_filename process)
                O_RDONLY None STDIN_FILENO st1).
  assert (E2 : fst st2 = 0 /\
               fds (snd st2) =
                 rewire (redirect_input_filename process) O_RDONLY None
                   STDIN_FILENO (fds (snd st1)) /\
               written (snd st2) = written p /\ errno (snd st2) = errno p).
  { unfold st2. destruct (redirect_input_filename process) as [i|]; [|done].
    simpl in Hi. destruct (open_errno i O_RDONLY) eqn:Hoi; [done|].
    destruct (redirect_block_opened i O_RDONLY None STDIN_FILENO st1 Hoi)
      as (Hs & Hf & Hw & Herr).
    { rewrite Ef1. destruct (redirect_error_filename process); simpl; [|done].
      by rewrite lookup_insert_ne. }
    split; [congruence|]. split; [exact Hf|]. split; congruence. }
  destruct E2 as (Es2 & Ef2 & Ew2 & Ee2).
  set (st3 := redirect_block (redirect_output_filename process)
                creat_flags (Some creat_mode) STDOUT_FILENO st2).
  assert (E3 : fst st3 = 0 /\
               fds (snd st3) =
                 rewire (redirect_output_filename process) creat_flags
                   (Some creat_mode) STDOUT_FILENO (fds (snd st2)) /\
               written (snd st3) = written p /\ errno (snd st3) = errno p).
  { unfold st3. destruct (redirect_output_filename process) as [o|]; [|done].
    simpl in Ho. destruct (open_errno o creat_flags) eqn:Hoo; [done|].
    destruct (redirect_block_opened o creat_flags (Some creat_mode)
                STDOUT_FILENO st2 Hoo) as (Hs & Hf & Hw & Herr).
    { rewrite Ef2, Ef1.
      destruct (redirect_input_filename process),
               (redirect_error_filename process); simpl;
        rewrite ?lookup_insert_ne by done; done. }
    split; [congruence|]. split; [exact Hf|]. split; congruence. }
  destruct E3 as (Es3 & Ef3 & Ew3 & Ee3).
  cbv zeta. fold st1. fold st2. fold st3. rewrite Es3. simpl.
  rewrite Ef3, Ef2, Ef1. repeat split; try done.
  rewrite !rewire_dom; [done|done|..]; by repeat apply rewire_is_Some.
Qed.

(** X23. When every file a process asks for can be opened,
    [apply_file_redirects] returns [SUCCESS] and leaves exactly the
    requested rewiring behind: each redirected standard descriptor refers to
    its file (opened with the flags and mode of that kind of redirection),
    every other descriptor is as it was, so that no temporary descriptor
    stays open; nothing is written and [errno] is untouched. *)
Theorem successful_redirections_leave_no_descriptor_behind
    (process : process_t) (p : proc)
    (Hopen : existsb (open_fails open_errno) (requested process) = false)
    (Hstd : is_Some (fds p !! 0) /\ is_Some (fds p !! 1) /\
            is_Some (fds p !! 2)) :
  fst (apply_file_redirects process p) = SUCCESS /\
  fds (snd (apply_file_redirects process p)) = rewired process (fds p) /\
  dom (fds (snd (apply_file_redirects process p))) = dom (fds p) /\
  written (snd (apply_file_redirects process p)) = written p /\
  errno (snd (apply_file_redirects process p)) = errno p.
Proof. by apply apply_file_redirects_opened. Qed.

(** X24. Where the diagnostics of [apply_file_redirects] go: with the
    standard descriptors open, one line is written for every requested file
    that cannot be opened, in the order error, input, output, and nothing
    else is written.  Every line goes to the file named by [2>] when that
    file could be opened, and otherwise to what descriptor 2 referred to
    before; a line reads [-yash: file: No such file or directory: ] followed
    by the C library's text for the [errno] of the failed [open], whatever
    that [errno] is. *)
Theorem diagnostics_go_to_the_redirected_stderr
    (process : process_t) (p : proc) (inherited : file)
    (Hstd : standard_descriptors_open (fds p))
    (Herr : fds p !! STDERR_FILENO = Some inherited) :
  written (snd (apply_file_redirects process p)) =
    written p ++
    List.map (fun q => (diagnostic_target open_errno process inherited,
                        diagnostic_line open_errno strerror q))
      (List.filter (open_fails open_errno) (requested process)).
Proof.
  unfold Redirect.apply_file_redirects.
  set (st1 := redirect_block (redirect_error_filename process)
                creat_flags (Some creat_mode) STDERR_FILENO (0, p)).
  destruct (redirect_block_state (redirect_error_filename process)
              creat_flags (Some creat_mode) STDERR_FILENO (0, p) inherited)
    as (Hw1 & Hf1 & Hstd1 & _); [done|unfold STDERR_FILENO; lia|done|].
  fold st1 in Hw1, Hf1, Hstd1. simpl in Hw1, Hf1.
  set (T := diagnostic_target open_errno process inherited).
  assert (Hcur1 : fds (snd st1) !! STDERR_FILENO = Some T).
  { rewrite Hf1. unfold T, diagnostic_target.
    destruct (redirect_error_filename process) as [e|]; simpl; [|done].
    destruct (open_errno e creat_flags); simpl; [done|].
    by rewrite lookup_insert_eq. }
  assert (Hw1' : written (snd st1) =
            written p ++
            List.map (fun q => (T, diagnostic_line open_errno strerror q))
              (List.filter (open_fails open_errno)
                 match redirect_error_filename process with
                 | Some f => [(f, creat_flags, Some creat_mode, STDERR_FILENO)]
                 | None => []
                 end)).
  { rewrite Hw1. f_equal. unfold T, diagnostic_target.
    destruct (redirect_error_filename process) as [e|]; simpl; [|done].
    by destruct (open_errno e creat_flags). }
  set (st2 := redirect_block (redirect_input_filename process)
                O_RDONLY None STDIN_FILENO st1).
  destruct (redirect_block_state (redirect_input_filename process)
              O_RDONLY None STDIN_FILENO st1 T)
    as (Hw2 & _ & Hstd2 & Hother2); [done|unfold STDIN_FILENO; lia|done|].
  fold st2 in Hw2, Hstd2, Hother2.
  assert (Hcur2 : fds (snd st2) !! STDERR_FILENO = Some T).
  { rewrite Hother2; [exact Hcur1|done]. }
  set (st3 := redirect_block (redirect_output_filename process)
                creat_flags (Some creat_mode) STDOUT_FILENO st2).
  destruct (redirect_block_state (redirect_output_filename process)
              creat_flags (Some creat_mode) STDOUT_FILENO st2 T)
    as (Hw3 & _); [done|unfold STDOUT_FILENO; lia|done|].
  fold st3 in Hw3.
  cbv zeta. fold st1. fold st2. fold st3.
  assert (Hfinal : written (snd st3) =
            written p ++
            List.map (fun q => (T, diagnostic_line open_errno strerror q))
              (List.filter (open_fails open_errno) (requested process))).
  { rewrite Hw3, Hw2, Hw1'. unfold requested.
    rewrite !List.filter_app, !List.map_app, <- !app_assoc. done. }
  destruct (fst st3 =? -1); simpl; [|done].
  by rewrite nuke_written.
Qed.

(** Closing the descriptor that [open] returned undoes what [open] did to
    the table. *)
Lemma delete_opened (t : gmap Z file) (fd target : Z) (f : file) :
  delete fd (<[target := f]> (<[fd := f]> t)) = delete fd (<[target := f]> t).
Proof.
  apply map_eq. intros k. destruct (decide (k = fd)) as [->|Hk].
  - by rewrite !lookup_delete_eq.
  - rewrite !lookup_delete_ne by done.
    destruct (decide (k = target)) as [->|Ht].
    + by rewrite !lookup_insert_eq.
    + by rewrite !lookup_insert_ne by done.
Qed.

(** One redirection block: its calls with their results, the local
    [status], and the descriptor table when the file could be opened. *)
Lemma redirect_block_trace filename flags mode target (st : Z * proc) :
  let r := redirect_block filename flags mode target st in
  let req := match filename with
             | Some f => [(f, flags, mode, target)]
             | None => []
             end in
  exists blocks,
    Forall2 (redirection_calls open_errno) req blocks /\
    calls (snd r) = calls (snd st) ++ concat blocks /\
    fst r = (if existsb (open_fails open_errno) req then -1 else fst st) /\
    (existsb (open_fails open_errno) req = false ->
     fds (snd r) = fold_left (fun t q => redirected q t) req (fds (snd st))).
Proof.
  destruct st as [status p]. destruct filename as [name|]; cbv zeta.
  2: { exists []. split; [constructor|]. simpl. by rewrite app_nil_r. }
  unfold Redirect.redirect_block, sys_open. cbn [snd fst].
  destruct (open_errno name flags) as [e|] eqn:Hopen.
  - cbn [Z.ltb Z.compare]. cbv iota.
    set (p1 := {| fds := fds p; errno := e; written := written p;
                  calls := calls p ++ [call_open name flags mode (-1)] |}).
    cbn [fst snd].
    destruct (RedirectProofs.sys_dup2_calls (-1) target
                (print_file_redirection_error_str strerror name p1))
      as [r1 H1].
    destruct (RedirectProofs.sys_close_calls (-1)
                (sys_dup2 (-1) target
                   (print_file_redirection_error_str strerror name p1)))
      as [r2 H2].
    exists [[call_open name flags mode (-1);
             call_perror (diagnostic_for (name, flags, mode, target));
             call_dup2 (-1) target r1; call_close (-1) r2]].
    split; [|split; [|split]].
    + constructor; [|constructor].
      exists (-1), r1, r2. unfold open_fails. by rewrite Hopen.
    + rewrite H2, H1. simpl. by rewrite <- !app_assoc.
    + simpl. unfold open_fails. by rewrite Hopen.
    + simpl. unfold open_fails. by rewrite Hopen.
  - set (fd := lowest_free_fd (fds p)).
    pose proof (lowest_free_fd_nonneg (fds p)) as Hnn. fold fd in Hnn.
    destruct (Z.ltb_spec fd 0) as [?|_]; [lia|]. cbn [fst snd].
    unfold sys_dup2. cbn [fds calls errno written].
    rewrite lookup_insert_eq.
    unfold sys_close. cbn [fds calls errno written].
    assert (Hfd : <[target := Opened name flags mode]>
                    (<[fd := Opened name flags mode]> (fds p)) !! fd
                  = Some (Opened name flags mode)).
    { destruct (decide (target = fd)) as [->|Hne].
      - by rewrite lookup_insert_eq.
      - rewrite lookup_insert_ne by done. by rewrite lookup_insert_eq. }
    rewrite Hfd. cbn [fds calls errno written].
    exists [[call_open name flags mode fd;
             call_dup2 fd target target; call_close fd 0]].
    split; [|split; [|split]].
    + constructor; [|constructor].
      exists fd, target, 0. unfold open_fails. by rewrite Hopen.
    + simpl. by rewrite <- !app_assoc.
    + simpl. unfold open_fails. by rewrite Hopen.
    + intros _. simpl. fold fd. apply delete_opened.
Qed.

(** C5.  Whatever the process spec asks for and whatever state the process
    is in, the calls [apply_file_redirects] adds are one block per
    redirection that is set, in the order error, input, output, and after
    them, when an [open] failed, the three [dup2] calls of
    [nuke_all_file_descriptors].  A block is the [open] of the file, the
    diagnostic when the [open] failed, the [dup2] of the descriptor that
    very [open] returned onto the standard descriptor of the redirection
    (2, 0, 1 in this order), and the [close] of that descriptor; after an
    [open] that succeeded both succeed.  When every file could be opened
    the descriptor table is the one these rewirings build, one after the
    other in that order.  Input is opened read-only and with no other flag;
    output and error are opened write-only with create and truncate, mode
    0664. *)
Theorem redirections_applied_in_order (process : process_t) (p : proc) :
  exists blocks,
    Forall2 (redirection_calls open_errno) (requested process) blocks /\
    (if existsb (open_fails open_errno) (requested process)
     then fst (apply_file_redirects process p) = FILE_REDIRECTION_ERROR /\
          exists r0 r1 r2,
            calls (snd (apply_file_redirects process p)) =
              calls p ++ concat blocks
              ++ [call_dup2 STDIN_FILENO STDIN_FILENO r0;
                  call_dup2 STDOUT_FILENO STDIN_FILENO r1;
                  call_dup2 STDERR_FILENO STDIN_FILENO r2]
     else fst (apply_file_redirects process p) = SUCCESS /\
          calls (snd (apply_file_redirects process p)) =
            calls p ++ concat blocks /\
          fds (snd (apply_file_redirects process p)) =
            fold_left (fun t q => redirected q t) (requested process)
              (fds p)) /\
    requested process =
      match redirect_error_filename process with
      | Some f => [(f, 577, Some 436, 2)]
      | None => []
      end ++
      match redirect_input_filename process with
      | Some f => [(f, 0, None, 0)]
      | None => []
      end ++
      match redirect_output_filename process with
      | Some f => [(f, 577, Some 436, 1)]
      | None => []
      end /\
    O_RDONLY = 0 /\
    creat_flags = O_CREAT + O_WRONLY + O_TRUNC /\
    Z.land creat_flags 3 = O_WRONLY /\
    creat_mode = 4 + 8 * (6 + 8 * 6).
Proof.
  unfold Redirect.apply_file_redirects.
  set (st0 := (0, p)).
  destruct (redirect_block_trace (redirect_error_filename process)
              creat_flags (Some creat_mode) STDERR_FILENO st0)
    as (b1 & Hb1 & Hc1 & Hs1 & Hf1).
  set (st1 := redirect_block _ _ _ STDERR_FILENO st0) in *.
  destruct (redirect_block_trace (redirect_input_filename process)
              O_RDONLY None STDIN_FILENO st1)
    as (b2 & Hb2 & Hc2 & Hs2 & Hf2).
  set (st2 := redirect_block _ _ _ STDIN_FILENO st1) in *.
  destruct (redirect_block_trace (redirect_output_filename process)
              creat_flags (Some creat_mode) STDOUT_FILENO st2)
    as (b3 & Hb3 & Hc3 & Hs3 & Hf3).
  set (st3 := redirect_block _ _ _ STDOUT_FILENO st2) in *.
  cbv zeta in *.
  exists (b1 ++ b2 ++ b3).
  split; [|split; [|by repeat split]].
  { unfold requested. by repeat apply Forall2_app. }
  assert (Hcalls : calls (snd st3) = calls p ++ concat (b1 ++ b2 ++ b3)).
  { rewrite Hc3, Hc2, Hc1, !concat_app. simpl. by rewrite <- !app_assoc. }
  unfold requested. rewrite !existsb_app, !fold_left_app.
  match type of Hs1 with _ = if ?b then _ else _ => set (e1 := b) in * end.
  match type of Hs2 with _ = if ?b then _ else _ => set (e2 := b) in * end.
  match type of Hs3 with _ = if ?b then _ else _ => set (e3 := b) in * end.
  rewrite Hs3, Hs2, Hs1. simpl fst.
  destruct (RedirectProofs.nuke_calls (snd st3)) as (r0 & r1 & r2 & Hn).
  destruct e1, e2, e3; cbn [orb Z.eqb Pos.eqb snd fst];
    try (split; [done|]; exists r0, r1, r2; rewrite Hn, Hcalls;
         by rewrite <- !app_assoc).
  split; [done|]. split; [done|].
  by rewrite (Hf3 eq_refl), (Hf2 eq_refl), (Hf1 eq_refl).
Qed.

End System.

Lemma successful_redirections_leave_no_descriptor_behind_witness :
  fds (snd (apply_file_redirects Examples.missing_fs Examples.linux_strerror
              (set_redirect_output "out" (set_argv 0 "ls" zero_process))
              fresh_child)) =
    <[1 := Opened "out" creat_flags (Some creat_mode)]> (fds fresh_child).
Proof.
  refine (proj1 (proj2
    (successful_redirections_leave_no_descriptor_behind
       Examples.missing_fs Examples.linux_strerror
       (set_redirect_output "out" (set_argv 0 "ls" zero_process))
       fresh_child _ _))).
  - reflexivity.
  - repeat split; by eexists.
Defined.

Lemma fresh_child_standard_descriptors_open :
  standard_descriptors_open (fds fresh_child).
Proof.
  repeat split; try (by eexists).
  intros fd Hfd. unfold fresh_child. simpl.
  rewrite !lookup_insert_ne by lia. done.
Qed.

Lemma diagnostics_go_to_the_redirected_stderr_witness :
  written (snd (apply_file_redirects Examples.missing_fs
                  Examples.linux_strerror Examples.cat_all_redirected
                  fresh_child)) =
    [(Opened "err" creat_flags (Some creat_mode),
      "-yash: missing: No such file or directory: No such file or directory"
      +:+ lf)].
Proof.
  exact (diagnostics_go_to_the_redirected_stderr
           Examples.missing_fs Examples.linux_strerror
           Examples.cat_all_redirected fresh_child (Inherited 2)
           fresh_child_standard_descriptors_open eq_refl).
Defined.

End DescriptorProofs.

(** ** The children of the shell *)

Module LauncherProofs.
Import Redirect Launcher Notions.

Section System.
Variable open_errno : string -> Z -> option Z.
Variable strerror : Z -> string.
Variable execvp_errno : string -> option Z.

Local Abbreviation redirect_and_exec :=
  (redirect_and_exec open_errno strerror execvp_errno).

(** A redirection that fails keeps the program from being run. *)
Lemma redirect_and_exec_failed process c :
  existsb (open_fails open_errno) (requested process) = true ->
  exists c', redirect_and_exec process c = Ret (Exits EXIT_FAILURE c').
Proof.
  intros Hfail. unfold Launcher.redirect_and_exec.
  destruct (RedirectProofs.apply_file_redirects_effect open_errno strerror
              process (io c)) as (body & _ & _ & _ & Hret).
  rewrite Hfail in Hret. destruct Hret as [Hret _].
  destruct (apply_file_redirects open_errno strerror process (io c))
    as [status p1]. simpl in Hret. subst status.
  by eexists.
Qed.

(** With every file opened, the program is run on the rewired
    descriptors. *)
Lemma redirect_and_exec_opened process c file args :
  existsb (open_fails open_errno) (requested process) = false ->
  is_Some (fds (io c) !! 0) /\ is_Some (fds (io c) !! 1) /\
  is_Some (fds (io c) !! 2) ->
  argv process !! 0%nat = Some (Some file) ->
  argv_strings (argv process) = Ret args ->
  exists c',
    redirect_and_exec process c =
      Ret (match execvp_errno file with
           | None => Runs file args c'
           | Some e =>
               Exits EXIT_FAILURE
                 (with_io {| fds := fds (io c'); errno := e;
                             written := written (io c');
                             calls := calls (io c') |} c')
           end) /\
    fds (io c') = rewired process (fds (io c)) /\
    written (io c') = written (io c) /\
    control c' = control c.
Proof.
  intros Hopen Hstd Hname Hargs. unfold Launcher.redirect_and_exec.
  destruct (DescriptorProofs.apply_file_redirects_opened open_errno strerror
              process (io c) Hopen Hstd) as (Hret & Hfds & _ & Hw & _).
  destruct (apply_file_redirects open_errno strerror process (io c))
    as [status p1]. simpl in Hret, Hfds, Hw. subst status.
  change (SUCCESS =? FILE_REDIRECTION_ERROR) with false. cbv iota.
  rewrite Hname, Hargs. exec_step. simpl.
  exists (with_io p1 c). split; [|by repeat split].
  by destruct (execvp_errno file).
Qed.

(** X25. The child that [execute_process] forks runs the program only
    after its redirections: when a requested file cannot be opened the
    child leaves with [exit(EXIT_FAILURE)] and [execvp] is never called;
    when all can be opened (and the standard descriptors are open), the
    child calls [execvp] with the first [argv] slot as the program and the
    strings before the first NULL as its arguments, on descriptors rewired
    exactly as requested and with nothing written; if [execvp] returns, the
    child leaves with [exit(EXIT_FAILURE)]. *)
Theorem child_runs_the_program_after_its_redirections
    (job : job_t) (process : process_t) (c : child)
    (Hprocess : first_process job = Some process) :
  (existsb (open_fails open_errno) (requested process) = true ->
   exists c',
     execute_process_child open_errno strerror execvp_errno job c =
       Ret (Exits EXIT_FAILURE c')) /\
  (forall file args,
      existsb (open_fails open_errno) (requested process) = false ->
      is_Some (fds (io c) !! 0) /\ is_Some (fds (io c) !! 1) /\
      is_Some (fds (io c) !! 2) ->
      argv process !! 0%nat = Some (Some file) ->
      argv_strings (argv process) = Ret args ->
      exists c',
        execute_process_child open_errno strerror execvp_errno job c =
          Ret (match execvp_errno file with
               | None => Runs file args c'
               | Some e =>
                   Exits EXIT_FAILURE
                     (with_io {| fds := fds (io c'); errno := e;
                                 written := written (io c');
                                 calls := calls (io c') |} c')
               end) /\
        fds (io c') = rewired process (fds (io c)) /\
        written (io c') = written (io c)).
Proof.
  unfold execute_process_child. rewrite Hprocess. exec_step. split.
  - intros Hfail. by apply redirect_and_exec_failed.
  - intros file args Hopen Hstd Hname Hargs.
    set (c5 := if negb (background job) then _ else _).
    assert (Hio : io c5 = io c) by (unfold c5; by destruct (background job)).
    destruct (redirect_and_exec_opened process c5 file args)
      as (c' & Hrun & Hfds & Hw & _); try done; try (by rewrite Hio).
    exists c'. rewrite Hrun. by rewrite <- Hio.
Qed.

Variable pipe_read_end pipe_write_end : file.

(** The descriptor table of a grandchild once it has closed one end of the
    pipe, put the other on a standard descriptor and closed it. *)
Lemma pipe_end_on_target (t : gmap Z file) (r w a b target : Z) (F : file) :
  t !! r = None -> t !! w = None ->
  (a = r /\ b = w \/ a = w /\ b = r) ->
  target <> r -> target <> w ->
  delete a (<[target := F]>
              (delete b (<[w := pipe_write_end]>
                           (<[r := pipe_read_end]> t)))) =
  <[target := F]> t.
Proof.
  intros Hr Hw Hab Htr Htw. apply map_eq. intros k.
  destruct (decide (k = target)) as [->|Hkt].
  { rewrite lookup_insert_eq.
    destruct Hab as [[-> ->]|[-> ->]];
      rewrite lookup_delete_ne by done; by rewrite lookup_insert_eq. }
  rewrite (lookup_insert_ne _ target k) by done.
  destruct (decide (k = r)) as [->|Hkr];
    [|destruct (decide (k = w)) as [->|Hkw]].
  - rewrite Hr. destruct Hab as [[-> ->]|[-> ->]].
    + by rewrite lookup_delete_eq.
    + destruct (decide (w = r)) as [->|Hne];
        [by rewrite lookup_delete_eq|].
      rewrite lookup_delete_ne by done.
      rewrite lookup_insert_ne by done. by rewrite lookup_delete_eq.
  - rewrite Hw. destruct Hab as [[-> ->]|[-> ->]].
    + destruct (decide (r = w)) as [->|Hne];
        [by rewrite lookup_delete_eq|].
      rewrite lookup_delete_ne by done.
      rewrite lookup_insert_ne by done. by rewrite lookup_delete_eq.
    + by rewrite lookup_delete_eq.
  - destruct Hab as [[-> ->]|[-> ->]];
      rewrite lookup_delete_ne, lookup_insert_ne, lookup_delete_ne,
        !lookup_insert_ne by done; done.
Qed.

(** The first grandchild, started with both ends of a fresh pipe open. *)
Lemma first_grandchild_runs job process t r w c file args :
  first_process job = Some process ->
  fds (io c) = <[w := pipe_write_end]> (<[r := pipe_read_end]> t) ->
  t !! r = None -> t !! w = None -> r <> w ->
  is_Some (t !! 0) /\ is_Some (t !! 1) /\ is_Some (t !! 2) ->
  existsb (open_fails open_errno) (requested process) = false ->
  argv process !! 0%nat = Some (Some file) ->
  argv_strings (argv process) = Ret args ->
  execvp_errno file = None ->
  exists c1,
    execute_pipe_process_first_child open_errno strerror execvp_errno
      job (r, w) c = Ret (Runs file args c1) /\
    fds (io c1) = rewired process (<[STDOUT_FILENO := pipe_write_end]> t).
Proof.
  intros Hproc Hfds Hr Hw Hrw (H0 & H1 & H2) Hopen Hname Hargs Hexec.
  assert (Hr1 : 1 <> r) by (intros <-; rewrite Hr in H1; by destruct H1).
  assert (Hw1 : 1 <> w) by (intros <-; rewrite Hw in H1; by destruct H1).
  unfold execute_pipe_process_first_child. rewrite Hproc. exec_step.
  cbn [fst snd].
  set (p3 := sys_close w (sys_dup2 w STDOUT_FILENO (sys_close r (io c)))).
  assert (Hp3 : fds p3 = <[STDOUT_FILENO := pipe_write_end]> t).
  { unfold p3, sys_close at 2. rewrite Hfds.
    rewrite lookup_insert_ne by done. rewrite lookup_insert_eq.
    unfold sys_dup2. cbn [fds].
    rewrite lookup_delete_ne by done. rewrite lookup_insert_eq.
    unfold sys_close. cbn [fds]. unfold STDOUT_FILENO.
    rewrite lookup_insert_ne by done.
    rewrite lookup_delete_ne by done. rewrite lookup_insert_eq. cbn [fds].
    apply (pipe_end_on_target t r w w r 1 pipe_write_end); auto. }
  destruct (redirect_and_exec_opened process (with_io p3 c) file args)
    as (c1 & Hrun & Hfds1 & _); try done.
  { cbn [io with_io]. rewrite Hp3. unfold STDOUT_FILENO.
    rewrite lookup_insert_eq, !lookup_insert_ne by done. auto. }
  rewrite Hexec in Hrun. exists c1. split; [done|].
  cbn [io with_io] in Hfds1. by rewrite Hp3 in Hfds1.
Qed.

(** The second grandchild, likewise. *)
Lemma second_grandchild_runs job process t r w c file args :
  second_process job = Some process ->
  fds (io c) = <[w := pipe_write_end]> (<[r := pipe_read_end]> t) ->
  t !! r = None -> t !! w = None -> r <> w ->
  is_Some (t !! 0) /\ is_Some (t !! 1) /\ is_Some (t !! 2) ->
  existsb (open_fails open_errno) (requested process) = false ->
  argv process !! 0%nat = Some (Some file) ->
  argv_strings (argv process) = Ret args ->
  execvp_errno file = None ->
  exists c2,
    execute_pipe_process_second_child open_errno strerror execvp_errno
      job (r, w) c = Ret (Runs file args c2) /\
    fds (io c2) = rewired process (<[STDIN_FILENO := pipe_read_end]> t).
Proof.
  intros Hproc Hfds Hr Hw Hrw (H0 & H1 & H2) Hopen Hname Hargs Hexec.
  assert (Hr0 : 0 <> r) by (intros <-; rewrite Hr in H0; by destruct H0).
  assert (Hw0 : 0 <> w) by (intros <-; rewrite Hw in H0; by destruct H0).
  assert (Hwr : w <> r) by done.
  unfold execute_pipe_process_second_child. rewrite Hproc. exec_step.
  cbn [fst snd].
  set (p3 := sys_close r (sys_dup2 r STDIN_FILENO (sys_close w (io c)))).
  assert (Hp3 : fds p3 = <[STDIN_FILENO := pipe_read_end]> t).
  { unfold p3, sys_close at 2. rewrite Hfds.
    rewrite lookup_insert_eq.
    unfold sys_dup2. cbn [fds].
    rewrite lookup_delete_ne by done.
    rewrite lookup_insert_ne by done. rewrite lookup_insert_eq.
    unfold sys_close. cbn [fds]. unfold STDIN_FILENO.
    rewrite lookup_insert_ne by done.
    rewrite lookup_delete_ne by done.
    rewrite lookup_insert_ne by done. rewrite lookup_insert_eq. cbn [fds].
    apply (pipe_end_on_target t r w r w 0 pipe_read_end); auto. }
  destruct (redirect_and_exec_opened process (with_io p3 c) file args)
    as (c2 & Hrun & Hfds2 & _); try done.
  { cbn [io with_io]. rewrite Hp3. unfold STDIN_FILENO.
    rewrite lookup_insert_eq, !lookup_insert_ne by done. auto. }
  rewrite Hexec in Hrun. exists c2. split; [done|].
  cbn [io with_io] in Hfds2. by rewrite Hp3 in Hfds2.
Qed.

(** The supervisor, once it has closed both ends. *)
Lemma supervisor_closes_both_ends t r w p :
  fds p = <[w := pipe_write_end]> (<[r := pipe_read_end]> t) ->
  t !! r = None -> t !! w = None -> r <> w ->
  fds (sys_close w (sys_close r p)) = t.
Proof.
  intros Hfds Hr Hw Hrw.
  assert (E1 : fds (sys_close r p) = delete r (fds p)).
  { unfold sys_close.
    by rewrite Hfds, lookup_insert_ne, lookup_insert_eq by done. }
  assert (E2 : fds (sys_close w (sys_close r p)) =
               delete w (fds (sys_close r p))).
  { unfold sys_close at 1.
    destruct (fds (sys_close r p) !! w) eqn:E; [done|].
    rewrite E1, Hfds, lookup_delete_ne, lookup_insert_eq in E by done.
    done. }
  rewrite E2, E1, Hfds. apply map_eq. intros k.
  destruct (decide (k = w)) as [->|Hkw]; [by rewrite lookup_delete_eq|].
  rewrite lookup_delete_ne by done.
  destruct (decide (k = r)) as [->|Hkr]; [by rewrite lookup_delete_eq|].
  rewrite lookup_delete_ne by done.
  by rewrite !lookup_insert_ne by done.
Qed.

(** X26. No end of the pipe leaks.  When [pipe] and both [fork]s succeed
    in the supervisor of a pipeline (whose standard descriptors are open),
    and the files the two processes ask for can be opened, then the first
    process is run with the pipe's write end as its standard output, the
    second with the pipe's read end as its standard input, each with its
    own redirections applied on top (so a file redirection of the same
    descriptor replaces the pipe), and neither keeps any other descriptor
    of the pipe; the supervisor closes both ends, is left with the
    descriptors it started with, and leaves with [exit(EXIT_SUCCESS)]. *)
Theorem pipeline_children_get_one_pipe_end_each
    (job : job_t) (process1 process2 : process_t) (pid1 pid2 : Z) (c : child)
    (file1 file2 : string) (args1 args2 : list string)
    (Hfirst : first_process job = Some process1)
    (Hsecond : second_process job = Some process2)
    (Hstd : is_Some (fds (io c) !! 0) /\ is_Some (fds (io c) !! 1) /\
            is_Some (fds (io c) !! 2))
    (Hopen1 : existsb (open_fails open_errno) (requested process1) = false)
    (Hopen2 : existsb (open_fails open_errno) (requested process2) = false)
    (Hname1 : argv process1 !! 0%nat = Some (Some file1))
    (Hname2 : argv process2 !! 0%nat = Some (Some file2))
    (Hargs1 : argv_strings (argv process1) = Ret args1)
    (Hargs2 : argv_strings (argv process2) = Ret args2)
    (Hexec1 : execvp_errno file1 = None)
    (Hexec2 : execvp_errno file2 = None)
    (Hpid1 : 0 <= pid1)
    (Hpid2 : 0 <= pid2) :
  let run := execute_pipe_process_child open_errno strerror execvp_errno
               None pipe_read_end pipe_write_end job pid1 pid2 c in
  exists c1 c2 c0,
    first_child run = Some (Ret (Runs file1 args1 c1)) /\
    fds (io c1) =
      rewired process1 (<[STDOUT_FILENO := pipe_write_end]> (fds (io c))) /\
    second_child run = Some (Ret (Runs file2 args2 c2)) /\
    fds (io c2) =
      rewired process2 (<[STDIN_FILENO := pipe_read_end]> (fds (io c))) /\
    supervisor run = Exits EXIT_SUCCESS c0 /\
    fds (io c0) = fds (io c).
Proof.
  set (t := fds (io c)) in *.
  set (r := lowest_free_fd t).
  set (w := lowest_free_fd (<[r := pipe_read_end]> t)).
  pose proof (DescriptorProofs.lowest_free_fd_free t) as Hr. fold r in Hr.
  pose proof (DescriptorProofs.lowest_free_fd_free (<[r := pipe_read_end]> t))
    as Hw1.
  fold w in Hw1.
  assert (Hrw : r <> w).
  { intros Heq. rewrite <- Heq in Hw1. by rewrite lookup_insert_eq in Hw1. }
  assert (Hw : t !! w = None) by (by rewrite lookup_insert_ne in Hw1).
  intros run. subst run.
  unfold execute_pipe_process_child, sys_pipe.
  set (c6 := if negb (background job) then _ else _).
  assert (Hio6 : io c6 = io c) by (unfold c6; by destruct (background job)).
  cbn [with_io does io fst snd]. rewrite Hio6.
  fold t. fold r. fold w.
  change (0 <? 0) with false. cbv iota.
  destruct (pid1 <? 0) eqn:Hneg1; [lia|].
  destruct (pid2 <? 0) eqn:Hneg2; [lia|].
  cbn [first_child second_child supervisor].
  edestruct (first_grandchild_runs job process1 t r w) as (c1 & Hrun1 & Hfds1);
    [exact Hfirst| |exact Hr|exact Hw|exact Hrw|exact Hstd|exact Hopen1
    |exact Hname1|exact Hargs1|exact Hexec1|];
    [|rewrite Hrun1]; [reflexivity|].
  edestruct (second_grandchild_runs job process2 t r w) as (c2 & Hrun2 & Hfds2);
    [exact Hsecond| |exact Hr|exact Hw|exact Hrw|exact Hstd|exact Hopen2
    |exact Hname2|exact Hargs2|exact Hexec2|];
    [|rewrite Hrun2]; [reflexivity|].
  exists c1, c2. eexists.
  split; [reflexivity|]. split; [exact Hfds1|].
  split; [reflexivity|]. split; [exact Hfds2|].
  split; [reflexivity|].
  cbn [io]. by apply (supervisor_closes_both_ends t r w).
Qed.

End System.

Lemma child_runs_the_program_after_its_redirections_witness :
  exists c',
    execute_process_child Examples.missing_fs Examples.linux_strerror
      (fun _ => None)
      (set_first_process (Some Examples.cat_from_missing) (zero_job "cat < missing"))
      forked = Ret (Exits EXIT_FAILURE c').
Proof.
  refine (proj1 (child_runs_the_program_after_its_redirections
                   Examples.missing_fs Examples.linux_strerror (fun _ => None)
                   (set_first_process (Some Examples.cat_from_missing)
                      (zero_job "cat < missing"))
                   Examples.cat_from_missing forked _) _).
  - reflexivity.
  - reflexivity.
Defined.

Lemma pipeline_children_get_one_pipe_end_each_witness :
  exists c1 c2,
    first_child
      (execute_pipe_process_child Examples.missing_fs Examples.linux_strerror
         (fun _ => None) None Samples.pipe_read_end Samples.pipe_write_end
         Samples.ls_wc_job 201 202 forked) =
      Some (Ret (Runs "ls" ["ls"] c1)) /\
    fds (io c1) = <[1 := Samples.pipe_write_end]> (fds fresh_child) /\
    fds (io c2) =
      <[1 := Opened "count" creat_flags (Some creat_mode)]>
        (<[0 := Samples.pipe_read_end]> (fds fresh_child)).
Proof.
  destruct (pipeline_children_get_one_pipe_end_each
              Examples.missing_fs Examples.linux_strerror (fun _ => None)
              Samples.pipe_read_end Samples.pipe_write_end
              Samples.ls_wc_job
              (set_argv 0 "ls" zero_process)
              (set_redirect_output "count" (set_argv 0 "wc" zero_process))
              201 202 forked "ls" "wc" ["ls"] ["wc"])
    as (c1 & c2 & c0 & Hrun1 & Hfds1 & _ & Hfds2 & _).
  - reflexivity.
  - reflexivity.
  - repeat split; by eexists.
  - reflexivity.
  - reflexivity.
  - reflexivity.
  - reflexivity.
  - vm_compute. reflexivity.
  - vm_compute. reflexivity.
  - reflexivity.
  - reflexivity.
  - lia.
  - lia.
  - exists c1, c2. split; [exact Hrun1|]. split; [exact Hfds1|exact Hfds2].
Defined.

End LauncherProofs.

